(** * The Glimmer/Handlebars printer of prettier-hbs

    A shallow embedding of [src/language-handlebars/printer-glimmer.js] and of
    the path checks of [patches/@glimmer+syntax+0.85.13.patch], followed by
    the properties of the printer that the specification states.

    JavaScript strings are modelled by [string]: one [ascii] per UTF-16 code
    unit, so the model covers the strings whose code units are below 256.
    Numbers that count things are [nat]; the value of a number literal is a
    [Js.Number]. *)

From Stdlib Require Import String Ascii List Bool Arith ZArith Lia.
From Stdlib Require Import DecimalString.
From Stdlib Require Import Sorting.Sorted Sorting.Permutation.
Import ListNotations.

Local Open Scope string_scope.
Local Open Scope list_scope.

(** ** JavaScript string primitives used by the printer *)

Module Js.

Definition chr (n : nat) : ascii := ascii_of_nat n.
Definition str1 (c : ascii) : string := String c EmptyString.

Definition LF : ascii := chr 10.
Definition CR : ascii := chr 13.

(** [s.startsWith(pat)] *)
Definition startsWith (s pat : string) : bool := String.prefix pat s.

(** [s.slice(n)] for [0 <= n] *)
Fixpoint drop (n : nat) (s : string) : string :=
  match n, s with
  | O, _ => s
  | S _, EmptyString => EmptyString
  | S k, String _ r => drop k r
  end.

(** [s.slice(0, n)] for [0 <= n] *)
Fixpoint take (n : nat) (s : string) : string :=
  match n, s with
  | O, _ => EmptyString
  | S _, EmptyString => EmptyString
  | S k, String c r => String c (take k r)
  end.

(** [s.endsWith(pat)] *)
Definition endsWith (s pat : string) : bool :=
  (String.length pat <=? String.length s)%nat
  && String.eqb (drop (String.length s - String.length pat) s) pat.

(** [s.includes(pat)] *)
Fixpoint includes (s pat : string) : bool :=
  String.prefix pat s ||
  match s with
  | EmptyString => false
  | String _ r => includes r pat
  end.

(** [s.replaceAll(pat, rep)] for a non-empty string pattern: the matches are
    taken from left to right and do not overlap.  [skip] counts the
    characters of the current match that are still to be dropped. *)
Fixpoint replaceAll_from (skip : nat) (s pat rep : string) : string :=
  match s with
  | EmptyString => EmptyString
  | String c r =>
      match skip with
      | S k => replaceAll_from k r pat rep
      | O =>
          if String.prefix pat s
          then rep ++ replaceAll_from (String.length pat - 1) r pat rep
          else String c (replaceAll_from 0 r pat rep)
      end
  end.

Definition replaceAll (s pat rep : string) : string :=
  replaceAll_from 0 s pat rep.

(** [s.split(sep)] for a one-character separator *)
Fixpoint split_on (sep : ascii) (s : string) : list string :=
  match s with
  | EmptyString => [EmptyString]
  | String c r =>
      if Ascii.eqb c sep then EmptyString :: split_on sep r
      else match split_on sep r with
           | [] => [str1 c]
           | w :: ws => String c w :: ws
           end
  end.

(** [arr.join(sep)] *)
Definition join (sep : string) (l : list string) : string :=
  String.concat sep l.

(** [s.charAt(i) === c] *)
Definition charAt_is (s : string) (i : nat) (c : ascii) : bool :=
  match String.get i s with
  | Some d => Ascii.eqb d c
  | None => false
  end.

(** [s.toLowerCase()] on code units below 256 *)
Definition lower_char (c : ascii) : ascii :=
  let n := nat_of_ascii c in
  if (((65 <=? n) && (n <=? 90))
      || ((192 <=? n) && (n <=? 222) && negb (n =? 215)))%nat
  then chr (n + 32) else c.

Fixpoint toLowerCase (s : string) : string :=
  match s with
  | EmptyString => EmptyString
  | String c r => String (lower_char c) (toLowerCase r)
  end.

(** The regular-expression class [\s] on code units below 256. *)
Definition is_space (c : ascii) : bool :=
  let n := nat_of_ascii c in
  (((9 <=? n) && (n <=? 13)) || (n =? 32) || (n =? 160))%nat.

Definition is_newline (c : ascii) : bool :=
  Ascii.eqb c LF || Ascii.eqb c CR.

(** The class [[^\S\n\r]]: white space other than a line break. *)
Definition is_inline_space (c : ascii) : bool :=
  is_space c && negb (is_newline c).

Fixpoint all_chars (p : ascii -> bool) (s : string) : bool :=
  match s with
  | EmptyString => true
  | String c r => p c && all_chars p r
  end.

Fixpoint skip_while (p : ascii -> bool) (s : string) : string :=
  match s with
  | EmptyString => EmptyString
  | String c r => if p c then skip_while p r else s
  end.

Fixpoint take_while (p : ascii -> bool) (s : string) : string :=
  match s with
  | EmptyString => EmptyString
  | String c r => if p c then String c (take_while p r) else EmptyString
  end.

(** The number of characters at the end of [s] that satisfy [p]. *)
Fixpoint count_trailing (p : ascii -> bool) (s : string) : nat :=
  match s with
  | EmptyString => 0
  | String c r =>
      if p c && all_chars p r then String.length s else count_trailing p r
  end.

Definition first_is (p : ascii -> bool) (s : string) : bool :=
  match s with
  | EmptyString => false
  | String c _ => p c
  end.

Fixpoint last_is (p : ascii -> bool) (s : string) : bool :=
  match s with
  | EmptyString => false
  | String c EmptyString => p c
  | String _ r => last_is p r
  end.

(** [s.trim()] *)
Definition trim (s : string) : string :=
  let t := skip_while is_space s in
  take (String.length t - count_trailing is_space t) t.

(** [s.split(/[...]+/)] where the class is [p]: the pieces between the
    maximal runs of [p]-characters; a run at either end leaves an empty
    piece there.  [in_run] tells that the previous character belonged to
    a run, whose piece boundary is already placed. *)
Fixpoint split_runs_from (p : ascii -> bool) (in_run : bool) (s : string)
  : list string :=
  match s with
  | EmptyString => [EmptyString]
  | String c r =>
      if p c then
        if in_run then split_runs_from p true r
        else EmptyString :: split_runs_from p true r
      else match split_runs_from p false r with
           | [] => [str1 c]
           | w :: ws => String c w :: ws
           end
  end.

Definition split_runs (p : ascii -> bool) (s : string) : list string :=
  split_runs_from p false s.

(** A JavaScript number, as [String(x)] reads it: not a number, an
    infinity, or a finite value, which is given by its sign, by the digits
    of its shortest decimal form (the first and the last of them are not
    zero; zero has none) and by the place [point] of the decimal point,
    counted from the left of the digits: the value is [0.digits] times ten
    to the power [point]. *)
Inductive Number : Type :=
| NaN
| Infinity (negative : bool)
| Finite (negative : bool) (digits : string) (point : Z).

Fixpoint zeros (n : nat) : string :=
  match n with
  | O => EmptyString
  | S m => String "0" (zeros m)
  end.

Definition decimal (n : nat) : string :=
  NilEmpty.string_of_uint (Nat.to_uint n).

(** [String(x)] for a number [x]: the digits as they are up to 21 places
    before the point and 6 zeros after it, and the form with an exponent
    beyond these. *)
Definition String_of_number (x : Number) : string :=
  match x with
  | NaN => "NaN"
  | Infinity negative => (if negative then "-" else "") ++ "Infinity"
  | Finite _ EmptyString _ => "0"
  | Finite negative (String d r as digits) n =>
      let k := Z.of_nat (String.length digits) in
      (if negative then "-" else "")
      ++ (if (k <=? n)%Z && (n <=? 21)%Z then
            digits ++ zeros (Z.to_nat (n - k))
          else if (0 <? n)%Z && (n <=? 21)%Z then
            take (Z.to_nat n) digits ++ "." ++ drop (Z.to_nat n) digits
          else if (-6 <? n)%Z && (n <=? 0)%Z then
            "0." ++ zeros (Z.to_nat (- n)) ++ digits
          else
            String d (match r with
                      | EmptyString => EmptyString
                      | _ => "." ++ r
                      end)
            ++ "e" ++ (if (n - 1 <? 0)%Z then "-" else "+")
            ++ decimal (Z.to_nat (Z.abs (n - 1))))
  end.

End Js.


(** ** Documents *)

#[local] Set Warnings "-register-all".

(** Modelled from the spec: the documents of the builder vocabulary
    (section 2 of the specification; [document/builders.js] is not among
    the sources).  A document is a string, an array of documents, or one of
    the objects of the builders.  [DLineObject] is the object of type
    [line] with its flags [soft], [hard] and [literal], and [DOpaque] is a
    JavaScript value that is not a document, such as [undefined]. *)
Inductive Doc : Type :=
| DStr (s : string)
| DArr (l : list Doc)
| DGroup (contents : Doc)
| DIndent (contents : Doc)
| DDedent (contents : Doc)
| DFill (parts : list Doc)
| DIfBreak (breakContents flatContents : Doc)
| DLineObject (soft hard literal : bool)
| DBreakParent
| DOpaque (what : string).

(** Modelled from the spec: the builders [group], [indent], [dedent],
    [fill] and [ifBreak] of [document/builders.js] (not among the sources),
    each the object that wraps its contents. *)
Definition group (d : Doc) : Doc := DGroup d.
Definition indent (d : Doc) : Doc := DIndent d.
Definition dedent (d : Doc) : Doc := DDedent d.
Definition fill (parts : list Doc) : Doc := DFill parts.
Definition ifBreak (b f : Doc) : Doc := DIfBreak b f.

(** Modelled from the spec: the breakable [line] and [softline] and the
    forced [hardline] and [literalline] of [document/builders.js] (not among
    the sources); a forced line comes with the mark that breaks the groups
    around it. *)
Definition line : Doc := DLineObject false false false.
Definition softline : Doc := DLineObject true false false.
Definition hardlineWithoutBreak : Doc := DLineObject false true false.
Definition literallineWithoutBreak : Doc := DLineObject false true true.
Definition hardline : Doc := DArr [hardlineWithoutBreak; DBreakParent].
Definition literalline : Doc := DArr [literallineWithoutBreak; DBreakParent].

(** Modelled from the spec: [join(separator, docs)] of
    [document/builders.js] (not among the sources): the array of [docs]
    with [separator] between each two. *)
Fixpoint join (sep : Doc) (docs : list Doc) : list Doc :=
  match docs with
  | [] => []
  | [d] => [d]
  | d :: r => d :: sep :: join sep r
  end.

(** Modelled from the spec: [replaceEndOfLine] of [document/utils.js] (not
    among the sources), applied to a string: the lines of the text, kept as
    they are, with a literal line between each two. *)
Definition replaceEndOfLine (text : string) : Doc :=
  DArr (join literalline (map DStr (Js.split_on Js.LF text))).

(** A string document other than the empty string, and every object, is
    truthy. *)
Definition truthy (d : Doc) : bool :=
  match d with
  | DStr EmptyString => false
  | _ => true
  end.

(** ** The syntax tree *)

Record Loc : Type := mkLoc { loc_start : nat; loc_end : nat }.

Record StripFlags : Type := mkStrip { open : bool; close : bool }.

Record PathData : Type :=
  mkPath { original : string; parts : list string; path_loc : Loc }.

Inductive BodyKind : Type := Template | Block | Program.

Record BodyData (N : Type) : Type :=
  mkBody { kind : BodyKind; body_loc : Loc;
           body : list N; blockParams : list string }.
Arguments mkBody {N}.
Arguments kind {N}.
Arguments body_loc {N}.
Arguments body {N}.
Arguments blockParams {N}.

Record HashPairData (N : Type) : Type :=
  mkHashPair { pair_loc : Loc; key : string; value : N }.
Arguments mkHashPair {N}.
Arguments pair_loc {N}.
Arguments key {N}.
Arguments value {N}.

Record HashData (N : Type) : Type :=
  mkHash { hash_loc : Loc; pairs : list (HashPairData N) }.
Arguments mkHash {N}.
Arguments hash_loc {N}.
Arguments pairs {N}.

(** The kinds of the printer's dispatch, in the order of its [switch]. *)
Definition dispatch_kinds : list string :=
  [ "Block"; "Program"; "Template"; "ElementNode"; "BlockStatement";
    "ElementModifierStatement"; "MustacheStatement"; "SubExpression";
    "AttrNode"; "ConcatStatement"; "Hash"; "HashPair"; "TextNode";
    "MustacheCommentStatement"; "PathExpression"; "BooleanLiteral";
    "CommentStatement"; "StringLiteral"; "NumberLiteral";
    "UndefinedLiteral"; "NullLiteral" ].

Definition in_dispatch (t : string) : bool :=
  existsb (String.eqb t) dispatch_kinds.

#[local] Unset Elimination Schemes.

(** A node carries its kind, its source span and the fields the printer
    reads.  [Body] covers the kinds [Template], [Block] and [Program];
    [void] is the flag of an element that takes no closing tag; the path of
    a block statement is a path expression; [Other t] is a node of a kind
    [t] outside the kinds of the dispatch, which is what [unlisted]
    records. *)
Inductive node : Type :=
| Body (b : BodyData node)
| ElementNode (loc : Loc) (tag : string)
    (attributes modifiers comments children : list node)
    (elementBlockParams : list string) (void : bool)
| BlockStatement (loc : Loc) (path : PathData) (params : list node)
    (hash : option (HashData node))
    (program : BodyData node) (inverse : option (BodyData node))
    (openStrip inverseStrip closeStrip : StripFlags)
| ElementModifierStatement (loc : Loc) (path : node) (params : list node)
    (hash : option (HashData node))
| MustacheStatement (loc : Loc) (path : node) (params : list node)
    (hash : option (HashData node)) (escaped : bool) (strip : StripFlags)
| SubExpression (loc : Loc) (path : node) (params : list node)
    (hash : option (HashData node))
| AttrNode (loc : Loc) (name : string) (attrValue : node)
| ConcatStatement (loc : Loc) (concatParts : list node)
| Hash (h : HashData node)
| HashPair (p : HashPairData node)
| TextNode (loc : Loc) (chars : string)
| MustacheCommentStatement (loc : Loc) (commentValue : string)
| PathExpression (p : PathData)
| BooleanLiteral (loc : Loc) (b : bool)
| CommentStatement (loc : Loc) (commentValue : string)
| StringLiteral (loc : Loc) (s : string)
| NumberLiteral (loc : Loc) (n : Js.Number)
| UndefinedLiteral (loc : Loc)
| NullLiteral (loc : Loc)
| Other (type : string) (unlisted : in_dispatch type = false) (loc : Loc).

#[local] Set Elimination Schemes.

Definition kind_name (k : BodyKind) : string :=
  match k with
  | Template => "Template"
  | Block => "Block"
  | Program => "Program"
  end.

(** [node.type] *)
Definition type_of (n : node) : string :=
  match n with
  | Body b => kind_name (kind b)
  | ElementNode _ _ _ _ _ _ _ _ => "ElementNode"
  | BlockStatement _ _ _ _ _ _ _ _ _ => "BlockStatement"
  | ElementModifierStatement _ _ _ _ => "ElementModifierStatement"
  | MustacheStatement _ _ _ _ _ _ => "MustacheStatement"
  | SubExpression _ _ _ _ => "SubExpression"
  | AttrNode _ _ _ => "AttrNode"
  | ConcatStatement _ _ => "ConcatStatement"
  | Hash _ => "Hash"
  | HashPair _ => "HashPair"
  | TextNode _ _ => "TextNode"
  | MustacheCommentStatement _ _ => "MustacheCommentStatement"
  | PathExpression _ => "PathExpression"
  | BooleanLiteral _ _ => "BooleanLiteral"
  | CommentStatement _ _ => "CommentStatement"
  | StringLiteral _ _ => "StringLiteral"
  | NumberLiteral _ _ => "NumberLiteral"
  | UndefinedLiteral _ => "UndefinedLiteral"
  | NullLiteral _ => "NullLiteral"
  | Other t _ _ => t
  end.

(** [node.loc] *)
Definition loc_of (n : node) : Loc :=
  match n with
  | Body b => body_loc b
  | ElementNode l _ _ _ _ _ _ _ => l
  | BlockStatement l _ _ _ _ _ _ _ _ => l
  | ElementModifierStatement l _ _ _ => l
  | MustacheStatement l _ _ _ _ _ => l
  | SubExpression l _ _ _ => l
  | AttrNode l _ _ => l
  | ConcatStatement l _ => l
  | Hash h => hash_loc h
  | HashPair p => pair_loc p
  | TextNode l _ => l
  | MustacheCommentStatement l _ => l
  | PathExpression p => path_loc p
  | BooleanLiteral l _ => l
  | CommentStatement l _ => l
  | StringLiteral l _ => l
  | NumberLiteral l _ => l
  | UndefinedLiteral l => l
  | NullLiteral l => l
  | Other _ _ l => l
  end.

(** Modelled from the spec: [locStart] and [locEnd] of [loc.js] (not among
    the sources): the start and end offsets of the node's source span. *)
Definition locStart (n : node) : nat := loc_start (loc_of n).
Definition locEnd (n : node) : nat := loc_end (loc_of n).

(** ** Paths through the tree *)

(** Modelled from the spec: the [path] object that the printer receives
    ([AstPath] of the formatter, not among the sources), as far as the
    printer reads it.  A path is the stack of the ancestors of the current
    node, the nearest one first; each frame holds the ancestor, the name of
    the property that was followed from it and, when that property is an
    array, the array and the index taken in it. *)
Record Frame : Type :=
  mkFrame { fr_node : node; fr_name : string;
            fr_array : option (list node * nat) }.

Definition AstPath : Type := list Frame.

(** Modelled from the spec: the paths that [path.call(print, name)] and
    [path.map(print, name)], at index [i], hand to the callback ([AstPath],
    not among the sources). *)
Definition path_call (n : node) (name : string) (path : AstPath) : AstPath :=
  mkFrame n name None :: path.
Definition path_at (n : node) (name : string) (arr : list node) (i : nat)
    (path : AstPath) : AstPath :=
  mkFrame n name (Some (arr, i)) :: path.

(** Modelled from the spec: [path.getParentNode(depth)], [path.parent] and
    [path.grandparent] ([AstPath], not among the sources): the ancestors
    of the node; [None] is [undefined]. *)
Definition getParentNode (path : AstPath) (depth : nat) : option node :=
  option_map fr_node (nth_error path depth).
Definition parent (path : AstPath) : option node := getParentNode path 0.
Definition grandparent (path : AstPath) : option node := getParentNode path 1.

(** Modelled from the spec: [path.siblings] and [path.index] ([AstPath], not
    among the sources): the array that holds the node and the index of the
    node in it, when the node was reached through an array. *)
Definition siblings (path : AstPath) : option (list node) :=
  match path with
  | f :: _ => option_map fst (fr_array f)
  | [] => None
  end.
Definition index (path : AstPath) : option nat :=
  match path with
  | f :: _ => option_map snd (fr_array f)
  | [] => None
  end.

(** Modelled from the spec: [path.isFirst], [path.isLast], [path.next] and
    [path.previous] ([AstPath], not among the sources): the place of the
    node among its siblings, and the siblings next to it. *)
Definition isFirst (path : AstPath) : bool :=
  match index path with
  | Some 0 => true
  | _ => false
  end.
Definition isLast (path : AstPath) : bool :=
  match siblings path, index path with
  | Some l, Some i => (S i =? List.length l)%nat
  | _, _ => false
  end.
Definition next (path : AstPath) : option node :=
  match siblings path, index path with
  | Some l, Some i => nth_error l (S i)
  | _, _ => None
  end.
Definition previous (path : AstPath) : option node :=
  match siblings path, index path with
  | Some l, Some (S i) => nth_error l i
  | _, _ => None
  end.

(** [x?.type === t] *)
Definition type_is (x : option node) (t : string) : bool :=
  match x with
  | Some n => String.eqb (type_of n) t
  | None => false
  end.

(** ** Options *)

Record Options : Type :=
  mkOptions { htmlWhitespaceSensitivity : string;
              singleQuote : bool;
              originalText : string }.

Definition ignoreMode (options : Options) : bool :=
  String.eqb (htmlWhitespaceSensitivity options) "ignore".

(** ** White space *)

Module htmlWhitespaceUtils.

(** Modelled from the spec: the methods of [htmlWhitespaceUtils]
    ([utils/html-whitespace-utils.js], not among the sources) that the
    printer calls.  The white space of HTML is tab, line feed, form feed,
    carriage return and space. *)
Definition is_ws (c : ascii) : bool :=
  let n := nat_of_ascii c in
  ((n =? 9) || (n =? 10) || (n =? 12) || (n =? 13) || (n =? 32))%nat.

(** Modelled from the spec: [isWhitespaceOnly] (not among the sources):
    no character of the text is other than white space. *)
Definition isWhitespaceOnly (text : string) : bool :=
  Js.all_chars is_ws text.

(** Modelled from the spec: [getLeadingWhitespace] and
    [getTrailingWhitespace] (not among the sources): the white space that
    the text starts with, and the white space that it ends with. *)
Definition getLeadingWhitespace (text : string) : string :=
  Js.take_while is_ws text.
Definition getTrailingWhitespace (text : string) : string :=
  Js.drop (String.length text - Js.count_trailing is_ws text) text.

(** Modelled from the spec: [hasLeadingWhitespace] and
    [hasTrailingWhitespace] (not among the sources): the first character,
    or the last one, is white space. *)
Definition hasLeadingWhitespace (text : string) : bool :=
  Js.first_is is_ws text.
Definition hasTrailingWhitespace (text : string) : bool :=
  Js.last_is is_ws text.

(** Modelled from the spec: [trimStart] and [trimEnd] (not among the
    sources): the text without its leading, or its trailing, white
    space. *)
Definition trimStart (text : string) : string :=
  Js.skip_while is_ws text.
Definition trimEnd (text : string) : string :=
  Js.take (String.length text - Js.count_trailing is_ws text) text.

(** Modelled from the spec: [split] (not among the sources): the words of
    the text, cut at each run of white space. *)
Definition split (text : string) : list string :=
  Js.split_runs is_ws text.

End htmlWhitespaceUtils.

(** ** The printer: text runs *)

Definition NEWLINES_TO_PRESERVE_MAX : nat := 2.

(** [countNewLines]: the argument is always a string here. *)
Definition countNewLines (s : string) : nat :=
  List.length (Js.split_on Js.LF s) - 1.

(** The first match of [/^([^\S\n\r]*[\n\r])+/g], or the empty string:
    the longest prefix made of groups of white space other than line breaks
    followed by one line break.  [pending] is the white space read since the
    last line break. *)
Fixpoint leading_breaks_from (pending s : string) : string :=
  match s with
  | EmptyString => EmptyString
  | String c r =>
      if Js.is_newline c
      then (pending ++ String c (leading_breaks_from EmptyString r))%string
      else if Js.is_inline_space c
           then leading_breaks_from (pending ++ Js.str1 c)%string r
           else EmptyString
  end.

Definition countLeadingNewLines (s : string) : nat :=
  countNewLines (leading_breaks_from EmptyString s).

(** The first match of the expression of [countTrailingNewLines] (one or
    more groups of a line break followed by white space other than line
    breaks, up to the end of the string), or the empty string: the
    leftmost suffix that starts with a line break and is white space up to
    the end. *)
Fixpoint trailing_breaks (s : string) : string :=
  match s with
  | EmptyString => EmptyString
  | String c r =>
      if Js.is_newline c && Js.all_chars Js.is_space r then s
      else trailing_breaks r
  end.

Definition countTrailingNewLines (s : string) : nat :=
  countNewLines (trailing_breaks s).

Definition generateHardlines (number : nat) : list Doc :=
  repeat hardline (Nat.min number NEWLINES_TO_PRESERVE_MAX).

Definition getTextValueParts (value : string) : list Doc :=
  join line (map DStr (htmlWhitespaceUtils.split value)).

(** [getCurrentAttributeName]: the lower-cased name of the attribute that
    holds the node, looked up in the parent and the grandparent. *)
Definition getCurrentAttributeName (path : AstPath) : option string :=
  match getParentNode path 0 with
  | Some (AttrNode _ name _) => Some (Js.toLowerCase name)
  | _ =>
      match getParentNode path 1 with
      | Some (AttrNode _ name _) => Some (Js.toLowerCase name)
      | _ => None
      end
  end.

(** The text of a [TextNode] as it is written back: a text that holds the
    opening of a mustache was escaped in the source and is escaped again, and
    the marker of a block kept as text is turned back. *)
Definition escapedText (chars : string) : string :=
  Js.replaceAll (Js.replaceAll chars "{{" "\{{") "{_{" "{{".

Definition line_if (b : bool) : Doc := if b then line else DStr "".

(** The text of a [class] attribute *)
Definition printClassText (path : AstPath) (text : string) : Doc :=
  let formattedClasses :=
    Js.join " " (Js.split_runs Js.is_space (Js.trim text)) in
  let inConcat := type_is (parent path) "ConcatStatement" in
  let leadingSpace :=
    inConcat
    && (type_is (previous path) "MustacheStatement"
        || type_is (previous path) "TextNode")
    && Js.first_is Js.is_space text in
  let trailingSpace :=
    inConcat
    && (type_is (next path) "MustacheStatement"
        || type_is (next path) "TextNode")
    && Js.last_is Js.is_space text
    && negb (String.eqb formattedClasses "") in
  DArr [line_if leadingSpace; DStr formattedClasses; line_if trailingSpace].

(** The branch [options.htmlWhitespaceSensitivity !== "ignore"] *)
Definition printTextSensitive (path : AstPath) (text : string) : Doc :=
  let shouldTrimTrailingNewlines :=
    isLast path && type_is (parent path) "Template" in
  let shouldTrimLeadingNewlines :=
    isFirst path && type_is (parent path) "Template" in
  if htmlWhitespaceUtils.isWhitespaceOnly text then
    if shouldTrimLeadingNewlines || shouldTrimTrailingNewlines then DStr ""
    else
      let newlines := countNewLines text in
      let breaks :=
        if (newlines =? 0)%nat then [line] else generateHardlines newlines in
      DArr (if isLast path then map dedent breaks else breaks)
  else
    let leadingWhitespace := htmlWhitespaceUtils.getLeadingWhitespace text in
    let '(leadBreaks, text1) :=
      if String.eqb leadingWhitespace "" then ([], text)
      else
        let leadingNewlines := countNewLines leadingWhitespace in
        (if (leadingNewlines =? 0)%nat then [line]
         else generateHardlines leadingNewlines,
         Js.drop (String.length leadingWhitespace) text) in
    let tailingWhitespace := htmlWhitespaceUtils.getTrailingWhitespace text1 in
    let '(trailBreaks, text2) :=
      if String.eqb tailingWhitespace "" then ([], text1)
      else
        (if negb shouldTrimTrailingNewlines then
           let trailingNewlines := countNewLines tailingWhitespace in
           let breaks :=
             if (trailingNewlines =? 0)%nat then [line]
             else generateHardlines trailingNewlines in
           if isLast path then map dedent breaks else breaks
         else [],
         Js.take (String.length text1 - String.length tailingWhitespace)
           text1) in
    DArr (leadBreaks ++ [fill (getTextValueParts text2)] ++ trailBreaks).

(** The branch [options.htmlWhitespaceSensitivity === "ignore"] *)
Definition printTextIgnore (path : AstPath) (text : string) : Doc :=
  let isWhitespaceOnly := htmlWhitespaceUtils.isWhitespaceOnly text in
  let lineBreaksCount := countNewLines text in
  if (isFirst path || isLast path) && isWhitespaceOnly
     && (type_is (parent path) "Block"
         || type_is (parent path) "ElementNode"
         || type_is (parent path) "Template")
  then DStr ""
  else
    let '(leadingLineBreaksCount, trailingLineBreaksCount) :=
      if isWhitespaceOnly && negb (lineBreaksCount =? 0)%nat
      then (Nat.min lineBreaksCount NEWLINES_TO_PRESERVE_MAX, 0)
      else
        (if type_is (previous path) "BlockStatement"
            || type_is (previous path) "ElementNode"
         then Nat.max (countLeadingNewLines text) 1
         else countLeadingNewLines text,
         if type_is (next path) "BlockStatement"
            || type_is (next path) "ElementNode"
         then Nat.max (countTrailingNewLines text) 1
         else countTrailingNewLines text) in
    let trailingSpace :=
      if (trailingLineBreaksCount =? 0)%nat
         && type_is (next path) "MustacheStatement"
      then " " else "" in
    let leadingSpace :=
      if (leadingLineBreaksCount =? 0)%nat
         && type_is (previous path) "MustacheStatement"
      then " " else "" in
    let '(leadingLineBreaksCount, leadingSpace) :=
      if isFirst path then (0, "")
      else (leadingLineBreaksCount, leadingSpace) in
    let '(trailingLineBreaksCount, trailingSpace) :=
      if isLast path then (0, "")
      else (trailingLineBreaksCount, trailingSpace) in
    let text1 :=
      if htmlWhitespaceUtils.hasLeadingWhitespace text
      then (leadingSpace ++ htmlWhitespaceUtils.trimStart text)%string
      else text in
    let text2 :=
      if htmlWhitespaceUtils.hasTrailingWhitespace text1
      then (htmlWhitespaceUtils.trimEnd text1 ++ trailingSpace)%string
      else text1 in
    DArr (generateHardlines leadingLineBreaksCount
          ++ [fill (getTextValueParts text2)]
          ++ generateHardlines trailingLineBreaksCount).

(** The case [TextNode] of [print] *)
Definition printTextNode (options : Options) (path : AstPath)
    (chars : string) : Doc :=
  let text := escapedText chars in
  match getCurrentAttributeName path with
  | Some (String c r as attrName) =>
      if String.eqb attrName "class" then printClassText path text
      else replaceEndOfLine text
  | _ =>
      if negb (ignoreMode options) then printTextSensitive path text
      else printTextIgnore path text
  end.

(** ** The printer: results and effects

    [print] throws on a node of a kind it does not list, and
    [printCloseBlock] assigns to fields of the node it prints.  In the
    model a call of [print] returns either the error thrown or the document
    together with the node as the call leaves it.  The ancestors recorded
    in a path are read for their kind, their name and their block path
    only, which no call changes before it has printed the descendants. *)

Inductive PrintError : Type :=
| UnexpectedNodeError (type language : string).

Inductive Result (A : Type) : Type :=
| Ok (a : A)
| Err (e : PrintError).
Arguments Ok {A}.
Arguments Err {A}.

Definition bind {A B : Type} (r : Result A) (f : A -> Result B) : Result B :=
  match r with
  | Ok a => f a
  | Err e => Err e
  end.

Notation "x <- c ;; k" := (bind c (fun x => k))
  (at level 61, c at next level, right associativity).
Notation "' pat <- c ;; k" := (bind c (fun x => match x with pat => k end))
  (at level 61, pat pattern, c at next level, right associativity).

Section MapM.
Context {A B : Type} (f : nat -> A -> Result B).

(** [f] on each element with its index, from left to right; the first
    error ends the loop. *)
Fixpoint mapM_from (i : nat) (l : list A) : Result (list B) :=
  match l with
  | [] => Ok []
  | x :: r =>
      y <- f i x ;;
      ys <- mapM_from (S i) r ;;
      Ok (y :: ys)
  end.
End MapM.

Definition Printed : Type := (Doc * node)%type.
Definition Callback : Type := AstPath -> node -> Result Printed.

(** ** The printer: helpers that do not recurse *)

(** Modelled from the spec: [isNonEmptyArray] (not among the sources). *)
Definition isNonEmptyArray {A : Type} (l : list A) : bool :=
  negb (List.length l =? 0)%nat.

(** Modelled from the spec: [isWhitespaceNode] of [utils.js] (not among the
    sources): a text run made of white space only. *)
Definition isWhitespaceNode (n : node) : bool :=
  match n with
  | TextNode _ chars => Js.all_chars Js.is_space chars
  | _ => false
  end.

(** Modelled from the spec: [isVoidElement] of [utils.js] (not among the
    sources): the flag of the element that marks a self-closing or void
    tag. *)
Definition isVoidElement (n : node) : bool :=
  match n with
  | ElementNode _ _ _ _ _ _ _ void => void
  | _ => false
  end.

Fixpoint count_char (c : ascii) (s : string) : nat :=
  match s with
  | EmptyString => 0
  | String d r => (if Ascii.eqb d c then 1 else 0) + count_char c r
  end.

Definition double_quote : ascii := Js.chr 34.
Definition single_quote : ascii := Js.chr 39.

(** Modelled from the spec: [getPreferredQuote] of
    [utils/get-preferred-quote.js] (not among the sources): the quote that
    occurs less often in the text, and the preferred one when both occur
    equally often. *)
Definition getPreferredQuote (text : string) (preferSingleQuote : bool)
    : string :=
  let preferred := if preferSingleQuote then single_quote else double_quote in
  let alternate := if preferSingleQuote then double_quote else single_quote in
  if (count_char alternate text <? count_char preferred text)%nat
  then Js.str1 alternate
  else Js.str1 preferred.

Definition tilde_if (b : bool) : Doc := DStr (if b then "~" else "").

(** [printOpeningMustache] and [printClosingMustache]: a block has neither
    [escaped] nor [strip]. *)
Definition printOpeningMustache (escaped : option bool)
    (strip : option StripFlags) : Doc :=
  let mustache :=
    match escaped with
    | Some false => "{{{"
    | _ => "{{"
    end in
  let strip :=
    match strip with
    | Some f => tilde_if (open f)
    | None => DStr ""
    end in
  DArr [DStr mustache; strip].

Definition printClosingMustache (escaped : option bool)
    (strip : option StripFlags) : Doc :=
  let mustache :=
    match escaped with
    | Some false => "}}}"
    | _ => "}}"
    end in
  let strip :=
    match strip with
    | Some f => tilde_if (close f)
    | None => DStr ""
    end in
  DArr [strip; DStr mustache].

Definition printOpeningBlockOpeningMustache (openStrip : StripFlags) : Doc :=
  DArr [printOpeningMustache None None; tilde_if (open openStrip); DStr "#"].
Definition printOpeningBlockClosingMustache (openStrip : StripFlags) : Doc :=
  DArr [tilde_if (close openStrip); printClosingMustache None None].
Definition printClosingBlockOpeningMustache (closeStrip : StripFlags) : Doc :=
  DArr [printOpeningMustache None None; tilde_if (open closeStrip); DStr "/"].
Definition printClosingBlockClosingMustache (closeStrip : StripFlags) : Doc :=
  DArr [tilde_if (close closeStrip); printClosingMustache None None].
Definition printInverseBlockOpeningMustache (inverseStrip : StripFlags)
    : Doc :=
  DArr [printOpeningMustache None None; tilde_if (open inverseStrip)].
Definition printInverseBlockClosingMustache (inverseStrip : StripFlags)
    : Doc :=
  DArr [tilde_if (close inverseStrip); printClosingMustache None None].

Definition printBlockParams (blockParams : list string) : Doc :=
  DArr [DStr "as |"; DStr (Js.join " " blockParams); DStr "|"].

Definition printStartingTagEndMarker : Doc :=
  ifBreak (DArr [softline; DStr ">"]) (DStr ">").

Definition printElseBlock (inverseStrip : StripFlags) (options : Options)
    : Doc :=
  DArr [ if ignoreMode options then hardline else DStr "";
         printInverseBlockOpeningMustache inverseStrip;
         DStr "else";
         printInverseBlockClosingMustache inverseStrip ].

(** The case [PathExpression]: the spelling of the source. *)
Definition printPathExpression (p : PathData) : Doc := DStr (original p).

Definition printStringLiteral (value : string) : Doc :=
  let quote := getPreferredQuote value true in
  DArr [ DStr quote;
         DStr (Js.replaceAll value quote ("\" ++ quote)%string);
         DStr quote ].

(** [String(value)] of a number literal *)
Definition string_of_number (value : Js.Number) : string :=
  Js.String_of_number value.

(** The case [MustacheCommentStatement] *)
Definition printMustacheComment (options : Options) (loc : Loc)
    (value : string) : Doc :=
  let uncomment :=
    Js.startsWith value "__uncomment__" && Js.endsWith value "__uncomment__" in
  if uncomment then DArr [DStr (Js.replaceAll value "__uncomment__" "")]
  else
    let isLeftWhiteSpaceSensitive :=
      Js.charAt_is (originalText options) (loc_start loc + 2) "~" in
    let isRightWhitespaceSensitive :=
      (3 <=? loc_end loc)%nat
      && Js.charAt_is (originalText options) (loc_end loc - 3) "~" in
    let dashes := if Js.includes value "}}" then "--" else "" in
    DArr [ DStr "{{"; tilde_if isLeftWhiteSpaceSensitive; DStr "!";
           DStr dashes; DStr value; DStr dashes;
           tilde_if isRightWhitespaceSensitive; DStr "}}" ].

(** [x.path.parts[0]] of a block statement; [None] is [undefined]. *)
Definition first_part (p : PathData) : option string := hd_error (parts p).

Definition option_string_eqb (a b : option string) : bool :=
  match a, b with
  | Some x, Some y => String.eqb x y
  | None, None => true
  | _, _ => false
  end.

Definition part_doc (s : option string) : Doc :=
  match s with
  | Some x => DStr x
  | None => DOpaque "undefined"
  end.

(** [isElseIfLike].  The test [grandparent.inverse.body[0] === node]
    compares objects: in a tree it holds exactly when the path reached the
    node through [inverse] and then [body] at index 0. *)
Definition isElseIfLike (path : AstPath) (n : node) : bool :=
  match n, path with
  | BlockStatement _ p _ _ _ _ _ _ _,
    f0 :: f1 :: _ =>
      match fr_node f1 with
      | BlockStatement _ gp _ _ _ (Some inv) _ _ _ =>
          (List.length (body inv) =? 1)%nat
          && (String.eqb (fr_name f1) "inverse"
              && String.eqb (fr_name f0) "body"
              && match fr_array f0 with
                 | Some (_, 0) => true
                 | _ => false
                 end)
          && option_string_eqb (first_part p) (first_part gp)
      | _ => false
      end
  | _, _ => false
  end.

Definition blockStatementHasOnlyWhitespaceInProgram
    (program : BodyData node) : bool :=
  forallb isWhitespaceNode (body program).

Definition blockStatementHasElse (inverse : option (BodyData node)) : bool :=
  match inverse with
  | Some _ => true
  | None => false
  end.

Definition blockStatementHasElseIfLike (p : PathData)
    (inverse : option (BodyData node)) : bool :=
  match inverse with
  | Some inv =>
      match body inv with
      | [BlockStatement _ q _ _ _ _ _ _ _] =>
          option_string_eqb (first_part q) (first_part p)
      | _ => false
      end
  | None => false
  end.

(** [grandparent.inverseStrip], read by [printElseIfLikeBlock] after
    [isElseIfLike] has found the grandparent to be a block statement. *)
Definition grandparent_inverseStrip (path : AstPath) : StripFlags :=
  match grandparent path with
  | Some (BlockStatement _ _ _ _ _ _ _ inverseStrip _) => inverseStrip
  | _ => mkStrip false false
  end.

(** ** The starting tag of an element *)

Definition sortByLoc (a b : node) : Z :=
  Z.of_nat (locStart a) - Z.of_nat (locStart b).

(** An entry of the array [attributes] of [printStartingTag]: a node, told
    from the other nodes by the list it comes from and its index there, or
    the document that replaced it. *)
Inductive TagEntry : Type :=
| EntryNode (prop : string) (i : nat) (n : node)
| EntryDoc (d : Doc).

Definition compare_entries (a b : TagEntry) : Z :=
  match a, b with
  | EntryNode _ _ x, EntryNode _ _ y => sortByLoc x y
  | _, _ => 0%Z
  end.

(** [Array.prototype.sort] is stable: an element goes before the first
    element that the comparison function does not put before it. *)
Fixpoint sort_insert (x : TagEntry) (l : list TagEntry) : list TagEntry :=
  match l with
  | [] => [x]
  | y :: r =>
      if (compare_entries x y <=? 0)%Z then x :: y :: r
      else y :: sort_insert x r
  end.

Fixpoint sort (l : list TagEntry) : list TagEntry :=
  match l with
  | [] => []
  | x :: r => sort_insert x (sort r)
  end.

Fixpoint tag_from (prop : string) (i : nat) (l : list node) : list TagEntry :=
  match l with
  | [] => []
  | n :: r => EntryNode prop i n :: tag_from prop (S i) r
  end.

Definition is_object (prop : string) (i : nat) (e : TagEntry) : bool :=
  match e with
  | EntryNode q j _ => String.eqb q prop && (i =? j)%nat
  | EntryDoc _ => false
  end.

(** [attributes.indexOf(node)]; [None] is [-1]. *)
Fixpoint indexOf (prop : string) (i : nat) (l : list TagEntry) : option nat :=
  match l with
  | [] => None
  | e :: r =>
      if is_object prop i e then Some 0
      else option_map S (indexOf prop i r)
  end.

Fixpoint replace_at (k : nat) (x : TagEntry) (l : list TagEntry)
    : list TagEntry :=
  match l, k with
  | [], _ => []
  | _ :: r, 0 => x :: r
  | e :: r, S j => e :: replace_at j x r
  end.

(** [attributes.splice(index, 1, x)]; the index [-1] is the last element,
    and in an empty array the new element is inserted. *)
Definition splice1 (index : option nat) (x : TagEntry) (l : list TagEntry)
    : list TagEntry :=
  match index with
  | Some k => replace_at k x l
  | None =>
      match l with
      | [] => [x]
      | _ => replace_at (List.length l - 1) x l
      end
  end.

(** The loop [path.each] of [printStartingTag] over one of the three
    lists, with the documents that [print] returned for its nodes. *)
Fixpoint replace_printed (prop : string) (i : nat) (docs : list Doc)
    (attributes : list TagEntry) : list TagEntry :=
  match docs with
  | [] => attributes
  | d :: r =>
      let index := indexOf prop i attributes in
      replace_printed prop (S i) r
        (splice1 index (EntryDoc (DArr [line; d])) attributes)
  end.

Definition entry_doc (e : TagEntry) : Doc :=
  match e with
  | EntryDoc d => d
  | EntryNode _ _ n => DOpaque (type_of n)
  end.

(** The array [attributes] once sorted. *)
Definition sortedTagEntries (attributes modifiers comments : list node)
    : list TagEntry :=
  sort (tag_from "attributes" 0 attributes
        ++ tag_from "modifiers" 0 modifiers
        ++ tag_from "comments" 0 comments).

(** The array [attributes] at the end of [printStartingTag], from the
    documents of the three lists. *)
Definition startingTagEntries (attributes modifiers comments : list node)
    (attributeDocs modifierDocs commentDocs : list Doc)
    (blockParams : list string) : list TagEntry :=
  let sorted := sortedTagEntries attributes modifiers comments in
  let replaced :=
    replace_printed "comments" 0 commentDocs
      (replace_printed "modifiers" 0 modifierDocs
         (replace_printed "attributes" 0 attributeDocs sorted)) in
  if isNonEmptyArray blockParams
  then replaced ++ [EntryDoc line; EntryDoc (printBlockParams blockParams)]
  else replaced.

(** ** The printer: helpers that recurse through the callback [print]

    The callback is the printer itself on the path of a child.  (The main
    loop of the formatter, which stands between the two, is not among the
    sources: its cache of printed nodes returns what the printer returned,
    and for an absent child it returns the empty string.) *)

Section WithPrint.
Variable options : Options.
Variable print : Callback.

(** [path.map(print, name)] on the array [arr] of the node [owner] *)
Definition printArray (owner : node) (name : string) (arr : list node)
    (path : AstPath) : Result (list Printed) :=
  mapM_from (fun i child => print (path_at owner name arr i path) child)
    0 arr.

(** The case [HashPair] *)
Definition printHashPair (path : AstPath) (p : HashPairData node)
    : Result (Doc * HashPairData node) :=
  '(valueDoc, value') <-
    print (path_call (HashPair p) "value" path) (value p) ;;
  Ok (DArr [DStr (key p); DStr "="; valueDoc],
      mkHashPair (pair_loc p) (key p) value').

(** The case [Hash] *)
Definition printHash (path : AstPath) (h : HashData node)
    : Result (Doc * HashData node) :=
  let arr := map HashPair (pairs h) in
  printed <- mapM_from
               (fun i p =>
                  printHashPair (path_at (Hash h) "pairs" arr i path) p)
               0 (pairs h) ;;
  Ok (DArr (join line (map fst printed)),
      mkHash (hash_loc h) (map snd printed)).

(** The cases [Block], [Program] and [Template] *)
Definition printBody (path : AstPath) (b : BodyData node)
    : Result (Doc * BodyData node) :=
  printed <- printArray (Body b) "body" (body b) path ;;
  let contents := map fst printed in
  let contents :=
    match kind b with
    | Template => contents ++ [DLineObject false true false]
    | _ => contents
    end in
  Ok (group (DArr contents),
      mkBody (kind b) (body_loc b) (map snd printed) (blockParams b)).

(** [printParams]: the document, and the parameters and the hash as the
    calls leave them. *)
Definition printParams (owner : node) (path : AstPath)
    (params : list node) (hash : option (HashData node))
    : Result (Doc * list node * option (HashData node)) :=
  printed <- printArray owner "params" params path ;;
  '(hashDocs, hash') <-
    match hash with
    | Some h =>
        if (0 <? List.length (pairs h))%nat then
          '(d, h') <- printHash (path_call owner "hash" path) h ;;
          Ok ([d], Some h')
        else Ok ([], hash)
    | None => Ok ([], hash)
    end ;;
  let parts := map fst printed ++ hashDocs in
  Ok (if (List.length parts =? 0)%nat then DStr ""
      else DArr (join line parts),
      map snd printed, hash').

Definition printPath (owner : node) (path : AstPath) (p : node)
    : Result Printed :=
  print (path_call owner "path" path) p.

Definition printPathAndParams (owner : node) (path : AstPath)
    (p : node) (params : list node) (hash : option (HashData node))
    : Result (Doc * node * list node * option (HashData node)) :=
  '(pathDoc, p') <- printPath owner path p ;;
  '(paramsDoc, params', hash') <- printParams owner path params hash ;;
  Ok (if negb (truthy paramsDoc) then pathDoc
      else DArr [indent (DArr [pathDoc; line; paramsDoc]); softline],
      p', params', hash').

Definition printSubExpressionPathAndParams (owner : node) (path : AstPath)
    (p : node) (params : list node) (hash : option (HashData node))
    : Result (Doc * node * list node * option (HashData node)) :=
  '(printed, p') <- printPath owner path p ;;
  '(paramsDoc, params', hash') <- printParams owner path params hash ;;
  Ok (if negb (truthy paramsDoc) then printed
      else indent (DArr [printed; line; group paramsDoc]),
      p', params', hash').

(** [printOpenBlock] *)
Definition printOpenBlock (owner : node) (path : AstPath) (p : PathData)
    (params : list node) (hash : option (HashData node))
    (program : BodyData node) (openStrip : StripFlags)
    : Result (Doc * list node * option (HashData node)) :=
  '(paramsDoc, params', hash') <- printParams owner path params hash ;;
  let parts :=
    (if truthy paramsDoc then [group paramsDoc] else [])
    ++ (if isNonEmptyArray (blockParams program)
        then [printBlockParams (blockParams program)] else []) in
  Ok (group (DArr [ printOpeningBlockOpeningMustache openStrip;
                    printPathExpression p;
                    if (0 <? List.length parts)%nat
                    then indent (DArr [line; DArr (join line parts)])
                    else DStr "";
                    softline;
                    printOpeningBlockClosingMustache openStrip ]),
      params', hash').

(** [printElseIfLikeBlock] *)
Definition printElseIfLikeBlock (owner : node) (path : AstPath)
    (p : PathData) (params : list node) (hash : option (HashData node))
    (program : BodyData node)
    : Result (Doc * list node * option (HashData node)) :=
  let inverseStrip := grandparent_inverseStrip path in
  '(paramsDoc, params', hash') <- printParams owner path params hash ;;
  Ok (group (DArr [ printInverseBlockOpeningMustache inverseStrip;
                    DArr [DStr "else"; DStr " "; part_doc (first_part p)];
                    indent (DArr ([line; group paramsDoc]
                                  ++ if isNonEmptyArray (blockParams program)
                                     then [line; printBlockParams
                                                   (blockParams program)]
                                     else []));
                    softline;
                    printInverseBlockClosingMustache inverseStrip ]),
      params', hash').

(** [printProgram] *)
Definition printProgram (owner : node) (path : AstPath)
    (program : BodyData node) : Result (Doc * BodyData node) :=
  if blockStatementHasOnlyWhitespaceInProgram program
  then Ok (DStr "", program)
  else
    '(programDoc, program') <-
      printBody (path_call owner "program" path) program ;;
    Ok (if ignoreMode options then indent (DArr [hardline; programDoc])
        else indent programDoc,
        program').

(** [printInverse].  The tests on the inverse come after it is printed, and
    read it as the printing has left it. *)
Definition printInverse (owner : node) (path : AstPath) (p : PathData)
    (inverse : option (BodyData node)) (inverseStrip : StripFlags)
    : Result (Doc * option (BodyData node)) :=
  '(inverseDoc, inverse') <-
    match inverse with
    | Some inv =>
        '(d, inv') <- printBody (path_call owner "inverse" path) inv ;;
        Ok (d, Some inv')
    | None => Ok (DStr "", None)
    end ;;
  let printed :=
    if ignoreMode options then DArr [hardline; inverseDoc]
    else inverseDoc in
  Ok (if blockStatementHasElseIfLike p inverse' then printed
      else if blockStatementHasElse inverse'
           then DArr [printElseBlock inverseStrip options; indent printed]
           else DStr "",
      inverse').

(** [printCloseBlock]: the document, and [node.path] as the call leaves
    it. *)
Definition printCloseBlock (p : PathData) (program : BodyData node)
    (closeStrip : StripFlags) : Doc * PathData :=
  let p' :=
    if Js.startsWith (original p) "> " then
      let original' := Js.replaceAll (original p) "> " "" in
      mkPath original' [original'] (path_loc p)
    else p in
  let closing :=
    [ printClosingBlockOpeningMustache closeStrip;
      printPathExpression p';
      printClosingBlockClosingMustache closeStrip ] in
  (if ignoreMode options then
     let escape :=
       if blockStatementHasOnlyWhitespaceInProgram program
       then softline else hardline in
     DArr (escape :: closing)
   else DArr closing,
   p').

(** [printChildren] *)
Definition printChildren (owner : node) (path : AstPath)
    (children : list node) : Result (Doc * list node) :=
  let isEmpty := forallb isWhitespaceNode children in
  if ignoreMode options && isEmpty then Ok (DStr "", children)
  else
    printed <-
      mapM_from
        (fun i child =>
           let childPath := path_at owner "children" children i path in
           '(printedChild, child') <- print childPath child ;;
           Ok (if isFirst childPath && ignoreMode options
               then DArr [softline; printedChild]
               else printedChild,
               child'))
        0 children ;;
    Ok (DArr (map fst printed), map snd printed).

(** [printStartingTag].  Only the lists that are not empty are merged and
    walked in the source; an empty list adds nothing to either step. *)
Definition printStartingTag (owner : node) (path : AstPath) (tag : string)
    (attributes modifiers comments : list node) (blockParams : list string)
    : Result (Doc * list node * list node * list node) :=
  attributes' <- printArray owner "attributes" attributes path ;;
  modifiers' <- printArray owner "modifiers" modifiers path ;;
  comments' <- printArray owner "comments" comments path ;;
  let entries :=
    startingTagEntries attributes modifiers comments
      (map fst attributes') (map fst modifiers') (map fst comments')
      blockParams in
  Ok (DArr [ DStr "<"; DStr tag; indent (DArr (map entry_doc entries));
             printStartingTagEndMarker ],
      map snd attributes', map snd modifiers', map snd comments').

(** The case [ElementNode] *)
Definition printElementNode (owner : node) (path : AstPath) (loc : Loc)
    (tag : string) (attributes modifiers comments children : list node)
    (blockParams : list string) (void : bool) : Result Printed :=
  '(startingTagDoc, attributes', modifiers', comments') <-
    printStartingTag owner path tag attributes modifiers comments
      blockParams ;;
  let startingTag := group startingTagDoc in
  let rebuilt children' :=
    ElementNode loc tag attributes' modifiers' comments' children'
      blockParams void in
  let escapeNextElementNode :=
    if ignoreMode options && type_is (next path) "ElementNode"
    then softline else DStr "" in
  if isVoidElement owner then
    Ok (DArr [startingTag; escapeNextElementNode], rebuilt children)
  else
    let endingTag := DArr [DStr "</"; DStr tag; DStr ">"] in
    if (List.length children =? 0)%nat then
      Ok (DArr [startingTag; indent endingTag; escapeNextElementNode],
          rebuilt children)
    else if ignoreMode options then
      '(childrenDoc, children') <- printChildren owner path children ;;
      Ok (DArr [ startingTag; indent childrenDoc; hardline;
                 indent endingTag; escapeNextElementNode ],
          rebuilt children')
    else
      '(childrenDoc, children') <- printChildren owner path children ;;
      Ok (DArr [ startingTag; indent (group childrenDoc);
                 indent endingTag; escapeNextElementNode ],
          rebuilt children').

(** The case [BlockStatement] *)
Definition printBlockStatement (owner : node) (path : AstPath) (loc : Loc)
    (p : PathData) (params : list node) (hash : option (HashData node))
    (program : BodyData node) (inverse : option (BodyData node))
    (openStrip inverseStrip closeStrip : StripFlags) : Result Printed :=
  if isElseIfLike path owner then
    '(elseIfDoc, params', hash') <-
      printElseIfLikeBlock owner path p params hash program ;;
    '(programDoc, program') <- printProgram owner path program ;;
    '(inverseDoc, inverse') <-
      printInverse owner path p inverse inverseStrip ;;
    Ok (DArr [elseIfDoc; programDoc; inverseDoc],
        BlockStatement loc p params' hash' program' inverse'
          openStrip inverseStrip closeStrip)
  else
    '(openDoc, params', hash') <-
      printOpenBlock owner path p params hash program openStrip ;;
    '(programDoc, program') <- printProgram owner path program ;;
    '(inverseDoc, inverse') <-
      printInverse owner path p inverse inverseStrip ;;
    let '(closeDoc, p') := printCloseBlock p program closeStrip in
    Ok (DArr [openDoc; group (DArr [programDoc; inverseDoc; closeDoc])],
        BlockStatement loc p' params' hash' program' inverse'
          openStrip inverseStrip closeStrip).

(** The case [AttrNode] *)
Definition printAttrNode (owner : node) (path : AstPath) (loc : Loc)
    (name : string) (value : node) : Result Printed :=
  let isEmptyText :=
    match value with
    | TextNode _ chars => String.eqb chars ""
    | _ => false
    end in
  if isEmptyText && (locStart value =? locEnd value)%nat
  then Ok (DStr name, owner)
  else
    let quote :=
      match value with
      | TextNode _ chars => getPreferredQuote chars (singleQuote options)
      | ConcatStatement _ parts =>
          getPreferredQuote
            (Js.join ""
               (map (fun part =>
                       match part with
                       | TextNode _ chars => chars
                       | _ => ""
                       end) parts))
            (singleQuote options)
      | _ => ""
      end in
    '(valueDoc, value') <- print (path_call owner "value" path) value ;;
    Ok (DArr [ DStr name; DStr "="; DStr quote;
               if String.eqb name "class" && negb (String.eqb quote "")
               then group (indent valueDoc) else valueDoc;
               DStr quote ],
        AttrNode loc name value').

End WithPrint.

(** ** The printer *)

Fixpoint print (options : Options) (path : AstPath) (n : node) {struct n}
    : Result Printed :=
  match n with
  | Body b =>
      '(d, b') <- printBody (print options) path b ;;
      Ok (d, Body b')
  | ElementNode loc tag attributes modifiers comments children
      blockParams void =>
      printElementNode options (print options) n path loc tag attributes
        modifiers comments children blockParams void
  | BlockStatement loc p params hash program inverse
      openStrip inverseStrip closeStrip =>
      printBlockStatement options (print options) n path loc p params hash
        program inverse openStrip inverseStrip closeStrip
  | ElementModifierStatement loc p params hash =>
      '(d, p', params', hash') <-
        printPathAndParams (print options) n path p params hash ;;
      Ok (group (DArr [DStr "{{"; d; DStr "}}"]),
          ElementModifierStatement loc p' params' hash')
  | MustacheStatement loc p params hash escaped strip =>
      '(d, p', params', hash') <-
        printPathAndParams (print options) n path p params hash ;;
      Ok (group (DArr [ printOpeningMustache (Some escaped) (Some strip); d;
                        printClosingMustache (Some escaped) (Some strip) ]),
          MustacheStatement loc p' params' hash' escaped strip)
  | SubExpression loc p params hash =>
      '(d, p', params', hash') <-
        printSubExpressionPathAndParams (print options) n path p params
          hash ;;
      Ok (group (DArr [DStr "("; d; softline; DStr ")"]),
          SubExpression loc p' params' hash')
  | AttrNode loc name value =>
      printAttrNode options (print options) n path loc name value
  | ConcatStatement loc parts =>
      printed <- printArray (print options) n "parts" parts path ;;
      Ok (DArr (map fst printed), ConcatStatement loc (map snd printed))
  | Hash h =>
      '(d, h') <- printHash (print options) path h ;;
      Ok (d, Hash h')
  | HashPair p =>
      '(d, p') <- printHashPair (print options) path p ;;
      Ok (d, HashPair p')
  | TextNode _ chars => Ok (printTextNode options path chars, n)
  | MustacheCommentStatement loc value =>
      Ok (printMustacheComment options loc value, n)
  | PathExpression p => Ok (printPathExpression p, n)
  | BooleanLiteral _ b => Ok (DStr (if b then "true" else "false"), n)
  | CommentStatement _ value =>
      Ok (DArr [DStr "<!--"; DStr value; DStr "-->"], n)
  | StringLiteral _ value => Ok (printStringLiteral value, n)
  | NumberLiteral _ value => Ok (DStr (string_of_number value), n)
  | UndefinedLiteral _ => Ok (DStr "undefined", n)
  | NullLiteral _ => Ok (DStr "null", n)
  | Other type _ _ => Err (UnexpectedNodeError type "Handlebars")
  end.

(** ** The path checks of the patched parser

    The hunk of [patches/@glimmer+syntax+0.85.13.patch] on the
    [PathExpression] visitor: the checks made on the spelling of a path
    before its parts are taken.  The result is the syntax error thrown, or
    the parts when the shown branch sets them; [None] stands for the
    branches that follow the hunk. *)

Inductive PathSyntaxError : Type :=
| DotSlashNotSupported   (* Using "./" is not supported in Glimmer *)
| DotNotSupported.       (* '.' is not a supported path in Glimmer *)

Definition patchedPathParts (original : string) (parts : list string)
    : PathSyntaxError + option (list string) :=
  if Js.includes original "/" then
    if String.eqb (Js.take 2 original) "./"
    then inl DotSlashNotSupported
    else
      (* the tests for a leading "../" and for a "." no longer throw *)
      inr (Some [Js.join "/" parts])
  else if String.eqb original "."
       then inl DotNotSupported
       else inr None.

(** ** Predicates on trees *)

Definition hash_values (hash : option (HashData node)) : list node :=
  match hash with
  | Some h => map value (pairs h)
  | None => []
  end.

Definition inverse_body (inverse : option (BodyData node)) : list node :=
  match inverse with
  | Some inv => body inv
  | None => []
  end.

(** The nodes right below a node *)
Definition children_of (n : node) : list node :=
  match n with
  | Body b => body b
  | ElementNode _ _ attributes modifiers comments children _ _ =>
      attributes ++ modifiers ++ comments ++ children
  | BlockStatement _ _ params hash program inverse _ _ _ =>
      params ++ hash_values hash ++ body program ++ inverse_body inverse
  | ElementModifierStatement _ p params hash
  | MustacheStatement _ p params hash _ _
  | SubExpression _ p params hash =>
      p :: params ++ hash_values hash
  | AttrNode _ _ value => [value]
  | ConcatStatement _ parts => parts
  | Hash h => map value (pairs h)
  | HashPair p => [value p]
  | _ => []
  end.

Section AllNodes.
Variable own : node -> bool.

(** [own] holds of the node and of every node below it. *)
Fixpoint all_nodes (n : node) : bool :=
  own n &&
  let all_hash hash :=
    match hash with
    | Some h => forallb (fun p => all_nodes (value p)) (pairs h)
    | None => true
    end in
  match n with
  | Body b => forallb all_nodes (body b)
  | ElementNode _ _ attributes modifiers comments children _ _ =>
      forallb all_nodes attributes && forallb all_nodes modifiers
      && forallb all_nodes comments && forallb all_nodes children
  | BlockStatement _ _ params hash program inverse _ _ _ =>
      forallb all_nodes params && all_hash hash
      && forallb all_nodes (body program)
      && match inverse with
         | Some inv => forallb all_nodes (body inv)
         | None => true
         end
  | ElementModifierStatement _ p params hash
  | MustacheStatement _ p params hash _ _
  | SubExpression _ p params hash =>
      all_nodes p && forallb all_nodes params && all_hash hash
  | AttrNode _ _ value => all_nodes value
  | ConcatStatement _ parts => forallb all_nodes parts
  | Hash h => forallb (fun p => all_nodes (value p)) (pairs h)
  | HashPair p => all_nodes (value p)
  | _ => true
  end.
End AllNodes.

(** Every node of the tree is of a kind that the printer lists. *)
Definition closed : node -> bool :=
  all_nodes (fun n => match n with
                      | Other _ _ _ => false
                      | _ => true
                      end).

(** No block statement of the tree has a path that starts with the marker
    of a partial block. *)
Definition no_partial_marker : node -> bool :=
  all_nodes (fun n => match n with
                      | BlockStatement _ p _ _ _ _ _ _ _ =>
                          negb (Js.startsWith (original p) "> ")
                      | _ => true
                      end).

(** ** The text of a document laid out flat *)

(** Modelled from the spec: the layout renderer (not among the sources;
    section 2 of the specification) on a document none of whose breakable
    lines has to break: a string is written as it is, a [line] is one
    space, a [softline] is nothing, a forced line is one line feed, and of
    [ifBreak] the flat contents are taken. *)
Fixpoint render_flat (d : Doc) : string :=
  let fix render_all (l : list Doc) : string :=
    match l with
    | [] => EmptyString
    | x :: r => (render_flat x ++ render_all r)%string
    end in
  match d with
  | DStr s => s
  | DArr l => render_all l
  | DGroup c | DIndent c | DDedent c => render_flat c
  | DFill l => render_all l
  | DIfBreak _ f => render_flat f
  | DLineObject soft hard _ =>
      if hard then Js.str1 Js.LF else if soft then "" else " "
  | DBreakParent => ""
  | DOpaque what => what
  end.

(** The blank lines of a text: the empty lines among those that a line feed
    ends. *)
Definition blank_lines (s : string) : nat :=
  List.length (filter (String.eqb "") (removelast (Js.split_on Js.LF s))).

(** ** Shapes of the document of a text run *)

Definition is_hard_break (d : Doc) : bool :=
  match d with
  | DArr [DLineObject false true false; DBreakParent] => true
  | DDedent (DArr [DLineObject false true false; DBreakParent]) => true
  | _ => false
  end.

Fixpoint count_leading (p : Doc -> bool) (l : list Doc) : nat :=
  match l with
  | [] => 0
  | d :: r => if p d then S (count_leading p r) else 0
  end.

(** The forced breaks at the start and at the end of the document of a text
    run. *)
Definition leading_hardlines (d : Doc) : nat :=
  match d with
  | DArr l => count_leading is_hard_break l
  | _ => 0
  end.
Definition trailing_hardlines (d : Doc) : nat :=
  match d with
  | DArr l => count_leading is_hard_break (rev l)
  | _ => 0
  end.



(** The text that [print] scans for the quotes of an attribute value. *)
Definition quoted_text (value : node) : option string :=
  match value with
  | TextNode _ chars => Some chars
  | ConcatStatement _ parts =>
      Some (Js.join ""
              (map (fun part => match part with
                                | TextNode _ chars => chars
                                | _ => ""
                                end) parts))
  | _ => None
  end.

(** The attribute has no value in the source. *)
Definition valueless (value : node) : bool :=
  match value with
  | TextNode _ chars =>
      String.eqb chars "" && (locStart value =? locEnd value)%nat
  | _ => false
  end.

(** ** Properties of a callback on a node *)

(** The callback returns on the node, whatever the path. *)
Definition total_on (cb : Callback) (x : node) : Prop :=
  forall path, exists r, cb path x = Ok r.

(** The callback leaves the node as it found it. *)
Definition stable_on (cb : Callback) (x : node) : Prop :=
  forall path d x', cb path x = Ok (d, x') -> x' = x.

(** ** Sample options and trees *)

Definition sensitive_options : Options := mkOptions "css" false "".
Definition ignore_options : Options := mkOptions "ignore" false "".

Definition no_loc : Loc := mkLoc 0 0.
Definition no_strip : StripFlags := mkStrip false false.

Definition path_node (name : string) : node :=
  PathExpression (mkPath name [name] no_loc).
Definition mustache (name : string) : node :=
  MustacheStatement no_loc (path_node name) [] None true no_strip.
Definition block_of (l : list node) : BodyData node :=
  mkBody Block no_loc l [].
Definition template_of (l : list node) : BodyData node :=
  mkBody Template no_loc l [].

(** [{{#> layout}}B{{/layout}}] as the patched parser hands it over *)
Definition partial_block : node :=
  BlockStatement no_loc (mkPath "> layout" ["> layout"] no_loc) [] None
    (block_of [TextNode no_loc "B"]) None no_strip no_strip no_strip.

(** [{{#if b}}B{{/if}}] *)
Definition inner_if : node :=
  BlockStatement no_loc (mkPath "if" ["if"] no_loc) [path_node "b"] None
    (block_of [TextNode no_loc "B"]) None no_strip no_strip no_strip.

(** [{{#if a}}A{{else}}{{#if b}}B{{/if}}{{/if}}] *)
Definition outer_if : node :=
  BlockStatement no_loc (mkPath "if" ["if"] no_loc) [path_node "a"] None
    (block_of [TextNode no_loc "A"]) (Some (block_of [inner_if]))
    no_strip no_strip no_strip.

(** ** Cutting white space, for the statements below *)

Section Cutting.
Variable p : ascii -> bool.

(** What is left once the characters of [p] at the end are cut *)
Definition cut_end (s : string) : string :=
  Js.take (String.length s - Js.count_trailing p s) s.

(** The characters of [p] at the end of a string *)
Fixpoint trailing_run (s : string) : string :=
  match s with
  | EmptyString => EmptyString
  | String c r => if p c && Js.all_chars p r then s else trailing_run r
  end.
End Cutting.

(** ** Boundaries of a text run that the printer discards *)

(** In a mode other than ["ignore"]: the first and the last child of the
    template *)
Definition trims_leading (path : AstPath) : bool :=
  isFirst path && type_is (parent path) "Template".
Definition trims_trailing (path : AstPath) : bool :=
  isLast path && type_is (parent path) "Template".

(** In the mode ["ignore"]: the parents whose first and last child, when
    white space only, is left out *)
Definition in_container (path : AstPath) : bool :=
  type_is (parent path) "Block" || type_is (parent path) "ElementNode"
  || type_is (parent path) "Template".

(** ** More sample trees *)

(** A value that holds both quotes: a, double quote, b, single quote, c *)
Definition both_quotes : string :=
  String "a" (String double_quote (String "b" (String single_quote "c"))).

(** The attribute [title] with that value *)
Definition title_attribute : node :=
  AttrNode (mkLoc 5 18) "title" (TextNode (mkLoc 11 18) both_quotes).

(** [{{#layout}}A{{else}}{{#> layout}}B{{/layout}}{{/layout}}]: a block
    whose inverse holds one partial block of its own name *)
Definition layout_else_partial : node :=
  BlockStatement no_loc (mkPath "layout" ["layout"] no_loc) [] None
    (block_of [TextNode no_loc "A"]) (Some (block_of [partial_block]))
    no_strip no_strip no_strip.

(** ** Entries of a starting tag, for the statements below *)

(** The node of an entry that has not been replaced *)
Definition node_of_entry (e : TagEntry) : node :=
  match e with
  | EntryNode _ _ n => n
  | EntryDoc _ => NullLiteral (mkLoc 0 0)
  end.

(** How often the node of index [i] of the list [prop] occurs in the
    array *)
Definition count_object (prop : string) (i : nat) (l : list TagEntry) : nat :=
  List.length (filter (is_object prop i) l).

(** The entry once the loop over the list [prop] has replaced the nodes of
    the indices [i], [i + 1], ... by the documents [docs] *)
Definition replaced_entry (prop : string) (i : nat) (docs : list Doc)
    (e : TagEntry) : TagEntry :=
  match e with
  | EntryNode q j n =>
      if String.eqb q prop && (i <=? j)%nat
         && (j <? i + List.length docs)%nat
      then EntryDoc (DArr [line; nth (j - i) docs (DStr "")])
      else e
  | EntryDoc _ => e
  end.

(** The document printed for the node of an entry *)
Definition doc_of_entry (attributeDocs modifierDocs commentDocs : list Doc)
    (e : TagEntry) : Doc :=
  match e with
  | EntryNode q j _ =>
      nth j (if String.eqb q "attributes" then attributeDocs
             else if String.eqb q "modifiers" then modifierDocs
                  else commentDocs) (DStr "")
  | EntryDoc d => d
  end.

Definition starts_before (x y : node) : Prop := locStart x <= locStart y.

Definition is_node_entry (e : TagEntry) : Prop :=
  exists q j n, e = EntryNode q j n.

Definition entry_before (a b : TagEntry) : Prop :=
  starts_before (node_of_entry a) (node_of_entry b).

(** An element with an attribute, a comment, a modifier and an attribute,
    written in this order in the source *)
Definition interleaved_element : node :=
  ElementNode (mkLoc 0 60) "div"
    [ AttrNode (mkLoc 5 10) "id" (TextNode (mkLoc 8 10) "a");
      AttrNode (mkLoc 40 50) "title" (TextNode (mkLoc 46 50) "t") ]
    [ ElementModifierStatement (mkLoc 25 35) (path_node "on") [] None ]
    [ MustacheCommentStatement (mkLoc 12 22) " note " ]
    [] [] false.

(** ** The strings of a document *)

(** The strings that a document holds, in the order of the document.  A
    line of any kind holds none, and of [ifBreak] the flat contents are
    read. *)
Fixpoint doc_text (d : Doc) : string :=
  let fix texts (l : list Doc) : string :=
    match l with
    | [] => EmptyString
    | x :: r => (doc_text x ++ texts r)%string
    end in
  match d with
  | DStr s => s
  | DArr l | DFill l => texts l
  | DGroup c | DIndent c | DDedent c => doc_text c
  | DIfBreak _ f => doc_text f
  | DLineObject _ _ _ | DBreakParent | DOpaque _ => EmptyString
  end.

(** The string without the characters of the class [p] *)
Fixpoint strip (p : ascii -> bool) (s : string) : string :=
  match s with
  | EmptyString => EmptyString
  | String c r => if p c then strip p r else String c (strip p r)
  end.

(** ** The parts of a fill *)

(** The parts of a fill as the layout expects them: contents and
    separators in turn, from a first to a last content; here each content
    is a word free of white space and each separator is a [line]. *)
Fixpoint fill_shape (l : list Doc) : bool :=
  match l with
  | [DStr w] =>
      Js.all_chars (fun c => negb (htmlWhitespaceUtils.is_ws c)) w
  | DStr w :: DLineObject false false false :: r =>
      Js.all_chars (fun c => negb (htmlWhitespaceUtils.is_ws c)) w
      && fill_shape r
  | _ => false
  end.

(** Every fill of the document has parts of that shape. *)
Fixpoint fills_ok (d : Doc) : bool :=
  let fix each (l : list Doc) : bool :=
    match l with
    | [] => true
    | x :: r => fills_ok x && each r
    end in
  match d with
  | DFill l => fill_shape l && each l
  | DArr l => each l
  | DGroup c | DIndent c | DDedent c => fills_ok c
  | DIfBreak b f => fills_ok b && fills_ok f
  | DStr _ | DLineObject _ _ _ | DBreakParent | DOpaque _ => true
  end.

(** ** Quotes inside a string literal *)

(** Every character [q] of the string comes right after a backslash;
    [after_backslash] tells that the character before the string is one. *)
Fixpoint quotes_escaped (q : ascii) (after_backslash : bool) (s : string)
    : bool :=
  match s with
  | EmptyString => true
  | String c r =>
      (negb (Ascii.eqb c q) || after_backslash)
      && quotes_escaped q (Ascii.eqb c "\") r
  end.

(** ** Blocks and partials in the patched parser

    The hunks of [patches/@glimmer+syntax+0.85.13.patch] on the visitors
    [BlockStatement], [PartialStatement] and [PartialBlockStatement]: what
    the parser does with a block or a partial, from the state of the
    tokenizer, the source text of the construct ([this.sourceForNode]) and
    its span.  The visitors are named [visitBlockStatement] and so on, the
    names of the kinds being those of the constructors of [node]. *)

(** Modelled from the spec: the builders [b.text] and [b.mustacheComment]
    of the parser (not among the sources): a text node of the given
    characters and a mustache comment of the given value, each with the
    given span. *)
Definition b_text (chars : string) (loc : Loc) : node := TextNode loc chars.
Definition b_mustacheComment (value : string) (loc : Loc) : node :=
  MustacheCommentStatement loc value.

(** What a visitor does with the construct: the effect on the state of the
    parser, or the error thrown. *)
Inductive Visited : Type :=
| AppendToCommentData (source : string)
| AppendDynamicAttributeValuePart (part : node)
| PushStartTagComment (comment : node)
| AppendChild (child : node)
| BlockSyntaxError     (* A block may only be used inside an HTML element
                          or another block. *)
| ContinueAsBlock.     (* the visitor goes on past the hunk *)

Definition state_among (state : string) (states : list string) : bool :=
  existsb (String.eqb state) states.

(** The visitor [BlockStatement], as far as the hunk goes *)
Definition visitBlockStatement (state sourceStr : string) (loc : Loc)
    : Visited :=
  if String.eqb state "comment" then AppendToCommentData sourceStr
  else if String.eqb state "attributeValueDoubleQuoted" then
    AppendDynamicAttributeValuePart
      (b_text (Js.replaceAll sourceStr "{{" "{_{") loc)
  else if state_among state ["beforeAttributeName"; "afterAttributeName"]
  then
    PushStartTagComment
      (b_mustacheComment
         ("__uncomment__" ++ sourceStr ++ "__uncomment__") loc)
  else if negb (state_among state ["data"; "beforeData"])
  then BlockSyntaxError
  else ContinueAsBlock.

(** The visitor [PartialStatement] *)
Definition visitPartialStatement (source : string) (loc : Loc) : Visited :=
  AppendChild
    (b_mustacheComment ("__uncomment__" ++ source ++ "__uncomment__") loc).

(** The visitor [PartialBlockStatement]: the name of the partial, turned
    into the path of a block, and what [BlockStatement] then does.  In an
    array without a first part the assignment makes one of [undefined]. *)
Definition visitPartialBlockStatement (state sourceStr : string) (loc : Loc)
    (name : PathData) : PathData * Visited :=
  let parts' :=
    match parts name with
    | [] => ["> undefined"]
    | first :: others => ("> " ++ first)%string :: others
    end in
  (mkPath (Js.join "/" parts') parts' (path_loc name),
   visitBlockStatement state sourceStr loc).

(** The pattern starts at a place of [s], when [s] is followed by the
    pattern. *)
Fixpoint marker_inside (pat s : string) : bool :=
  match s with
  | EmptyString => false
  | String _ r => String.prefix pat (s ++ pat) || marker_inside pat r
  end.

(** ** Errors of the printer *)

(** The tree holds a node of the kind [t], which the printer does not
    list. *)
Definition mentions (t : string) : node -> bool :=
  fun n =>
    negb (all_nodes (fun x => match x with
                              | Other u _ _ => negb (String.eqb u t)
                              | _ => true
                              end) n).

(** The call returns, or it fails with an error that satisfies [E]. *)
Definition fails_only {A : Type} (E : PrintError -> Prop) (r : Result A)
    : Prop :=
  match r with
  | Ok _ => True
  | Err e => E e
  end.

(** ** Breaks around a text run *)

(** A [line] or a [hardline], dedented or not *)
Definition is_line_break (d : Doc) : bool :=
  match d with
  | DLineObject false false false => true
  | DDedent (DLineObject false false false) => true
  | _ => is_hard_break d
  end.

(** ** The nodes that the printer comes to *)

(** Every node that [print] comes to is of a kind that it lists.  The
    printer comes to every node of the tree but those below a void element,
    whose children it does not print. *)
Fixpoint reaches_listed_only (n : node) : bool :=
  let in_hash hash :=
    match hash with
    | Some h => forallb (fun p => reaches_listed_only (value p)) (pairs h)
    | None => true
    end in
  match n with
  | Body b => forallb reaches_listed_only (body b)
  | ElementNode _ _ attributes modifiers comments children _ void =>
      forallb reaches_listed_only attributes
      && forallb reaches_listed_only modifiers
      && forallb reaches_listed_only comments
      && (void || forallb reaches_listed_only children)
  | BlockStatement _ _ params hash program inverse _ _ _ =>
      forallb reaches_listed_only params && in_hash hash
      && forallb reaches_listed_only (body program)
      && match inverse with
         | Some inv => forallb reaches_listed_only (body inv)
         | None => true
         end
  | ElementModifierStatement _ p params hash
  | MustacheStatement _ p params hash _ _
  | SubExpression _ p params hash =>
      reaches_listed_only p && forallb reaches_listed_only params
      && in_hash hash
  | AttrNode _ _ value => reaches_listed_only value
  | ConcatStatement _ parts => forallb reaches_listed_only parts
  | Hash h => forallb (fun p => reaches_listed_only (value p)) (pairs h)
  | HashPair p => reaches_listed_only (value p)
  | Other _ _ _ => false
  | _ => true
  end.

(** A void element that holds a node of a kind outside the dispatch *)
Definition void_with_unlisted_child : node :=
  ElementNode no_loc "img" [] [] []
    [Other "Decorator" eq_refl no_loc] [] true.

(** ** The tree as a print pass leaves it *)

(** [node.path] of a block statement as [printCloseBlock] leaves it *)
Definition closed_path (p : PathData) : PathData :=
  if Js.startsWith (original p) "> " then
    let original' := Js.replaceAll (original p) "> " "" in
    mkPath original' [original'] (path_loc p)
  else p.

Section MapFrom.
Context {A B : Type} (f : nat -> A -> B).

(** The images of the elements of a list, each with its index, which is
    counted from [i] *)
Fixpoint map_from (i : nat) (l : list A) : list B :=
  match l with
  | [] => []
  | x :: r => f i x :: map_from (S i) r
  end.
End MapFrom.

Section WithAfter.
Variable after : AstPath -> node -> node.

(** The array [arr] of the node [owner], each element taken on the path
    that [path.map] gives it *)
Definition array_after (owner : node) (name : string) (arr : list node)
    (path : AstPath) : list node :=
  map_from (fun i child => after (path_at owner name arr i path) child)
    0 arr.

Definition hashPair_after (path : AstPath) (p : HashPairData node)
    : HashPairData node :=
  mkHashPair (pair_loc p) (key p)
    (after (path_call (HashPair p) "value" path) (value p)).

Definition hash_after (path : AstPath) (h : HashData node)
    : HashData node :=
  let arr := map HashPair (pairs h) in
  mkHash (hash_loc h)
    (map_from
       (fun i p => hashPair_after (path_at (Hash h) "pairs" arr i path) p)
       0 (pairs h)).

Definition body_after (path : AstPath) (b : BodyData node)
    : BodyData node :=
  mkBody (kind b) (body_loc b)
    (array_after (Body b) "body" (body b) path) (blockParams b).
End WithAfter.

(** The tree below the node [n], reached on [path], once [print] has
    returned on it.  Every field of every node is the one found, but for
    the path of a block statement that is not printed as the link of a
    chain of else-if: the printer closes such a block, and closing it sets
    its path to [closed_path].  The children of a void element are not
    printed, and stay as found with all that is below them. *)
Fixpoint tree_after_print (path : AstPath) (n : node) {struct n} : node :=
  let hash_of hash :=
    option_map (hash_after tree_after_print (path_call n "hash" path))
      hash in
  match n with
  | Body b => Body (body_after tree_after_print path b)
  | ElementNode loc tag attributes modifiers comments children
      blockParams void =>
      ElementNode loc tag
        (array_after tree_after_print n "attributes" attributes path)
        (array_after tree_after_print n "modifiers" modifiers path)
        (array_after tree_after_print n "comments" comments path)
        (if void then children
         else array_after tree_after_print n "children" children path)
        blockParams void
  | BlockStatement loc p params hash program inverse
      openStrip inverseStrip closeStrip =>
      BlockStatement loc
        (if isElseIfLike path n then p else closed_path p)
        (array_after tree_after_print n "params" params path)
        (hash_of hash)
        (body_after tree_after_print (path_call n "program" path) program)
        (option_map
           (body_after tree_after_print (path_call n "inverse" path))
           inverse)
        openStrip inverseStrip closeStrip
  | ElementModifierStatement loc p params hash =>
      ElementModifierStatement loc
        (tree_after_print (path_call n "path" path) p)
        (array_after tree_after_print n "params" params path)
        (hash_of hash)
  | MustacheStatement loc p params hash escaped strip =>
      MustacheStatement loc
        (tree_after_print (path_call n "path" path) p)
        (array_after tree_after_print n "params" params path)
        (hash_of hash) escaped strip
  | SubExpression loc p params hash =>
      SubExpression loc
        (tree_after_print (path_call n "path" path) p)
        (array_after tree_after_print n "params" params path)
        (hash_of hash)
  | AttrNode loc name value =>
      AttrNode loc name (tree_after_print (path_call n "value" path) value)
  | ConcatStatement loc parts =>
      ConcatStatement loc (array_after tree_after_print n "parts" parts path)
  | Hash h => Hash (hash_after tree_after_print path h)
  | HashPair p => HashPair (hashPair_after tree_after_print path p)
  | _ => n
  end.

(** A callback that leaves the tree below a node as [after] tells *)
Definition after_on (cb : Callback) (after : AstPath -> node -> node)
    (x : node) : Prop :=
  forall path d x', cb path x = Ok (d, x') -> x' = after path x.

(** ** The names of a [class] attribute *)

Section Words.
Variable p : ascii -> bool.

(** [words_of p text ws]: the words [ws] are the maximal runs of characters
    of [text] outside the class [p], in their order.  The text is a run of
    characters of [p], then the first word, then a rest that is empty or
    starts with a character of [p], and that holds the other words. *)
Inductive words_of : string -> list string -> Prop :=
| words_none (s : string) :
    Js.all_chars p s = true -> words_of s []
| words_cons (sp w rest : string) (ws : list string) :
    Js.all_chars p sp = true ->
    w <> EmptyString ->
    Js.all_chars (fun c => negb (p c)) w = true ->
    rest = EmptyString \/ Js.first_is p rest = true ->
    words_of rest ws ->
    words_of (sp ++ w ++ rest) (w :: ws).
End Words.

(** The pieces of a split that are not empty *)
Definition nonempty_pieces (l : list string) : list string :=
  filter (fun w => negb (String.eqb w "")) l.

(** * Properties *)

(** ** Induction on trees *)

Section NodeInduction.
Variable P : node -> Prop.
Hypothesis step : forall n, Forall P (children_of n) -> P n.

Lemma node_children_ind : forall n, P n.
Proof.
  fix IH 1. intros n. apply step.
  destruct n as
    [ [k bl bd bp] | l t at_ mo co ch bp v
    | l p pa [[hl ps]|] [k bl bd bp] [[ik il ib ibp]|] s1 s2 s3
    | l p pa [[hl ps]|] | l p pa [[hl ps]|] e st | l p pa [[hl ps]|]
    | l nm v | l pts | [hl ps] | [pl k v] | | | | | | | | | | ];
    simpl;
    repeat first
      [ apply Forall_nil
      | apply Forall_cons; [apply IH|]
      | apply Forall_app; split
      | match goal with
        | |- Forall P (map value ?x) =>
            induction x as [|[? ? ?] ? ?]; simpl; constructor;
            [apply IH | assumption]
        | |- Forall P ?x =>
            is_var x; induction x; constructor; [apply IH | assumption]
        end ].
Qed.
End NodeInduction.

(** ** Lists, results and predicates on trees *)

Lemma forallb_Forall_true {A : Type} (f : A -> bool) (l : list A) :
  forallb f l = true -> Forall (fun x => f x = true) l.
Proof.
  induction l as [|x r IH]; simpl; intros H; constructor;
    apply andb_true_iff in H; destruct H; auto.
Qed.

Lemma forallb_map_value (f : node -> bool) (l : list (HashPairData node)) :
  forallb (fun p => f (value p)) l = true ->
  Forall (fun x => f x = true) (map value l).
Proof.
  induction l as [|x r IH]; simpl; intros H; constructor;
    apply andb_true_iff in H; destruct H; auto.
Qed.

Lemma all_nodes_own (own : node -> bool) (n : node) :
  all_nodes own n = true -> own n = true.
Proof.
  destruct n; simpl; intros H; apply andb_true_iff in H; apply H.
Qed.

Lemma all_nodes_children (own : node -> bool) (n : node) :
  all_nodes own n = true ->
  Forall (fun c => all_nodes own c = true) (children_of n).
Proof.
  destruct n as
    [ b | l t at_ mo co ch bp v
    | l p pa [h|] b [inv|] s1 s2 s3
    | l p pa [h|] | l p pa [h|] e st | l p pa [h|]
    | l nm v | l pts | h | pr | | | | | | | | | | ];
    simpl; intros H;
    repeat match goal with
           | H : _ && _ = true |- _ =>
               apply andb_true_iff in H; destruct H
           end;
    repeat first
      [ apply Forall_nil
      | apply Forall_cons; [assumption|]
      | apply Forall_app; split
      | apply forallb_map_value; assumption
      | apply forallb_Forall_true; assumption ].
Qed.

Lemma bind_Ok {A B : Type} (r : Result A) (f : A -> Result B) (y : B) :
  bind r f = Ok y -> exists a, r = Ok a /\ f a = Ok y.
Proof. destruct r; simpl; intros H; [eauto | discriminate]. Qed.

(** Every hypothesis that a sequence of calls returned is split into the
    results of the calls. *)
Ltac inv_bind :=
  repeat match goal with
         | H : bind _ _ = Ok _ |- _ =>
             let a := fresh "a" in
             let Ha := fresh "Ha" in
             apply bind_Ok in H; destruct H as (a & Ha & H)
         | H : Ok _ = Ok _ |- _ => inversion H; subst; clear H
         | H : (let '(_, _) := ?x in _) = Ok _ |- _ => destruct x
         | H : match ?x with (_, _) => _ end = Ok _ |- _ => destruct x
         | a : (_ * _)%type |- _ => destruct a
         end.

Section MapMFacts.
Context {A B : Type} (f : nat -> A -> Result B).

Lemma mapM_from_total (l : list A) :
  Forall (fun x => forall i, exists y, f i x = Ok y) l ->
  forall i, exists ys, mapM_from f i l = Ok ys.
Proof.
  induction 1 as [|x r Hx _ IH]; intros i; simpl; [eauto|].
  destruct (Hx i) as [y ->]. destruct (IH (S i)) as [ys ->].
  simpl. eauto.
Qed.

Lemma mapM_from_length (l : list A) :
  forall i ys, mapM_from f i l = Ok ys -> List.length ys = List.length l.
Proof.
  induction l as [|x r IH]; simpl; intros i ys H; inv_bind;
    [reflexivity | simpl; f_equal; eauto].
Qed.

Lemma mapM_from_Forall2 (l : list A) :
  forall i ys, mapM_from f i l = Ok ys ->
  Forall2 (fun x y => exists j, f j x = Ok y) l ys.
Proof.
  induction l as [|x r IH]; simpl; intros i ys H; inv_bind;
    constructor; eauto.
Qed.

Lemma mapM_from_nth (l : list A) :
  forall i ys, mapM_from f i l = Ok ys ->
  forall k x, nth_error l k = Some x ->
  exists y, nth_error ys k = Some y /\ f (i + k) x = Ok y.
Proof.
  induction l as [|x r IH]; simpl; intros i ys H k z Hk.
  - destruct k; discriminate.
  - inv_bind. destruct k as [|k]; simpl in *.
    + inversion Hk; subst. rewrite Nat.add_0_r. eauto.
    + match goal with
      | Hr : mapM_from _ _ r = Ok _ |- _ =>
          destruct (IH _ _ Hr k z Hk) as (y & Hy & Hf)
      end.
      exists y. split; [assumption|].
      replace (i + S k) with (S i + k) by lia. assumption.
Qed.

Lemma mapM_from_Err (l : list A) (x : A) :
  In x l -> (forall i, exists e, f i x = Err e) ->
  forall i, exists e, mapM_from f i l = Err e.
Proof.
  induction l as [|z r IH]; simpl; intros Hin Hx i; [contradiction|].
  destruct Hin as [->|Hin].
  - destruct (Hx i) as [e ->]. simpl. eauto.
  - destruct (f i z); simpl; [|eauto].
    destruct (IH Hin Hx (S i)) as [e ->]. simpl. eauto.
Qed.
End MapMFacts.

Lemma mapM_from_stable {A B : Type} (f : nat -> A -> Result B) (g : B -> A)
    (l : list A) :
  Forall (fun x => forall i y, f i x = Ok y -> g y = x) l ->
  forall i ys, mapM_from f i l = Ok ys -> map g ys = l.
Proof.
  induction 1 as [|x r Hx _ IH]; simpl; intros i ys H; inv_bind;
    simpl; [reflexivity | f_equal; eauto].
Qed.

Ltac split_pairs :=
  repeat match goal with
         | x : (_ * _)%type |- _ => destruct x
         end.

(** ** The helpers return when the callback does *)

Section HelpersTotal.
Variable options : Options.
Variable cb : Callback.

Ltac by_total lem :=
  let r := fresh "r" in
  let Hr := fresh "Hr" in
  destruct lem as [r Hr]; rewrite Hr; clear Hr; simpl; split_pairs; simpl.

Lemma printArray_total owner name arr path :
  Forall (total_on cb) arr ->
  exists r, printArray cb owner name arr path = Ok r.
Proof.
  intros H. unfold printArray. apply mapM_from_total.
  eapply Forall_impl; [|exact H]. intros x Hx i. apply Hx.
Qed.

Lemma printHashPair_total path p :
  total_on cb (value p) -> exists r, printHashPair cb path p = Ok r.
Proof.
  intros H. unfold printHashPair.
  destruct (H (path_call (HashPair p) "value" path)) as [[d v] ->].
  simpl. eauto.
Qed.

Lemma printHash_total path h :
  Forall (total_on cb) (map value (pairs h)) ->
  exists r, printHash cb path h = Ok r.
Proof.
  intros H. unfold printHash.
  edestruct (mapM_from_total
               (fun i p => printHashPair cb
                  (path_at (Hash h) "pairs" (map HashPair (pairs h)) i path)
                  p) (pairs h)) as [ys ->]; [|simpl; eauto].
  apply (proj1 (Forall_map value (total_on cb) (pairs h))) in H.
  eapply Forall_impl; [|exact H]. intros x Hx i.
  apply printHashPair_total, Hx.
Qed.

Lemma printBody_total path b :
  Forall (total_on cb) (body b) -> exists r, printBody cb path b = Ok r.
Proof.
  intros H. unfold printBody.
  by_total (printArray_total (Body b) "body" (body b) path H). eauto.
Qed.

Lemma printParams_total owner path params hash :
  Forall (total_on cb) params -> Forall (total_on cb) (hash_values hash) ->
  exists r, printParams cb owner path params hash = Ok r.
Proof.
  intros Hp Hh. unfold printParams.
  by_total (printArray_total owner "params" params path Hp).
  destruct hash as [h|]; simpl; [|eauto].
  destruct (0 <? List.length (pairs h))%nat; simpl; [|eauto].
  by_total (printHash_total (path_call owner "hash" path) h Hh). eauto.
Qed.

Lemma printPathAndParams_total owner path p params hash :
  total_on cb p ->
  Forall (total_on cb) params -> Forall (total_on cb) (hash_values hash) ->
  exists r, printPathAndParams cb owner path p params hash = Ok r.
Proof.
  intros H Hp Hh. unfold printPathAndParams, printPath.
  destruct (H (path_call owner "path" path)) as [[d v] ->]. simpl.
  by_total (printParams_total owner path params hash Hp Hh). eauto.
Qed.

Lemma printSubExpressionPathAndParams_total owner path p params hash :
  total_on cb p ->
  Forall (total_on cb) params -> Forall (total_on cb) (hash_values hash) ->
  exists r,
    printSubExpressionPathAndParams cb owner path p params hash = Ok r.
Proof.
  intros H Hp Hh. unfold printSubExpressionPathAndParams, printPath.
  destruct (H (path_call owner "path" path)) as [[d v] ->]. simpl.
  by_total (printParams_total owner path params hash Hp Hh). eauto.
Qed.

Lemma printOpenBlock_total owner path p params hash program openStrip :
  Forall (total_on cb) params -> Forall (total_on cb) (hash_values hash) ->
  exists r,
    printOpenBlock cb owner path p params hash program openStrip = Ok r.
Proof.
  intros Hp Hh. unfold printOpenBlock.
  by_total (printParams_total owner path params hash Hp Hh). eauto.
Qed.

Lemma printElseIfLikeBlock_total owner path p params hash program :
  Forall (total_on cb) params -> Forall (total_on cb) (hash_values hash) ->
  exists r,
    printElseIfLikeBlock cb owner path p params hash program = Ok r.
Proof.
  intros Hp Hh. unfold printElseIfLikeBlock.
  by_total (printParams_total owner path params hash Hp Hh). eauto.
Qed.

Lemma printProgram_total owner path program :
  Forall (total_on cb) (body program) ->
  exists r, printProgram options cb owner path program = Ok r.
Proof.
  intros H. unfold printProgram.
  destruct (blockStatementHasOnlyWhitespaceInProgram program); [eauto|].
  by_total (printBody_total (path_call owner "program" path) program H).
  eauto.
Qed.

Lemma printInverse_total owner path p inverse inverseStrip :
  Forall (total_on cb) (inverse_body inverse) ->
  exists r,
    printInverse options cb owner path p inverse inverseStrip = Ok r.
Proof.
  intros H. unfold printInverse. destruct inverse as [inv|]; simpl in *.
  - by_total (printBody_total (path_call owner "inverse" path) inv H).
    eauto.
  - eauto.
Qed.

Lemma printChildren_total owner path children :
  Forall (total_on cb) children ->
  exists r, printChildren options cb owner path children = Ok r.
Proof.
  intros H. unfold printChildren.
  destruct (ignoreMode options && forallb isWhitespaceNode children);
    [eauto|].
  match goal with
  | |- context [mapM_from ?f 0 children] =>
      edestruct (mapM_from_total f children) as [ys ->]; [|simpl; eauto]
  end.
  eapply Forall_impl; [|exact H]. intros x Hx i. simpl.
  destruct (Hx (path_at owner "children" children i path)) as [[d v] ->].
  simpl. eauto.
Qed.

Lemma printStartingTag_total owner path tag attributes modifiers comments
    blockParams :
  Forall (total_on cb) attributes -> Forall (total_on cb) modifiers ->
  Forall (total_on cb) comments ->
  exists r,
    printStartingTag cb owner path tag attributes modifiers comments
      blockParams = Ok r.
Proof.
  intros Ha Hm Hc. unfold printStartingTag.
  destruct (printArray_total owner "attributes" attributes path Ha)
    as [ra ->].
  destruct (printArray_total owner "modifiers" modifiers path Hm)
    as [rm ->].
  destruct (printArray_total owner "comments" comments path Hc)
    as [rc ->].
  simpl. eauto.
Qed.

Lemma printElementNode_total owner path loc tag attributes modifiers
    comments children blockParams void :
  Forall (total_on cb) attributes -> Forall (total_on cb) modifiers ->
  Forall (total_on cb) comments -> Forall (total_on cb) children ->
  exists r,
    printElementNode options cb owner path loc tag attributes modifiers
      comments children blockParams void = Ok r.
Proof.
  intros Ha Hm Hc Hch. unfold printElementNode.
  by_total (printStartingTag_total owner path tag attributes modifiers
              comments blockParams Ha Hm Hc).
  destruct (isVoidElement owner); [eauto|].
  destruct (List.length children =? 0)%nat; [eauto|].
  destruct (ignoreMode options);
    by_total (printChildren_total owner path children Hch); eauto.
Qed.

Lemma printBlockStatement_total owner path loc p params hash program
    inverse openStrip inverseStrip closeStrip :
  Forall (total_on cb) params -> Forall (total_on cb) (hash_values hash) ->
  Forall (total_on cb) (body program) ->
  Forall (total_on cb) (inverse_body inverse) ->
  exists r,
    printBlockStatement options cb owner path loc p params hash program
      inverse openStrip inverseStrip closeStrip = Ok r.
Proof.
  intros Hp Hh Hb Hi. unfold printBlockStatement.
  destruct (isElseIfLike path owner).
  - by_total (printElseIfLikeBlock_total owner path p params hash program
                Hp Hh).
    by_total (printProgram_total owner path program Hb).
    by_total (printInverse_total owner path p inverse inverseStrip Hi).
    eauto.
  - by_total (printOpenBlock_total owner path p params hash program
                openStrip Hp Hh).
    by_total (printProgram_total owner path program Hb).
    by_total (printInverse_total owner path p inverse inverseStrip Hi).
    destruct (printCloseBlock options p program closeStrip). eauto.
Qed.

Lemma printAttrNode_total owner path loc name value :
  total_on cb value ->
  exists r, printAttrNode options cb owner path loc name value = Ok r.
Proof.
  intros H. unfold printAttrNode.
  match goal with |- context [if ?c then _ else _] => destruct c end;
    [eauto|].
  destruct (H (path_call owner "value" path)) as [[d v] ->].
  simpl. eauto.
Qed.
End HelpersTotal.

Lemma Forall_mp {A : Type} (P Q : A -> Prop) (l : list A) :
  Forall (fun x => P x -> Q x) l -> Forall P l -> Forall Q l.
Proof.
  induction 1; intros H'; constructor; inversion H'; subst; auto.
Qed.

Ltac split_Forall :=
  repeat match goal with
         | H : Forall _ (_ ++ _) |- _ =>
             apply Forall_app in H; destruct H
         | H : Forall _ (_ :: _) |- _ =>
             let x := fresh in
             let Hx := fresh "Hx" in
             let Hr := fresh "Hr" in
             inversion H as [|? ? Hx Hr]; subst; clear H
         end.

(** [print] returns a document on every tree whose nodes are all of a kind
    that it lists. *)
Lemma print_total (options : Options) (n : node) :
  closed n = true -> total_on (print options) n.
Proof.
  induction n as [n IH] using node_children_ind. intros Hc.
  pose proof (Forall_mp _ _ _ IH (all_nodes_children _ _ Hc)) as Hch.
  clear IH. intros path.
  destruct n; simpl in Hch; simpl; split_Forall.
  - destruct (printBody_total (print options) path b Hch) as [[d b'] ->].
    simpl. eauto.
  - apply printElementNode_total; assumption.
  - apply printBlockStatement_total; assumption.
  - edestruct printPathAndParams_total as [r ->]; [eassumption..|].
    split_pairs. simpl. eauto.
  - edestruct printPathAndParams_total as [r ->]; [eassumption..|].
    split_pairs. simpl. eauto.
  - edestruct printSubExpressionPathAndParams_total as [r ->];
      [eassumption..|].
    split_pairs. simpl. eauto.
  - apply printAttrNode_total; assumption.
  - destruct (printArray_total (print options)
                (ConcatStatement loc concatParts) "parts" concatParts path Hch)
      as [r ->].
    simpl. eauto.
  - destruct (printHash_total (print options) path h Hch) as [[d h'] ->].
    simpl. eauto.
  - destruct (printHashPair_total (print options) path p) as [[d p'] ->];
      [assumption | simpl; eauto].
  - eauto.
  - eauto.
  - eauto.
  - eauto.
  - eauto.
  - eauto.
  - eauto.
  - eauto.
  - eauto.
  - discriminate.
Qed.

(** ** The helpers leave the tree as the callback leaves it *)

Section HelpersStable.
Variable options : Options.
Variable cb : Callback.

Lemma printArray_stable owner name arr path r :
  Forall (stable_on cb) arr ->
  printArray cb owner name arr path = Ok r -> map snd r = arr.
Proof.
  intros H. unfold printArray. apply mapM_from_stable.
  eapply Forall_impl; [|exact H]. intros x Hx i [d x'] Hy. simpl.
  eapply Hx, Hy.
Qed.

Lemma printHashPair_stable path p d p' :
  stable_on cb (value p) ->
  printHashPair cb path p = Ok (d, p') -> p' = p.
Proof.
  intros H. unfold printHashPair. intros Hr. inv_bind.
  match goal with Hc : cb _ _ = Ok _ |- _ => apply H in Hc; subst end.
  destruct p; reflexivity.
Qed.

Lemma printHash_stable path h d h' :
  Forall (stable_on cb) (map value (pairs h)) ->
  printHash cb path h = Ok (d, h') -> h' = h.
Proof.
  intros H. unfold printHash. intros Hr. inv_bind.
  match goal with
  | Hm : mapM_from _ _ _ = Ok _ |- _ =>
      eapply (mapM_from_stable _ snd) in Hm
  end.
  - destruct h; simpl in *. congruence.
  - apply (proj1 (Forall_map value (stable_on cb) (pairs h))) in H.
    eapply Forall_impl; [|exact H]. intros x Hx i [dx x'] Hy. simpl.
    eapply printHashPair_stable; eassumption.
Qed.

Lemma printBody_stable path b d b' :
  Forall (stable_on cb) (body b) ->
  printBody cb path b = Ok (d, b') -> b' = b.
Proof.
  intros H. unfold printBody. intros Hr. inv_bind.
  match goal with
  | Hm : printArray _ _ _ _ _ = Ok _ |- _ =>
      apply printArray_stable in Hm; [|assumption]
  end.
  destruct b; simpl in *. congruence.
Qed.

Lemma printParams_stable owner path params hash d params' hash' :
  Forall (stable_on cb) params -> Forall (stable_on cb) (hash_values hash) ->
  printParams cb owner path params hash = Ok (d, params', hash') ->
  params' = params /\ hash' = hash.
Proof.
  intros Hp Hh. unfold printParams. intros Hr. inv_bind.
  match goal with
  | Hm : printArray _ _ _ _ _ = Ok _ |- _ =>
      apply printArray_stable in Hm; [|assumption]
  end.
  split; [assumption|].
  destruct hash as [h|]; simpl in *; inv_bind; [|reflexivity].
  destruct (0 <? List.length (pairs h))%nat; inv_bind; [|reflexivity].
  f_equal. eapply printHash_stable; eassumption.
Qed.

Lemma printPathAndParams_stable owner path p params hash d p' params'
    hash' :
  stable_on cb p ->
  Forall (stable_on cb) params -> Forall (stable_on cb) (hash_values hash) ->
  printPathAndParams cb owner path p params hash
    = Ok (d, p', params', hash') ->
  p' = p /\ params' = params /\ hash' = hash.
Proof.
  intros H Hp Hh. unfold printPathAndParams, printPath. intros Hr.
  inv_bind.
  match goal with Hc : cb _ _ = Ok _ |- _ => apply H in Hc end.
  match goal with
  | Hm : printParams _ _ _ _ _ = Ok _ |- _ =>
      apply printParams_stable in Hm; [|assumption..]
  end.
  intuition.
Qed.

Lemma printSubExpressionPathAndParams_stable owner path p params hash d p'
    params' hash' :
  stable_on cb p ->
  Forall (stable_on cb) params -> Forall (stable_on cb) (hash_values hash) ->
  printSubExpressionPathAndParams cb owner path p params hash
    = Ok (d, p', params', hash') ->
  p' = p /\ params' = params /\ hash' = hash.
Proof.
  intros H Hp Hh. unfold printSubExpressionPathAndParams, printPath.
  intros Hr. inv_bind.
  match goal with Hc : cb _ _ = Ok _ |- _ => apply H in Hc end.
  match goal with
  | Hm : printParams _ _ _ _ _ = Ok _ |- _ =>
      apply printParams_stable in Hm; [|assumption..]
  end.
  intuition.
Qed.

Lemma printOpenBlock_stable owner path p params hash program openStrip d
    params' hash' :
  Forall (stable_on cb) params -> Forall (stable_on cb) (hash_values hash) ->
  printOpenBlock cb owner path p params hash program openStrip
    = Ok (d, params', hash') ->
  params' = params /\ hash' = hash.
Proof.
  intros Hp Hh. unfold printOpenBlock. intros Hr. inv_bind.
  eapply printParams_stable; eassumption.
Qed.

Lemma printElseIfLikeBlock_stable owner path p params hash program d
    params' hash' :
  Forall (stable_on cb) params -> Forall (stable_on cb) (hash_values hash) ->
  printElseIfLikeBlock cb owner path p params hash program
    = Ok (d, params', hash') ->
  params' = params /\ hash' = hash.
Proof.
  intros Hp Hh. unfold printElseIfLikeBlock. intros Hr. inv_bind.
  eapply printParams_stable; eassumption.
Qed.

Lemma printProgram_stable owner path program d program' :
  Forall (stable_on cb) (body program) ->
  printProgram options cb owner path program = Ok (d, program') ->
  program' = program.
Proof.
  intros H. unfold printProgram.
  destruct (blockStatementHasOnlyWhitespaceInProgram program);
    intros Hr; inv_bind; [reflexivity|].
  eapply printBody_stable; eassumption.
Qed.

Lemma printInverse_stable owner path p inverse inverseStrip d inverse' :
  Forall (stable_on cb) (inverse_body inverse) ->
  printInverse options cb owner path p inverse inverseStrip
    = Ok (d, inverse') ->
  inverse' = inverse.
Proof.
  intros H. unfold printInverse. intros Hr.
  destruct inverse as [inv|]; simpl in *; inv_bind; [|reflexivity].
  f_equal. eapply printBody_stable; eassumption.
Qed.

Lemma printChildren_stable owner path children d children' :
  Forall (stable_on cb) children ->
  printChildren options cb owner path children = Ok (d, children') ->
  children' = children.
Proof.
  intros H. unfold printChildren.
  destruct (ignoreMode options && forallb isWhitespaceNode children);
    intros Hr; inv_bind; [reflexivity|].
  match goal with
  | Hm : mapM_from _ _ _ = Ok _ |- _ =>
      eapply (mapM_from_stable _ snd) in Hm; [assumption|]
  end.
  eapply Forall_impl; [|exact H]. intros x Hx i [dx x'] Hy. simpl in *.
  inv_bind. eapply Hx; eassumption.
Qed.

Lemma printStartingTag_stable owner path tag attributes modifiers comments
    blockParams d attributes' modifiers' comments' :
  Forall (stable_on cb) attributes -> Forall (stable_on cb) modifiers ->
  Forall (stable_on cb) comments ->
  printStartingTag cb owner path tag attributes modifiers comments
    blockParams = Ok (d, attributes', modifiers', comments') ->
  attributes' = attributes /\ modifiers' = modifiers
  /\ comments' = comments.
Proof.
  intros Ha Hm Hc. unfold printStartingTag. intros Hr. inv_bind.
  repeat match goal with
         | Hm : printArray _ _ _ _ _ = Ok _ |- _ =>
             apply printArray_stable in Hm; [|assumption]
         end.
  intuition.
Qed.

Lemma printElementNode_stable owner path loc tag attributes modifiers
    comments children blockParams void d n' :
  Forall (stable_on cb) attributes -> Forall (stable_on cb) modifiers ->
  Forall (stable_on cb) comments -> Forall (stable_on cb) children ->
  printElementNode options cb owner path loc tag attributes modifiers
    comments children blockParams void = Ok (d, n') ->
  n' = ElementNode loc tag attributes modifiers comments children
         blockParams void.
Proof.
  intros Ha Hm Hc Hch. unfold printElementNode. intros Hr. inv_bind.
  match goal with
  | Hs : printStartingTag _ _ _ _ _ _ _ _ = Ok _ |- _ =>
      apply printStartingTag_stable in Hs; [|assumption..];
      destruct Hs as (-> & -> & ->)
  end.
  destruct (isVoidElement owner); inv_bind; [reflexivity|].
  destruct (List.length children =? 0)%nat; inv_bind; [reflexivity|].
  destruct (ignoreMode options); inv_bind;
    match goal with
    | Hs : printChildren _ _ _ _ _ = Ok _ |- _ =>
        apply printChildren_stable in Hs; [|assumption]; subst
    end; reflexivity.
Qed.

Lemma printBlockStatement_stable owner path loc p params hash program
    inverse openStrip inverseStrip closeStrip d n' :
  Js.startsWith (original p) "> " = false ->
  Forall (stable_on cb) params -> Forall (stable_on cb) (hash_values hash) ->
  Forall (stable_on cb) (body program) ->
  Forall (stable_on cb) (inverse_body inverse) ->
  printBlockStatement options cb owner path loc p params hash program
    inverse openStrip inverseStrip closeStrip = Ok (d, n') ->
  n' = BlockStatement loc p params hash program inverse
         openStrip inverseStrip closeStrip.
Proof.
  intros Hm Hp Hh Hb Hi. unfold printBlockStatement, printCloseBlock.
  rewrite Hm.
  destruct (isElseIfLike path owner); intros Hr; inv_bind;
    repeat match goal with
           | Hs : printElseIfLikeBlock _ _ _ _ _ _ _ = Ok _ |- _ =>
               apply printElseIfLikeBlock_stable in Hs; [|assumption..];
               destruct Hs as (-> & ->)
           | Hs : printOpenBlock _ _ _ _ _ _ _ _ = Ok _ |- _ =>
               apply printOpenBlock_stable in Hs; [|assumption..];
               destruct Hs as (-> & ->)
           | Hs : printProgram _ _ _ _ _ = Ok _ |- _ =>
               apply printProgram_stable in Hs; [|assumption]; subst
           | Hs : printInverse _ _ _ _ _ _ _ = Ok _ |- _ =>
               apply printInverse_stable in Hs; [|assumption]; subst
           end; reflexivity.
Qed.

Lemma printAttrNode_stable owner path loc name value d n' :
  owner = AttrNode loc name value ->
  stable_on cb value ->
  printAttrNode options cb owner path loc name value = Ok (d, n') ->
  n' = owner.
Proof.
  intros -> H. unfold printAttrNode.
  match goal with |- context [if ?c then _ else _] => destruct c end;
    intros Hr; inv_bind; [reflexivity|].
  match goal with Hc : cb _ _ = Ok _ |- _ => apply H in Hc; subst end.
  reflexivity.
Qed.
End HelpersStable.

(** [print] leaves unchanged every tree none of whose block statements
    carries the marker of a partial block. *)
Lemma print_stable (options : Options) (n : node) :
  no_partial_marker n = true -> stable_on (print options) n.
Proof.
  induction n as [n IH] using node_children_ind. intros Hc.
  pose proof (Forall_mp _ _ _ IH (all_nodes_children _ _ Hc)) as Hch.
  apply all_nodes_own in Hc.
  clear IH. intros path d n'.
  destruct n; simpl in Hch; simpl; split_Forall; intros Hprint; inv_bind;
    try reflexivity.
  - f_equal. eapply printBody_stable; eassumption.
  - eapply printElementNode_stable; eassumption.
  - eapply printBlockStatement_stable; try eassumption.
    apply negb_true_iff in Hc. exact Hc.
  - match goal with
    | Hs : printPathAndParams _ _ _ _ _ _ = Ok _ |- _ =>
        apply printPathAndParams_stable in Hs; [|assumption..];
        destruct Hs as (-> & -> & ->)
    end. reflexivity.
  - match goal with
    | Hs : printPathAndParams _ _ _ _ _ _ = Ok _ |- _ =>
        apply printPathAndParams_stable in Hs; [|assumption..];
        destruct Hs as (-> & -> & ->)
    end. reflexivity.
  - match goal with
    | Hs : printSubExpressionPathAndParams _ _ _ _ _ _ = Ok _ |- _ =>
        apply printSubExpressionPathAndParams_stable in Hs; [|assumption..];
        destruct Hs as (-> & -> & ->)
    end. reflexivity.
  - eapply printAttrNode_stable; try eassumption. reflexivity.
  - f_equal. eapply printArray_stable; eassumption.
  - f_equal. eapply printHash_stable; eassumption.
  - f_equal. eapply printHashPair_stable; eassumption.
  - discriminate.
Qed.

(** ** The tree during a print pass *)

Lemma mapM_from_after {A B C : Type} (f : nat -> A -> Result B)
    (g : B -> C) (h : nat -> A -> C) (l : list A) :
  Forall (fun x => forall i y, f i x = Ok y -> g y = h i x) l ->
  forall i ys, mapM_from f i l = Ok ys -> map g ys = map_from h i l.
Proof.
  induction 1 as [|x r Hx _ IH]; simpl; intros i ys H; inv_bind;
    simpl; [reflexivity | f_equal; eauto].
Qed.

Lemma closed_path_printCloseBlock (options : Options) (p : PathData)
    (program : BodyData node) (closeStrip : StripFlags) :
  snd (printCloseBlock options p program closeStrip) = closed_path p.
Proof. reflexivity. Qed.

Section HelpersAfter.
Variable options : Options.
Variable cb : Callback.
Variable after : AstPath -> node -> node.
Hypothesis after_text :
  forall path l s, after path (TextNode l s) = TextNode l s.

Lemma whitespace_after (f : nat -> AstPath) (l : list node) :
  forallb isWhitespaceNode l = true ->
  forall i, map_from (fun i child => after (f i) child) i l = l.
Proof.
  induction l as [|x r IH]; simpl; intros H i; [reflexivity|].
  apply andb_true_iff in H. destruct H as [Hx Hr].
  rewrite (IH Hr). destruct x; try discriminate Hx.
  rewrite after_text. reflexivity.
Qed.

Lemma printArray_after owner name arr path r :
  Forall (after_on cb after) arr ->
  printArray cb owner name arr path = Ok r ->
  map snd r = array_after after owner name arr path.
Proof.
  intros H. unfold printArray, array_after. apply mapM_from_after.
  eapply Forall_impl; [|exact H]. intros x Hx i [d x'] Hy. simpl.
  eapply Hx, Hy.
Qed.

Lemma printHashPair_after path p d p' :
  after_on cb after (value p) ->
  printHashPair cb path p = Ok (d, p') -> p' = hashPair_after after path p.
Proof.
  intros H. unfold printHashPair, hashPair_after. intros Hr. inv_bind.
  match goal with Hc : cb _ _ = Ok _ |- _ => apply H in Hc; subst end.
  reflexivity.
Qed.

Lemma printHash_after path h d h' :
  Forall (after_on cb after) (map value (pairs h)) ->
  printHash cb path h = Ok (d, h') -> h' = hash_after after path h.
Proof.
  intros H. unfold printHash, hash_after. intros Hr. inv_bind.
  f_equal. eapply (mapM_from_after _ snd); [|eassumption].
  apply (proj1 (Forall_map value (after_on cb after) (pairs h))) in H.
  eapply Forall_impl; [|exact H]. intros x Hx i [dx x'] Hy. simpl.
  eapply printHashPair_after; eassumption.
Qed.

Lemma printBody_after path b d b' :
  Forall (after_on cb after) (body b) ->
  printBody cb path b = Ok (d, b') -> b' = body_after after path b.
Proof.
  intros H. unfold printBody, body_after. intros Hr. inv_bind.
  f_equal. eapply printArray_after; eassumption.
Qed.

Lemma printParams_after owner path params hash d params' hash' :
  Forall (after_on cb after) params ->
  Forall (after_on cb after) (hash_values hash) ->
  printParams cb owner path params hash = Ok (d, params', hash') ->
  params' = array_after after owner "params" params path
  /\ hash' = option_map (hash_after after (path_call owner "hash" path))
               hash.
Proof.
  intros Hp Hh. unfold printParams. intros Hr. inv_bind.
  split; [eapply printArray_after; eassumption|].
  destruct hash as [h|]; simpl in *; inv_bind; [|reflexivity].
  destruct (0 <? List.length (pairs h))%nat eqn:E; inv_bind.
  - f_equal. eapply printHash_after; eassumption.
  - destruct h as [hl [|x r]]; [reflexivity | discriminate E].
Qed.

Lemma printPathAndParams_after owner path p params hash d p' params'
    hash' :
  after_on cb after p ->
  Forall (after_on cb after) params ->
  Forall (after_on cb after) (hash_values hash) ->
  printPathAndParams cb owner path p params hash
    = Ok (d, p', params', hash') ->
  p' = after (path_call owner "path" path) p
  /\ params' = array_after after owner "params" params path
  /\ hash' = option_map (hash_after after (path_call owner "hash" path))
               hash.
Proof.
  intros H Hp Hh. unfold printPathAndParams, printPath. intros Hr.
  inv_bind.
  match goal with Hc : cb _ _ = Ok _ |- _ => apply H in Hc end.
  match goal with
  | Hm : printParams _ _ _ _ _ = Ok _ |- _ =>
      apply printParams_after in Hm; [|assumption..]
  end.
  intuition.
Qed.

Lemma printSubExpressionPathAndParams_after owner path p params hash d p'
    params' hash' :
  after_on cb after p ->
  Forall (after_on cb after) params ->
  Forall (after_on cb after) (hash_values hash) ->
  printSubExpressionPathAndParams cb owner path p params hash
    = Ok (d, p', params', hash') ->
  p' = after (path_call owner "path" path) p
  /\ params' = array_after after owner "params" params path
  /\ hash' = option_map (hash_after after (path_call owner "hash" path))
               hash.
Proof.
  intros H Hp Hh. unfold printSubExpressionPathAndParams, printPath.
  intros Hr. inv_bind.
  match goal with Hc : cb _ _ = Ok _ |- _ => apply H in Hc end.
  match goal with
  | Hm : printParams _ _ _ _ _ = Ok _ |- _ =>
      apply printParams_after in Hm; [|assumption..]
  end.
  intuition.
Qed.

Lemma printOpenBlock_after owner path p params hash program openStrip d
    params' hash' :
  Forall (after_on cb after) params ->
  Forall (after_on cb after) (hash_values hash) ->
  printOpenBlock cb owner path p params hash program openStrip
    = Ok (d, params', hash') ->
  params' = array_after after owner "params" params path
  /\ hash' = option_map (hash_after after (path_call owner "hash" path))
               hash.
Proof.
  intros Hp Hh. unfold printOpenBlock. intros Hr. inv_bind.
  eapply printParams_after; eassumption.
Qed.

Lemma printElseIfLikeBlock_after owner path p params hash program d
    params' hash' :
  Forall (after_on cb after) params ->
  Forall (after_on cb after) (hash_values hash) ->
  printElseIfLikeBlock cb owner path p params hash program
    = Ok (d, params', hash') ->
  params' = array_after after owner "params" params path
  /\ hash' = option_map (hash_after after (path_call owner "hash" path))
               hash.
Proof.
  intros Hp Hh. unfold printElseIfLikeBlock. intros Hr. inv_bind.
  eapply printParams_after; eassumption.
Qed.

Lemma printProgram_after owner path program d program' :
  Forall (after_on cb after) (body program) ->
  printProgram options cb owner path program = Ok (d, program') ->
  program' = body_after after (path_call owner "program" path) program.
Proof.
  intros H. unfold printProgram, blockStatementHasOnlyWhitespaceInProgram.
  destruct (forallb isWhitespaceNode (body program)) eqn:E;
    intros Hr; inv_bind; [|eapply printBody_after; eassumption].
  unfold body_after, array_after. rewrite whitespace_after by exact E.
  destruct program'; reflexivity.
Qed.

Lemma printInverse_after owner path p inverse inverseStrip d inverse' :
  Forall (after_on cb after) (inverse_body inverse) ->
  printInverse options cb owner path p inverse inverseStrip
    = Ok (d, inverse') ->
  inverse' = option_map (body_after after (path_call owner "inverse" path))
               inverse.
Proof.
  intros H. unfold printInverse. intros Hr.
  destruct inverse as [inv|]; simpl in *; inv_bind; [|reflexivity].
  f_equal. eapply printBody_after; eassumption.
Qed.

Lemma printChildren_after owner path children d children' :
  Forall (after_on cb after) children ->
  printChildren options cb owner path children = Ok (d, children') ->
  children' = array_after after owner "children" children path.
Proof.
  intros H. unfold printChildren, array_after.
  destruct (ignoreMode options && forallb isWhitespaceNode children) eqn:E;
    intros Hr; inv_bind.
  - apply andb_true_iff in E. destruct E as [_ E].
    rewrite whitespace_after by exact E. reflexivity.
  - eapply (mapM_from_after _ snd); [|eassumption].
    eapply Forall_impl; [|exact H]. intros x Hx i [dx x'] Hy. simpl in *.
    inv_bind. eapply Hx; eassumption.
Qed.

Lemma printStartingTag_after owner path tag attributes modifiers comments
    blockParams d attributes' modifiers' comments' :
  Forall (after_on cb after) attributes ->
  Forall (after_on cb after) modifiers ->
  Forall (after_on cb after) comments ->
  printStartingTag cb owner path tag attributes modifiers comments
    blockParams = Ok (d, attributes', modifiers', comments') ->
  attributes' = array_after after owner "attributes" attributes path
  /\ modifiers' = array_after after owner "modifiers" modifiers path
  /\ comments' = array_after after owner "comments" comments path.
Proof.
  intros Ha Hm Hc. unfold printStartingTag. intros Hr. inv_bind.
  repeat match goal with
         | Hm : printArray _ _ _ _ _ = Ok _ |- _ =>
             apply printArray_after in Hm; [|assumption]
         end.
  intuition.
Qed.

Lemma printElementNode_after owner path loc tag attributes modifiers
    comments children blockParams void d n' :
  Forall (after_on cb after) attributes ->
  Forall (after_on cb after) modifiers ->
  Forall (after_on cb after) comments ->
  Forall (after_on cb after) children ->
  printElementNode options cb owner path loc tag attributes modifiers
    comments children blockParams void = Ok (d, n') ->
  n' = ElementNode loc tag
         (array_after after owner "attributes" attributes path)
         (array_after after owner "modifiers" modifiers path)
         (array_after after owner "comments" comments path)
         (if isVoidElement owner then children
          else array_after after owner "children" children path)
         blockParams void.
Proof.
  intros Ha Hm Hc Hch. unfold printElementNode. intros Hr. inv_bind.
  match goal with
  | Hs : printStartingTag _ _ _ _ _ _ _ _ = Ok _ |- _ =>
      apply printStartingTag_after in Hs; [|assumption..];
      destruct Hs as (-> & -> & ->)
  end.
  destruct (isVoidElement owner); inv_bind; [reflexivity|].
  destruct (List.length children =? 0)%nat eqn:E; inv_bind.
  { destruct children; [reflexivity | discriminate E]. }
  destruct (ignoreMode options); inv_bind;
    match goal with
    | Hs : printChildren _ _ _ _ _ = Ok _ |- _ =>
        apply printChildren_after in Hs; [|assumption]; subst
    end; reflexivity.
Qed.

Lemma printBlockStatement_after owner path loc p params hash program
    inverse openStrip inverseStrip closeStrip d n' :
  Forall (after_on cb after) params ->
  Forall (after_on cb after) (hash_values hash) ->
  Forall (after_on cb after) (body program) ->
  Forall (after_on cb after) (inverse_body inverse) ->
  printBlockStatement options cb owner path loc p params hash program
    inverse openStrip inverseStrip closeStrip = Ok (d, n') ->
  n' = BlockStatement loc
         (if isElseIfLike path owner then p else closed_path p)
         (array_after after owner "params" params path)
         (option_map (hash_after after (path_call owner "hash" path)) hash)
         (body_after after (path_call owner "program" path) program)
         (option_map (body_after after (path_call owner "inverse" path))
            inverse)
         openStrip inverseStrip closeStrip.
Proof.
  intros Hp Hh Hb Hi. unfold printBlockStatement, printCloseBlock.
  destruct (isElseIfLike path owner); intros Hr; inv_bind;
    repeat match goal with
           | Hs : printElseIfLikeBlock _ _ _ _ _ _ _ = Ok _ |- _ =>
               apply printElseIfLikeBlock_after in Hs; [|assumption..];
               destruct Hs as (-> & ->)
           | Hs : printOpenBlock _ _ _ _ _ _ _ _ = Ok _ |- _ =>
               apply printOpenBlock_after in Hs; [|assumption..];
               destruct Hs as (-> & ->)
           | Hs : printProgram _ _ _ _ _ = Ok _ |- _ =>
               apply printProgram_after in Hs; [|assumption]; subst
           | Hs : printInverse _ _ _ _ _ _ _ = Ok _ |- _ =>
               apply printInverse_after in Hs; [|assumption]; subst
           end; reflexivity.
Qed.

Lemma printAttrNode_after owner path loc name value d n' :
  owner = AttrNode loc name value ->
  after_on cb after value ->
  printAttrNode options cb owner path loc name value = Ok (d, n') ->
  n' = AttrNode loc name (after (path_call owner "value" path) value).
Proof.
  intros -> H. unfold printAttrNode.
  match goal with
  | |- context [if ?c then _ else _] => destruct c eqn:E
  end; intros Hr; inv_bind.
  - apply andb_true_iff in E. destruct E as [E _].
    destruct value; try discriminate E. rewrite after_text. reflexivity.
  - match goal with Hc : cb _ _ = Ok _ |- _ => apply H in Hc; subst end.
    reflexivity.
Qed.
End HelpersAfter.

(** When [print] returns, the tree is the one that [tree_after_print]
    describes. *)
Lemma print_after (options : Options) (n : node) :
  after_on (print options) tree_after_print n.
Proof.
  induction n as [n IH] using node_children_ind.
  intros path d n'.
  destruct n; simpl in IH; split_Forall; cbn [print tree_after_print];
    intros Hprint; inv_bind; try reflexivity.
  - f_equal. eapply printBody_after; eassumption.
  - eapply (printElementNode_after options (print options)
              tree_after_print (fun _ _ _ => eq_refl)); eassumption.
  - eapply (printBlockStatement_after options (print options)
              tree_after_print (fun _ _ _ => eq_refl)); eassumption.
  - match goal with
    | Hs : printPathAndParams _ _ _ _ _ _ = Ok _ |- _ =>
        apply (printPathAndParams_after _ tree_after_print) in Hs;
        [|assumption..]; destruct Hs as (-> & -> & ->)
    end. reflexivity.
  - match goal with
    | Hs : printPathAndParams _ _ _ _ _ _ = Ok _ |- _ =>
        apply (printPathAndParams_after _ tree_after_print) in Hs;
        [|assumption..]; destruct Hs as (-> & -> & ->)
    end. reflexivity.
  - match goal with
    | Hs : printSubExpressionPathAndParams _ _ _ _ _ _ = Ok _ |- _ =>
        apply (printSubExpressionPathAndParams_after _ tree_after_print)
          in Hs;
        [|assumption..]; destruct Hs as (-> & -> & ->)
    end. reflexivity.
  - eapply (printAttrNode_after options (print options)
              tree_after_print (fun _ _ _ => eq_refl)); try eassumption.
    reflexivity.
  - f_equal. eapply printArray_after; eassumption.
  - f_equal. eapply printHash_after; eassumption.
  - f_equal. eapply printHashPair_after; eassumption.
  - discriminate.
Qed.

Lemma map_from_fixed {A : Type} (g : nat -> A -> A) (l : list A) :
  Forall (fun x => forall i, g i x = x) l ->
  forall i, map_from g i l = l.
Proof.
  induction 1 as [|x r Hx _ IH]; simpl; intros i; [reflexivity|].
  rewrite Hx, IH. reflexivity.
Qed.

Lemma closed_path_fixed (p : PathData) :
  Js.startsWith (original p) "> " = false -> closed_path p = p.
Proof. unfold closed_path. intros ->. reflexivity. Qed.

(** The tree that [tree_after_print] describes is the tree itself when no
    block statement carries the marker of a partial block. *)
Lemma tree_after_print_fixed (n : node) :
  no_partial_marker n = true -> forall path, tree_after_print path n = n.
Proof.
  induction n as [n IH] using node_children_ind. intros Hc.
  pose proof (Forall_mp _ _ _ IH (all_nodes_children _ _ Hc)) as Hch.
  apply all_nodes_own in Hc.
  clear IH. intros path.
  destruct n as
    [ [k bl bd bp] | l t at_ mo co ch bp v
    | l p pa [[hl ps]|] [k bl bd bp] [[ik il ib ibp]|] s1 s2 s3
    | l p pa [[hl ps]|] | l p pa [[hl ps]|] e st | l p pa [[hl ps]|]
    | l nm v | l pts | [hl ps] | [pl k v] | | | | | | | | | | ];
    cbn [children_of hash_values inverse_body body pairs value] in Hch;
    split_Forall;
    repeat match goal with
           | H : Forall _ (map value _) |- _ =>
               apply (proj1 (Forall_map _ _ _)) in H
           end;
    cbn [tree_after_print option_map];
    unfold body_after, hash_after, array_after;
    cbn [body pairs value kind body_loc blockParams hash_loc];
    repeat match goal with
           | |- context [map_from ?g ?i ?l] =>
               rewrite (map_from_fixed g l)
                 by (eapply Forall_impl; [|eassumption]; cbv beta;
                     first
                       [ intros ? Hx ?; apply Hx
                       | intros [xl xk xv] Hx ?; unfold hashPair_after;
                         cbn [value pair_loc key] in *; rewrite Hx;
                         reflexivity ])
           | H : forall path, tree_after_print path ?c = ?c |- _ =>
               rewrite H; clear H
           end;
    try reflexivity.
  - destruct v; reflexivity.
  - apply negb_true_iff in Hc. rewrite (closed_path_fixed p Hc).
    destruct (isElseIfLike path _); reflexivity.
  - apply negb_true_iff in Hc. rewrite (closed_path_fixed p Hc).
    destruct (isElseIfLike path _); reflexivity.
  - apply negb_true_iff in Hc. rewrite (closed_path_fixed p Hc).
    destruct (isElseIfLike path _); reflexivity.
  - apply negb_true_iff in Hc. rewrite (closed_path_fixed p Hc).
    destruct (isElseIfLike path _); reflexivity.
  - unfold hashPair_after. cbn [value pair_loc key].
    match goal with
    | H : forall path, tree_after_print path v = v |- _ => rewrite H
    end.
    reflexivity.
Qed.

(** C2, as stated, fails: printing the partial block
    [{{#> layout}}B{{/layout}}] replaces the path of the block statement,
    so the tree after the pass differs from the tree before it. *)
Lemma print_rewrites_partial_block_path :
  exists d n',
    print sensitive_options [] (Body (template_of [partial_block]))
      = Ok (d, n')
    /\ n' <> Body (template_of [partial_block]).
Proof.
  eexists. eexists. split; [vm_compute; reflexivity | discriminate].
Qed.

(** C2, amended: a print pass leaves every node of the tree as it found it
    whenever no block statement of the tree has a path whose original
    spelling starts with the marker ["> "] of a partial block; and the one
    field that [print] itself assigns is the path of a block statement that
    it closes: when the original spelling starts with the marker, the path
    is replaced by a copy whose original spelling has every marker removed
    and whose parts are that spelling alone.  In full: whenever [print]
    returns, the tree is the one that [tree_after_print] describes, in
    which every field of every node is the one found but for the path of
    each block statement that is closed, at any depth, and that tree is
    the tree found when no path starts with the marker. *)
Theorem print_leaves_tree_unchanged (options : Options) (path : AstPath)
    (n : node) :
  (no_partial_marker n = true ->
   match print options path n with
   | Ok (_, n') => n' = n
   | Err _ => True
   end)
  /\ (forall loc p params hash program inverse s1 s2 s3 d n',
        n = BlockStatement loc p params hash program inverse s1 s2 s3 ->
        isElseIfLike path n = false ->
        print options path n = Ok (d, n') ->
        exists params' hash' program' inverse',
          n' = BlockStatement loc
                 (if Js.startsWith (original p) "> "
                  then mkPath (Js.replaceAll (original p) "> " "")
                         [Js.replaceAll (original p) "> " ""] (path_loc p)
                  else p)
                 params' hash' program' inverse' s1 s2 s3)
  /\ (forall d n', print options path n = Ok (d, n') ->
      n' = tree_after_print path n)
  /\ (no_partial_marker n = true -> tree_after_print path n = n).
Proof.
  split; [|split; [|split]].
  - intros H.
    destruct (print options path n) as [[d n']|e] eqn:E; [|exact I].
    eapply print_stable; eassumption.
  - intros loc p params hash program inverse s1 s2 s3 d n' -> He H.
    simpl in H. unfold printBlockStatement in H. rewrite He in H.
    unfold printCloseBlock in H. inv_bind.
    eexists. eexists. eexists. eexists. reflexivity.
  - intros d n' H. eapply print_after; eassumption.
  - intros H. apply tree_after_print_fixed. exact H.
Qed.

Lemma print_leaves_tree_unchanged_witness :
  (no_partial_marker (Body (template_of [outer_if])) = true
   /\ match print sensitive_options [] (Body (template_of [outer_if])) with
      | Ok (_, n') => n' = Body (template_of [outer_if])
      | Err _ => True
      end)
  /\ (exists params' hash' program' inverse',
        snd (match print sensitive_options [] partial_block with
             | Ok r => r
             | Err _ => (DStr "", partial_block)
             end)
        = BlockStatement no_loc (mkPath "layout" ["layout"] no_loc)
            params' hash' program' inverse' no_strip no_strip no_strip)
  /\ snd (match
            print sensitive_options []
              (Body (template_of [outer_if; partial_block]))
          with
          | Ok r => r
          | Err _ => (DStr "", partial_block)
          end)
     = tree_after_print [] (Body (template_of [outer_if; partial_block]))
  /\ tree_after_print [] (Body (template_of [outer_if]))
     = Body (template_of [outer_if]).
Proof.
  split; [|split; [|split]].
  - split; [reflexivity|].
    apply (proj1 (print_leaves_tree_unchanged sensitive_options []
                    (Body (template_of [outer_if])))).
    reflexivity.
  - destruct (print sensitive_options [] partial_block) as [[d n']|e] eqn:E;
      [|vm_compute in E; discriminate E].
    exact (proj1 (proj2 (print_leaves_tree_unchanged sensitive_options []
                           partial_block))
             no_loc (mkPath "> layout" ["> layout"] no_loc) [] None
             (block_of [TextNode no_loc "B"]) None
             no_strip no_strip no_strip d n' eq_refl eq_refl E).
  - destruct (print sensitive_options []
                (Body (template_of [outer_if; partial_block])))
      as [[d n']|e] eqn:E; [|vm_compute in E; discriminate E].
    exact (proj1 (proj2 (proj2
             (print_leaves_tree_unchanged sensitive_options []
                (Body (template_of [outer_if; partial_block])))))
             d n' E).
  - apply (proj2 (proj2 (proj2
             (print_leaves_tree_unchanged sensitive_options []
                (Body (template_of [outer_if])))))).
    reflexivity.
Defined.

(** ** The dispatch on the kind of a node *)

Lemma unlisted_is_Other (n : node) :
  in_dispatch (type_of n) = false -> exists t u l, n = Other t u l.
Proof.
  destruct n as [[[] ? ? ?]| | | | | | | | | | | | | | | | | | |];
    simpl; intros H; try discriminate H; eauto.
Qed.

Section FailsOnly.
Variable E : PrintError -> Prop.

Lemma fails_only_bind {A B : Type} (r : Result A) (f : A -> Result B) :
  fails_only E r -> (forall a, fails_only E (f a)) ->
  fails_only E (bind r f).
Proof. destruct r; simpl; auto. Qed.

Lemma fails_only_mapM {A B : Type} (f : nat -> A -> Result B)
    (l : list A) :
  Forall (fun x => forall i, fails_only E (f i x)) l ->
  forall i, fails_only E (mapM_from f i l).
Proof.
  induction 1 as [|x r Hx _ IH]; intros i; simpl; [exact I|].
  apply fails_only_bind; [apply Hx|]. intros y.
  apply fails_only_bind; [apply IH|]. intros ys. exact I.
Qed.
End FailsOnly.

Ltac fails_step :=
  match goal with
  | |- fails_only _ (Ok _) => exact I
  | H : forall path, fails_only _ (?cb path ?c)
    |- fails_only _ (?cb _ ?c) => apply H
  | |- fails_only _ (bind _ _) => apply fails_only_bind; [|intros ?]
  | |- fails_only _ (mapM_from _ _ _) =>
      apply fails_only_mapM;
      (eapply Forall_impl; [|eassumption]); cbv beta; intros ? ? ?
  | |- fails_only _ (match ?x with (_, _) => _ end) => destruct x
  | |- fails_only _ (if ?b then _ else _) => destruct b
  end.

(** The helpers of [print], opened up to the calls of the callback *)
Ltac open_helpers :=
  unfold printElementNode, printBlockStatement, printAttrNode,
    printStartingTag, printChildren, printOpenBlock, printElseIfLikeBlock,
    printProgram, printInverse, printPathAndParams,
    printSubExpressionPathAndParams, printParams, printPath, printBody,
    printHash, printHashPair, printArray.

Lemma mentions_child (t : string) (n c : node) :
  In c (children_of n) -> mentions t c = true -> mentions t n = true.
Proof.
  unfold mentions. intros Hin Hc.
  apply negb_true_iff in Hc. apply negb_true_iff.
  match goal with
  | |- all_nodes ?own n = false => destruct (all_nodes own n) eqn:Hn
  end; [|reflexivity].
  pose proof (all_nodes_children _ _ Hn) as Hall.
  rewrite Forall_forall in Hall. rewrite (Hall c Hin) in Hc. discriminate.
Qed.

(** [print] raises no error but that of an unexpected node, on a kind that
    it does not list and that a node of the tree has. *)
Lemma print_fails_only (options : Options) (n : node) :
  forall path,
    fails_only (fun e => exists t, e = UnexpectedNodeError t "Handlebars"
                                   /\ in_dispatch t = false
                                   /\ mentions t n = true)
      (print options path n).
Proof.
  induction n as [n IH] using node_children_ind.
  assert (Hch : Forall
                  (fun c => forall path,
                     fails_only
                       (fun e => exists t,
                          e = UnexpectedNodeError t "Handlebars"
                          /\ in_dispatch t = false
                          /\ mentions t n = true)
                       (print options path c)) (children_of n)).
  { rewrite Forall_forall in *. intros c Hin path.
    specialize (IH c Hin path).
    destruct (print options path c) as [r|e]; [exact I|].
    destruct IH as (t & -> & Hu & Hm). exists t.
    split; [reflexivity|]. split; [exact Hu|].
    eapply mentions_child; eassumption. }
  clear IH.
  set (E := fun e => exists t, e = UnexpectedNodeError t "Handlebars"
                               /\ in_dispatch t = false
                               /\ mentions t n = true) in *.
  intros path.
  destruct n as
    [ [k bl bd bp] | l t at_ mo co ch bp v
    | l p pa [[hl ps]|] [k bl bd bp] [[ik il ib ibp]|] s1 s2 s3
    | l p pa [[hl ps]|] | l p pa [[hl ps]|] e st | l p pa [[hl ps]|]
    | l nm v | l pts | [hl ps] | [pl k v] | | | | | | | | | | ];
    cbn [children_of hash_values inverse_body body pairs value] in Hch;
    split_Forall;
    repeat match goal with
           | H : Forall _ (map value _) |- _ =>
               apply (proj1 (Forall_map _ _ _)) in H
           end;
    cbn [print]; open_helpers; cbn [body pairs value kind];
    try (repeat fails_step; fail).
  exists type. split; [reflexivity|]. split; [assumption|].
  unfold mentions. simpl. rewrite String.eqb_refl. reflexivity.
Qed.

Lemma Forall_forallb_mp {A : Type} (f : A -> bool) (P : A -> Prop)
    (l : list A) :
  Forall (fun x => f x = true -> P x) l ->
  forallb f l = true -> Forall P l.
Proof.
  induction 1 as [|x r Hx _ IH]; simpl; intros H; constructor;
    apply andb_true_iff in H; destruct H; auto.
Qed.

Lemma Forall_forallb_value_mp (f : node -> bool) (P : node -> Prop)
    (l : list (HashPairData node)) :
  Forall (fun x => f (value x) = true -> P (value x)) l ->
  forallb (fun x => f (value x)) l = true ->
  Forall (fun x => P (value x)) l.
Proof.
  induction 1 as [|x r Hx _ IH]; simpl; intros H; constructor;
    apply andb_true_iff in H; destruct H; auto.
Qed.

(** [print] returns on every tree in which the nodes that it comes to are
    of the kinds that it lists. *)
Lemma print_returns_on_reached (options : Options) (n : node) :
  reaches_listed_only n = true ->
  forall path, fails_only (fun _ => False) (print options path n).
Proof.
  induction n as [n IH] using node_children_ind. intros Hr path.
  destruct n as
    [ [k bl bd bp] | l t at_ mo co ch bp v
    | l p pa [[hl ps]|] [k bl bd bp] [[ik il ib ibp]|] s1 s2 s3
    | l p pa [[hl ps]|] | l p pa [[hl ps]|] e st | l p pa [[hl ps]|]
    | l nm v | l pts | [hl ps] | [pl k v] | | | | | | | | | | ];
    cbn [children_of hash_values inverse_body body pairs value] in IH;
    split_Forall;
    repeat match goal with
           | H : Forall _ (map value _) |- _ =>
               apply (proj1 (Forall_map _ _ _)) in H
           end;
    cbn [reaches_listed_only body pairs value] in Hr;
    try discriminate Hr;
    repeat match goal with
           | H : _ && _ = true |- _ =>
               apply andb_true_iff in H; destruct H
           end;
    cbv beta in *;
    repeat match goal with
           | HI : Forall _ ?x, H : forallb _ ?x = true |- _ =>
               first
                 [ pose proof (Forall_forallb_mp _ _ _ HI H)
                 | pose proof (Forall_forallb_value_mp _ _ _ HI H) ];
               clear HI H
           | HI : reaches_listed_only ?c = true -> _,
             H : reaches_listed_only ?c = true |- _ =>
               specialize (HI H)
           end;
    cbn [print]; open_helpers; cbn [body pairs value kind isVoidElement];
    try (repeat fails_step; fail).
  destruct v; cbn [orb] in *; [repeat fails_step|].
  match goal with
  | HI : Forall _ ch, H : forallb _ ch = true |- _ =>
      pose proof (Forall_forallb_mp _ _ _ HI H); clear HI H
  end.
  repeat fails_step.
Qed.

Lemma fails_never {A : Type} (r : Result A) :
  fails_only (fun _ => False) r -> exists a, r = Ok a.
Proof. destruct r; simpl; [eauto | contradiction]. Qed.

Lemma mapM_from_Ok_forallb {A B : Type} (f : nat -> A -> Result B)
    (g : A -> bool) (l : list A) :
  Forall (fun x => forall i y, f i x = Ok y -> g x = true) l ->
  forall i ys, mapM_from f i l = Ok ys -> forallb g l = true.
Proof.
  induction 1 as [|x r Hx _ IH]; simpl; intros i ys H; [reflexivity|].
  inv_bind. apply andb_true_intro. split; eauto.
Qed.

Lemma whitespace_reached (l : list node) :
  forallb isWhitespaceNode l = true ->
  forallb reaches_listed_only l = true.
Proof.
  induction l as [|x r IH]; simpl; intros H; [reflexivity|].
  apply andb_true_iff in H. destruct H as [Hx Hr].
  rewrite (IH Hr). destruct x; try discriminate Hx. reflexivity.
Qed.

Lemma length_0_nil {A : Type} (l : list A) :
  (0 <? List.length l)%nat = false -> l = [].
Proof. destruct l; [reflexivity | discriminate]. Qed.

(** [print] returns only on a tree in which the nodes that it comes to are
    of the kinds that it lists. *)
Lemma print_returns_only_on_reached (options : Options) (n : node) :
  forall path r, print options path n = Ok r ->
  reaches_listed_only n = true.
Proof.
  induction n as [n IH] using node_children_ind. intros path r H.
  destruct n as
    [ [k bl bd bp] | l t at_ mo co ch bp v
    | l p pa [[hl ps]|] [k bl bd bp] [[ik il ib ibp]|] s1 s2 s3
    | l p pa [[hl ps]|] | l p pa [[hl ps]|] e st | l p pa [[hl ps]|]
    | l nm v | l pts | [hl ps] | [pl k v] | | | | | | | | | | ];
    cbn [children_of hash_values inverse_body body pairs value] in IH;
    split_Forall;
    repeat match goal with
           | H : Forall _ (map value _) |- _ =>
               apply (proj1 (Forall_map _ _ _)) in H
           end;
    cbv beta in *;
    cbn [print] in H; try discriminate H;
    unfold printElementNode, printBlockStatement, printAttrNode,
      printStartingTag, printChildren, printOpenBlock, printElseIfLikeBlock,
      printProgram, printInverse, printPathAndParams,
      printSubExpressionPathAndParams, printParams, printPath, printBody,
      printHash, printHashPair, printArray,
      blockStatementHasOnlyWhitespaceInProgram in H;
    cbn [body pairs value kind isVoidElement] in H;
    cbn [reaches_listed_only body pairs value];
    repeat first
      [ progress inv_bind
      | match goal with
        | H : (if ?b then _ else _) = Ok _ |- _ => destruct b eqn:?
        end ];
    repeat (apply andb_true_intro; split);
    cbn [orb];
    try reflexivity;
    repeat match goal with
           | H : _ && _ = true |- _ =>
               apply andb_true_iff in H; destruct H
           | H : (List.length ?l =? 0)%nat = true |- _ =>
               destruct l; [clear H | discriminate H]
           | H : (0 <? List.length ?l)%nat = false |- _ =>
               apply length_0_nil in H; subst l
           end;
    try reflexivity.
  all: try match goal with
    | Hm : mapM_from _ _ ?l = Ok _ |- forallb _ ?l = true =>
        eapply mapM_from_Ok_forallb; [|exact Hm];
        (eapply Forall_impl; [|eassumption]); cbv beta;
        intros ? ? ? ? ?; inv_bind; eauto
    | HI : forall path r, print _ path ?c = Ok r -> _,
      H : print _ _ ?c = Ok _ |- reaches_listed_only ?c = true =>
        exact (HI _ _ H)
    | H : forallb isWhitespaceNode ?l = true |- forallb _ ?l = true =>
        apply whitespace_reached; exact H
    end.
  destruct v; try discriminate H. reflexivity.
Qed.

(** C5, as stated, fails: a void element that holds a node of a kind
    outside the dispatch is printed, and no error is raised, since the
    children of a void element are not printed. *)
Lemma void_element_drops_unlisted_child :
  closed void_with_unlisted_child = false
  /\ mentions "Decorator" void_with_unlisted_child = true
  /\ exists d,
       print sensitive_options []
         (Body (template_of [void_with_unlisted_child]))
       = Ok (d, Body (template_of [void_with_unlisted_child])).
Proof.
  split; [reflexivity|]. split; [reflexivity|].
  eexists. vm_compute. reflexivity.
Qed.

(** C5, amended: [print] returns a document on every tree made of the
    kinds that it lists and, more generally, on every tree in which the
    nodes that it comes to are of these kinds; it comes to every node but
    those below a void element.  On every other tree it fails with the
    error of an unexpected node, for the language Handlebars, that names a
    kind outside the dispatch which a node of the tree has; on a node that
    is itself of such a kind the error names the kind of the node.  The
    error of a node that the printer comes to, at any depth, thus ends the
    printing of the whole tree. *)
Theorem print_total_or_unexpected_node (options : Options) (path : AstPath)
    (n : node) :
  (closed n = true -> exists d n', print options path n = Ok (d, n'))
  /\ (reaches_listed_only n = true ->
      exists d n', print options path n = Ok (d, n'))
  /\ (reaches_listed_only n = false ->
      exists t,
        print options path n = Err (UnexpectedNodeError t "Handlebars")
        /\ in_dispatch t = false /\ mentions t n = true)
  /\ (in_dispatch (type_of n) = false ->
      print options path n
        = Err (UnexpectedNodeError (type_of n) "Handlebars")).
Proof.
  split; [|split; [|split]].
  - intros H. destruct (print_total options n H path) as [[d n'] E]. eauto.
  - intros H.
    destruct (fails_never _ (print_returns_on_reached options n H path))
      as [[d n'] E].
    eauto.
  - intros H. pose proof (print_fails_only options n path) as F.
    destruct (print options path n) as [r|e] eqn:E.
    + rewrite (print_returns_only_on_reached options n path r E) in H.
      discriminate H.
    + destruct F as (t & -> & Hu & Hm). exists t. auto.
  - intros H. destruct (unlisted_is_Other n H) as (t & u & l & ->).
    reflexivity.
Qed.

Lemma print_total_or_unexpected_node_witness :
  (exists d n',
     print sensitive_options [] (Body (template_of [outer_if])) = Ok (d, n'))
  /\ (exists d n',
        print sensitive_options []
          (Body (template_of [void_with_unlisted_child])) = Ok (d, n'))
  /\ (exists t,
        print sensitive_options []
          (Body (template_of
                   [ElementNode no_loc "p" [] [] []
                      [outer_if; Other "PartialStatement" eq_refl no_loc]
                      [] false]))
        = Err (UnexpectedNodeError t "Handlebars")
        /\ in_dispatch t = false
        /\ mentions t
             (Body (template_of
                      [ElementNode no_loc "p" [] [] []
                         [outer_if; Other "PartialStatement" eq_refl no_loc]
                         [] false])) = true)
  /\ print sensitive_options [] (Other "PartialStatement" eq_refl no_loc)
     = Err (UnexpectedNodeError "PartialStatement" "Handlebars").
Proof.
  split; [|split; [|split]].
  - apply (proj1 (print_total_or_unexpected_node sensitive_options []
                    (Body (template_of [outer_if])))).
    reflexivity.
  - apply (proj1 (proj2 (print_total_or_unexpected_node sensitive_options []
                           (Body (template_of
                                    [void_with_unlisted_child]))))).
    reflexivity.
  - apply (proj1 (proj2 (proj2
             (print_total_or_unexpected_node sensitive_options []
                (Body (template_of
                         [ElementNode no_loc "p" [] [] []
                            [outer_if;
                             Other "PartialStatement" eq_refl no_loc]
                            [] false])))))).
    reflexivity.
  - apply (proj2 (proj2 (proj2
             (print_total_or_unexpected_node sensitive_options []
                (Other "PartialStatement" eq_refl no_loc))))).
    reflexivity.
Defined.

(** ** The root of the tree *)

(** A run of white space at either end of the children of a template is
    printed as the empty string, in both modes. *)
Lemma template_edge_whitespace_discarded (options : Options)
    (path : AstPath) (chars : string) :
  getCurrentAttributeName path = None ->
  type_is (parent path) "Template" = true ->
  isFirst path || isLast path = true ->
  htmlWhitespaceUtils.isWhitespaceOnly (escapedText chars) = true ->
  printTextNode options path chars = DStr "".
Proof.
  intros Ha Hp He Hw. unfold printTextNode. rewrite Ha.
  destruct (ignoreMode options); simpl.
  - unfold printTextIgnore. rewrite Hw, Hp, He.
    rewrite !orb_true_r. reflexivity.
  - unfold printTextSensitive. rewrite Hw, Hp. rewrite !andb_true_r.
    rewrite He. reflexivity.
Qed.

(** C10: the document of a root template is a group whose contents are the
    documents of the children followed by one forced line, and a run of
    white space that is the first or the last child adds nothing. *)
Theorem template_ends_with_forced_line (options : Options)
    (b : BodyData node) :
  kind b = Template ->
  closed (Body b) = true ->
  exists docs n',
    print options [] (Body b)
      = Ok (group (DArr (docs ++ [DLineObject false true false])), n')
    /\ List.length docs = List.length (body b)
    /\ forall i loc chars,
         nth_error (body b) i = Some (TextNode loc chars) ->
         htmlWhitespaceUtils.isWhitespaceOnly (escapedText chars) = true ->
         i = 0 \/ S i = List.length (body b) ->
         nth_error docs i = Some (DStr "").
Proof.
  intros Hk Hc.
  pose proof (all_nodes_children _ _ Hc) as Hch. simpl in Hch.
  assert (Ht : Forall (total_on (print options)) (body b)).
  { eapply Forall_impl; [|exact Hch]. intros x Hx. apply print_total, Hx. }
  destruct (printArray_total (print options) (Body b) "body" (body b) [] Ht)
    as [r Hr].
  exists (map fst r), (Body (mkBody (kind b) (body_loc b) (map snd r)
                              (blockParams b))).
  split; [|split].
  - simpl. unfold printBody. rewrite Hr. simpl. rewrite Hk. reflexivity.
  - rewrite length_map. eapply mapM_from_length, Hr.
  - intros i loc chars Hi Hw He.
    destruct (mapM_from_nth _ _ _ _ Hr i _ Hi) as (y & Hy & Hp).
    simpl in Hp. inversion Hp; subst; clear Hp.
    unfold Printed in *. rewrite nth_error_map, Hy. simpl. f_equal.
    apply template_edge_whitespace_discarded.
    + reflexivity.
    + simpl. rewrite Hk. reflexivity.
    + unfold isFirst, isLast, siblings, index, path_at.
      cbn [fr_array option_map fst snd].
      destruct He as [->|He]; [reflexivity|].
      rewrite He, Nat.eqb_refl. apply orb_true_r.
    + exact Hw.
Qed.

Lemma template_ends_with_forced_line_witness :
  exists docs n',
    print sensitive_options []
      (Body (template_of [TextNode no_loc " "; outer_if; TextNode no_loc " "]))
      = Ok (group (DArr (docs ++ [DLineObject false true false])), n')
    /\ List.length docs = 3
    /\ forall i loc chars,
         nth_error [TextNode no_loc " "; outer_if; TextNode no_loc " "] i
           = Some (TextNode loc chars) ->
         htmlWhitespaceUtils.isWhitespaceOnly (escapedText chars) = true ->
         i = 0 \/ S i = 3 ->
         nth_error docs i = Some (DStr "").
Proof.
  apply (template_ends_with_forced_line sensitive_options
           (template_of [TextNode no_loc " "; outer_if; TextNode no_loc " "]));
    reflexivity.
Defined.

(** ** Strings *)

Section StringFacts.
Variable p : ascii -> bool.

Lemma count_trailing_le (s : string) :
  Js.count_trailing p s <= String.length s.
Proof.
  induction s as [|c r IH]; simpl; [lia|].
  destruct (p c && Js.all_chars p r); simpl; lia.
Qed.

Lemma count_trailing_cons (c : ascii) (r : string) :
  Js.all_chars p r = false ->
  Js.count_trailing p (String c r) = Js.count_trailing p r.
Proof. intros H. simpl. rewrite H, andb_false_r. reflexivity. Qed.

Lemma cut_end_cons (c : ascii) (r : string) :
  Js.all_chars p r = false ->
  cut_end p (String c r) = String c (cut_end p r).
Proof.
  intros H. unfold cut_end. rewrite count_trailing_cons by assumption.
  pose proof (count_trailing_le r).
  replace (String.length (String c r) - Js.count_trailing p r)
    with (S (String.length r - Js.count_trailing p r))
    by (change (String.length (String c r)) with (S (String.length r)); lia).
  reflexivity.
Qed.

Lemma cut_end_all (s : string) :
  Js.all_chars p s = true -> cut_end p s = EmptyString.
Proof.
  intros H. unfold cut_end. destruct s as [|c r]; [reflexivity|].
  simpl in H. simpl Js.count_trailing. rewrite H.
  rewrite Nat.sub_diag. reflexivity.
Qed.

Lemma count_trailing_all (s : string) :
  Js.all_chars p s = true -> Js.count_trailing p s = String.length s.
Proof.
  destruct s as [|c r]; [reflexivity|]. intros H. simpl in H.
  simpl Js.count_trailing. rewrite H. reflexivity.
Qed.

Lemma cut_end_last (c : ascii) (r : string) :
  p c = false -> Js.all_chars p r = true ->
  cut_end p (String c r) = String c EmptyString.
Proof.
  intros Hc Hr. unfold cut_end. simpl Js.count_trailing.
  rewrite Hc. cbn [andb]. rewrite (count_trailing_all r Hr).
  change (String.length (String c r)) with (S (String.length r)).
  replace (S (String.length r) - String.length r) with 1 by lia.
  reflexivity.
Qed.

Lemma cut_end_nonempty (s : string) :
  Js.all_chars p s = false -> exists c t, cut_end p s = String c t.
Proof.
  destruct s as [|c r]; simpl; [discriminate|]. intros H.
  destruct (Js.all_chars p r) eqn:Hr.
  - rewrite andb_true_r in H. rewrite cut_end_last by assumption. eauto.
  - rewrite cut_end_cons by assumption. eauto.
Qed.

Lemma last_is_cut_end (s : string) : Js.last_is p (cut_end p s) = false.
Proof.
  induction s as [|c r IH]; [reflexivity|].
  destruct (Js.all_chars p r) eqn:Hr.
  - destruct (p c) eqn:Hc.
    + rewrite cut_end_all; [reflexivity|]. simpl. rewrite Hc, Hr.
      reflexivity.
    + rewrite cut_end_last by assumption. exact Hc.
  - rewrite cut_end_cons by assumption.
    destruct (cut_end_nonempty r Hr) as (d & t & E).
    rewrite E in *. exact IH.
Qed.

Lemma first_is_cut_end (c : ascii) (r : string) :
  p c = false -> exists t, cut_end p (String c r) = String c t.
Proof.
  intros Hc. unfold cut_end. simpl Js.count_trailing. rewrite Hc.
  cbn [andb]. pose proof (count_trailing_le r).
  replace (String.length (String c r) - Js.count_trailing p r)
    with (S (String.length r - Js.count_trailing p r))
    by (change (String.length (String c r)) with (S (String.length r)); lia).
  simpl. eauto.
Qed.


Lemma all_chars_skip_while (s : string) :
  Js.all_chars p s = false -> Js.all_chars p (Js.skip_while p s) = false.
Proof.
  induction s as [|c r IH]; simpl; [discriminate|].
  destruct (p c) eqn:Hc; simpl; intros H; [auto|].
  rewrite Hc. reflexivity.
Qed.

Lemma last_is_cons (c : ascii) (r : string) :
  r <> EmptyString -> Js.last_is p (String c r) = Js.last_is p r.
Proof. destruct r; [congruence | reflexivity]. Qed.

Lemma last_is_app (a b : string) :
  b <> EmptyString -> Js.last_is p (a ++ b) = Js.last_is p b.
Proof.
  intros Hb. induction a as [|c r IH]; simpl; [reflexivity|].
  rewrite <- IH. destruct (r ++ b)%string eqn:E; [|reflexivity].
  destruct r; simpl in E; [congruence | discriminate].
Qed.


Lemma drop_count_trailing (s : string) :
  Js.drop (String.length s - Js.count_trailing p s) s = trailing_run p s.
Proof.
  induction s as [|c r IH]; [reflexivity|].
  simpl Js.count_trailing. simpl trailing_run.
  destruct (p c && Js.all_chars p r).
  - rewrite Nat.sub_diag. reflexivity.
  - pose proof (count_trailing_le r).
    replace (String.length (String c r) - Js.count_trailing p r)
      with (S (String.length r - Js.count_trailing p r))
      by (change (String.length (String c r)) with (S (String.length r)); lia).
    exact IH.
Qed.

Lemma trailing_run_skip_while (s : string) :
  Js.all_chars p s = false ->
  trailing_run p (Js.skip_while p s) = trailing_run p s.
Proof.
  induction s as [|c r IH]; simpl; [reflexivity|].
  destruct (p c) eqn:Hc; simpl; intros H.
  - rewrite H. auto.
  - rewrite Hc. reflexivity.
Qed.

Lemma drop_take_while (s : string) :
  Js.drop (String.length (Js.take_while p s)) s = Js.skip_while p s.
Proof.
  induction s as [|c r IH]; simpl; [reflexivity|].
  destruct (p c); simpl; [exact IH | reflexivity].
Qed.

Lemma take_while_empty (s : string) :
  Js.take_while p s = EmptyString -> Js.skip_while p s = s.
Proof.
  destruct s as [|c r]; simpl; [reflexivity|].
  destruct (p c); [discriminate | reflexivity].
Qed.
End StringFacts.

(** ** Paths *)

Lemma type_is_Some (x : option node) (t : string) :
  type_is x t = true -> exists n, x = Some n /\ type_of n = t.
Proof.
  destruct x as [n|]; simpl; [|discriminate].
  intros H. apply String.eqb_eq in H. eauto.
Qed.


Lemma next_not_last (path : AstPath) (n : node) :
  next path = Some n -> isLast path = false.
Proof.
  unfold next, isLast.
  destruct (siblings path) as [l|]; [|reflexivity].
  destruct (index path) as [i|]; [|reflexivity].
  intros H. apply Nat.eqb_neq.
  assert (S i < List.length l) by (apply nth_error_Some; congruence).
  lia.
Qed.

Lemma previous_not_first (path : AstPath) (n : node) :
  previous path = Some n -> isFirst path = false.
Proof.
  unfold previous, isFirst.
  destruct (siblings path) as [l|];
    destruct (index path) as [[|i]|]; try reflexivity; discriminate.
Qed.

(** ** Text runs next to a mustache *)




(** ** Forced breaks around a text run *)

Section CountLeading.
Variable p : Doc -> bool.

Lemma count_leading_stop (l r : list Doc) (y : Doc) :
  p y = false -> count_leading p (l ++ y :: r) = count_leading p l.
Proof.
  intros Hy. induction l as [|d t IH]; simpl; [rewrite Hy; reflexivity|].
  destruct (p d); [f_equal; exact IH | reflexivity].
Qed.

Lemma count_leading_all (l : list Doc) :
  Forall (fun d => p d = true) l -> count_leading p l = List.length l.
Proof.
  induction 1 as [|d r Hd _ IH]; simpl; [reflexivity|].
  rewrite Hd, IH. reflexivity.
Qed.
End CountLeading.

Lemma generateHardlines_hard (k : nat) :
  Forall (fun d => is_hard_break d = true) (generateHardlines k)
  /\ Forall (fun d => is_hard_break d = true)
       (map dedent (generateHardlines k)).
Proof.
  unfold generateHardlines.
  induction (Nat.min k NEWLINES_TO_PRESERVE_MAX) as [|m [IH1 IH2]]; simpl;
    split; constructor; auto.
Qed.

Lemma hardlines_counted (k : nat) :
  count_leading is_hard_break (generateHardlines k) = Nat.min k 2
  /\ count_leading is_hard_break (rev (generateHardlines k)) = Nat.min k 2
  /\ count_leading is_hard_break (map dedent (generateHardlines k))
     = Nat.min k 2
  /\ count_leading is_hard_break (rev (map dedent (generateHardlines k)))
     = Nat.min k 2.
Proof.
  destruct (generateHardlines_hard k) as [H1 H2].
  assert (L : List.length (generateHardlines k) = Nat.min k 2)
    by apply repeat_length.
  repeat split.
  - rewrite count_leading_all by assumption. exact L.
  - rewrite count_leading_all by (apply Forall_rev; assumption).
    rewrite length_rev. exact L.
  - rewrite count_leading_all by assumption. rewrite length_map. exact L.
  - rewrite count_leading_all by (apply Forall_rev; assumption).
    rewrite length_rev, length_map. exact L.
Qed.

Lemma leading_hardlines_fill (before after : list Doc) (x : list Doc) :
  leading_hardlines (DArr (before ++ [fill x] ++ after))
  = count_leading is_hard_break before.
Proof. simpl. apply count_leading_stop. reflexivity. Qed.

Lemma trailing_hardlines_fill (before after : list Doc) (x : list Doc) :
  trailing_hardlines (DArr (before ++ [fill x] ++ after))
  = count_leading is_hard_break (rev after).
Proof.
  simpl. rewrite rev_app_distr. simpl. rewrite <- app_assoc. simpl.
  apply count_leading_stop. reflexivity.
Qed.

Lemma countNewLines_empty : countNewLines "" = 0.
Proof. reflexivity. Qed.

Lemma take_while_all (p : ascii -> bool) (s : string) :
  Js.all_chars p s = true -> Js.take_while p s = s.
Proof.
  induction s as [|c r IH]; simpl; [reflexivity|]. intros H.
  apply andb_true_iff in H. destruct H as [-> H]. rewrite IH by assumption.
  reflexivity.
Qed.

Lemma trailing_run_all (p : ascii -> bool) (s : string) :
  Js.all_chars p s = true -> trailing_run p s = s.
Proof.
  destruct s as [|c r]; simpl; [reflexivity|]. intros ->. reflexivity.
Qed.

Ltac count_breaks :=
  repeat match goal with
         | |- context [count_leading is_hard_break (generateHardlines ?k)] =>
             rewrite (proj1 (hardlines_counted k))
         | |- context [count_leading is_hard_break
                         (rev (generateHardlines ?k))] =>
             rewrite (proj1 (proj2 (hardlines_counted k)))
         | |- context [count_leading is_hard_break
                         (map dedent (generateHardlines ?k))] =>
             rewrite (proj1 (proj2 (proj2 (hardlines_counted k))))
         | |- context [count_leading is_hard_break
                         (rev (map dedent (generateHardlines ?k)))] =>
             rewrite (proj2 (proj2 (proj2 (hardlines_counted k))))
         end.

(** The document of a text run that is not white space only, in a mode
    other than ["ignore"] *)
Lemma printTextSensitive_text (path : AstPath) (text : string) :
  htmlWhitespaceUtils.isWhitespaceOnly text = false ->
  let lw := htmlWhitespaceUtils.getLeadingWhitespace text in
  let tw := htmlWhitespaceUtils.getTrailingWhitespace text in
  let breaks k := if (k =? 0)%nat then [line] else generateHardlines k in
  exists text2,
    printTextSensitive path text
    = DArr ((if String.eqb lw "" then [] else breaks (countNewLines lw))
            ++ [fill (getTextValueParts text2)]
            ++ (if String.eqb tw "" then []
                else if negb (trims_trailing path)
                     then if isLast path
                          then map dedent (breaks (countNewLines tw))
                          else breaks (countNewLines tw)
                     else [])).
Proof.
  intros Hw lw tw breaks. subst lw tw breaks.
  unfold printTextSensitive. rewrite Hw.
  fold (trims_trailing path).
  unfold htmlWhitespaceUtils.isWhitespaceOnly in Hw.
  unfold htmlWhitespaceUtils.getLeadingWhitespace,
    htmlWhitespaceUtils.getTrailingWhitespace.
  destruct (String.eqb (Js.take_while htmlWhitespaceUtils.is_ws text) "")
    eqn:El; cbv beta iota zeta.
  - rewrite !drop_count_trailing.
    destruct (String.eqb (trailing_run htmlWhitespaceUtils.is_ws text) "");
      eexists; reflexivity.
  - rewrite drop_take_while.
    rewrite !(drop_count_trailing _ (Js.skip_while _ text)).
    rewrite !drop_count_trailing.
    rewrite trailing_run_skip_while by assumption.
    destruct (String.eqb (trailing_run htmlWhitespaceUtils.is_ws text) "");
      eexists; reflexivity.
Qed.

Lemma sensitive_breaks_capped (path : AstPath) (text : string) :
  let wsOnly := htmlWhitespaceUtils.isWhitespaceOnly text in
  let d := printTextSensitive path text in
  leading_hardlines d <= 2 /\ trailing_hardlines d <= 2
  /\ (2 <= countNewLines (htmlWhitespaceUtils.getLeadingWhitespace text) ->
      wsOnly && (trims_leading path || trims_trailing path) = false ->
      leading_hardlines d = 2)
  /\ (2 <= countNewLines (htmlWhitespaceUtils.getTrailingWhitespace text) ->
      (if wsOnly then trims_leading path || trims_trailing path
       else trims_trailing path) = false ->
      trailing_hardlines d = 2).
Proof.
  intros wsOnly d. subst wsOnly d.
  destruct (htmlWhitespaceUtils.isWhitespaceOnly text) eqn:Hw.
  - unfold printTextSensitive. rewrite Hw.
    fold (trims_leading path). fold (trims_trailing path).
    unfold htmlWhitespaceUtils.getLeadingWhitespace,
      htmlWhitespaceUtils.getTrailingWhitespace,
      htmlWhitespaceUtils.isWhitespaceOnly in *.
    rewrite !drop_count_trailing.
    rewrite (take_while_all _ _ Hw), (trailing_run_all _ _ Hw). cbn [andb].
    destruct (trims_leading path || trims_trailing path).
    + simpl. repeat split; try lia; discriminate.
    + destruct (countNewLines text =? 0)%nat eqn:Hn;
        [apply Nat.eqb_eq in Hn|];
        destruct (isLast path); simpl leading_hardlines;
        simpl trailing_hardlines; count_breaks;
        repeat split; simpl; lia.
  - destruct (printTextSensitive_text path text Hw) as [text2 ->].
    rewrite leading_hardlines_fill, trailing_hardlines_fill. cbn [andb].
    set (lw := htmlWhitespaceUtils.getLeadingWhitespace text).
    set (tw := htmlWhitespaceUtils.getTrailingWhitespace text).
    assert (Hl : String.eqb lw "" = true -> countNewLines lw = 0)
      by (intros E; apply String.eqb_eq in E; rewrite E; reflexivity).
    assert (Ht : String.eqb tw "" = true -> countNewLines tw = 0)
      by (intros E; apply String.eqb_eq in E; rewrite E; reflexivity).
    destruct (String.eqb lw ""); destruct (String.eqb tw "");
      try specialize (Hl eq_refl); try specialize (Ht eq_refl);
      destruct (trims_trailing path); cbn [negb];
      destruct (isLast path);
      destruct (countNewLines lw =? 0)%nat eqn:Hn1;
      destruct (countNewLines tw =? 0)%nat eqn:Hn2;
      try apply Nat.eqb_eq in Hn1; try apply Nat.eqb_eq in Hn2;
      count_breaks; repeat split; simpl; try lia; try discriminate.
Qed.

Lemma ignore_breaks_capped (path : AstPath) (text : string) :
  let wsOnly := htmlWhitespaceUtils.isWhitespaceOnly text in
  let d := printTextIgnore path text in
  leading_hardlines d <= 2 /\ trailing_hardlines d <= 2
  /\ (2 <= (if wsOnly then countNewLines text
            else countLeadingNewLines text) ->
      isFirst path = false ->
      isLast path && wsOnly && in_container path = false ->
      leading_hardlines d = 2)
  /\ (2 <= countTrailingNewLines text ->
      wsOnly = false -> isLast path = false ->
      trailing_hardlines d = 2).
Proof.
  intros wsOnly d. subst wsOnly d. unfold printTextIgnore.
  fold (in_container path). unfold NEWLINES_TO_PRESERVE_MAX.
  destruct (isFirst path); destruct (isLast path);
    destruct (htmlWhitespaceUtils.isWhitespaceOnly text);
    destruct (in_container path); cbn [andb orb negb];
    try (simpl; repeat split; solve [lia | discriminate]);
    destruct (Nat.eqb_spec (countNewLines text) 0) as [Hn|Hn];
    cbn [andb orb negb];
    destruct (type_is (previous path) "BlockStatement"
              || type_is (previous path) "ElementNode");
    destruct (type_is (next path) "BlockStatement"
              || type_is (next path) "ElementNode");
    cbv beta iota zeta;
    rewrite leading_hardlines_fill, trailing_hardlines_fill;
    count_breaks; repeat split; intros; try discriminate; lia.
Qed.

Lemma last_is_trailing_run (p : ascii -> bool) (s : string) :
  Js.last_is p s = true -> trailing_run p s <> EmptyString.
Proof.
  induction s as [|c r IH]; [discriminate|].
  intros H. destruct r as [|d t].
  - simpl in H. simpl. rewrite H. discriminate.
  - cbn [trailing_run].
    destruct (p c && Js.all_chars p (String d t)); [discriminate|].
    exact (IH H).
Qed.





(** C4, as stated, fails: four line feeds between two elements are three
    blank lines; the printer emits two forced lines for them, and the text
    laid out has one blank line there, not two. *)
Lemma two_hardlines_make_one_blank_line :
  let b := ElementNode no_loc "b" [] [] [] [] [] false in
  let gap := String Js.LF (String Js.LF (String Js.LF (String Js.LF ""))) in
  blank_lines ("<b></b>" ++ gap ++ "<b></b>") = 3
  /\ exists d n',
       print sensitive_options []
         (Body (template_of [b; TextNode no_loc gap; b]))
       = Ok (d, n')
       /\ render_flat d
          = ("<b></b>" ++ String Js.LF (String Js.LF "<b></b>")
             ++ Js.str1 Js.LF)%string
       /\ blank_lines (render_flat d) = 1
       /\ blank_lines (render_flat d) <> 2.
Proof.
  split; [reflexivity|]. eexists. eexists.
  split; [vm_compute; reflexivity|].
  split; [reflexivity|]. split; [reflexivity | discriminate].
Qed.

(** C4, amended: for a text run outside of an attribute, the forced lines
    that the printer emits at either end of the run never exceed two, and
    at a boundary that the printer keeps, white space with two line breaks
    or more (one blank line or more, so three blank lines too) gives
    exactly two forced lines, which lay out as one blank line. *)
Theorem hardlines_capped_at_two (options : Options) (path : AstPath)
    (chars : string) :
  getCurrentAttributeName path = None ->
  let text := escapedText chars in
  let wsOnly := htmlWhitespaceUtils.isWhitespaceOnly text in
  let d := printTextNode options path chars in
  leading_hardlines d <= NEWLINES_TO_PRESERVE_MAX
  /\ trailing_hardlines d <= NEWLINES_TO_PRESERVE_MAX
  /\ (ignoreMode options = false ->
      (2 <= countNewLines (htmlWhitespaceUtils.getLeadingWhitespace text) ->
       wsOnly && (trims_leading path || trims_trailing path) = false ->
       leading_hardlines d = 2)
      /\ (2 <= countNewLines
                 (htmlWhitespaceUtils.getTrailingWhitespace text) ->
          (if wsOnly then trims_leading path || trims_trailing path
           else trims_trailing path) = false ->
          trailing_hardlines d = 2))
  /\ (ignoreMode options = true ->
      (2 <= (if wsOnly then countNewLines text
             else countLeadingNewLines text) ->
       isFirst path = false ->
       isLast path && wsOnly && in_container path = false ->
       leading_hardlines d = 2)
      /\ (2 <= countTrailingNewLines text ->
          wsOnly = false -> isLast path = false ->
          trailing_hardlines d = 2)).
Proof.
  intros Ha text wsOnly d. subst d wsOnly. unfold printTextNode.
  rewrite Ha. fold text. unfold NEWLINES_TO_PRESERVE_MAX.
  destruct (ignoreMode options); cbn [negb].
  - destruct (ignore_breaks_capped path text) as (H1 & H2 & H3 & H4).
    repeat split; try assumption; discriminate.
  - destruct (sensitive_breaks_capped path text) as (H1 & H2 & H3 & H4).
    repeat split; try assumption; discriminate.
Qed.

Lemma hardlines_capped_at_two_witness :
  let gap := String Js.LF (String Js.LF (String Js.LF (String Js.LF ""))) in
  let b := ElementNode no_loc "b" [] [] [] [] [] false in
  let path :=
    path_at (Body (template_of [b; TextNode no_loc gap; b])) "body"
      [b; TextNode no_loc gap; b] 1 [] in
  countNewLines gap = 4
  /\ leading_hardlines (printTextNode sensitive_options path gap) = 2
  /\ trailing_hardlines (printTextNode sensitive_options path gap) = 2
  /\ leading_hardlines (printTextNode ignore_options path gap) = 2.
Proof.
  intros gap b path. split; [reflexivity|].
  pose proof (hardlines_capped_at_two sensitive_options path gap eq_refl)
    as (_ & _ & Hs & _).
  pose proof (hardlines_capped_at_two ignore_options path gap eq_refl)
    as (_ & _ & _ & Hi).
  destruct (Hs eq_refl) as [Hs1 Hs2]. destruct (Hi eq_refl) as [Hi1 _].
  split; [apply Hs1; [vm_compute; lia | reflexivity]|].
  split; [apply Hs2; [vm_compute; lia | reflexivity]|].
  apply Hi1; [vm_compute; lia | reflexivity | reflexivity].
Defined.

(** ** Paths that the parser used to reject *)

(** C9, as stated, fails: the path [./a.b] mixes both separators, and the
    patched parser still rejects it, for its leading [./]. *)
Lemma dot_slash_path_still_rejected :
  Js.includes "./a.b" "/" = true /\ Js.includes "./a.b" "." = true
  /\ patchedPathParts "./a.b" ["a"; "b"] = inl DotSlashNotSupported.
Proof. repeat split. Qed.

Lemma startsWith_dot_dot_slash (s : string) :
  Js.startsWith s "../" = true ->
  Js.includes s "/" = true /\ String.eqb (Js.take 2 s) "./" = false.
Proof.
  unfold Js.startsWith. intros H.
  destruct s as [|c1 s]; [discriminate|]. cbn [String.prefix] in H.
  destruct (ascii_dec "." c1) as [<-|]; [|discriminate].
  destruct s as [|c2 s]; [discriminate|]. cbn [String.prefix] in H.
  destruct (ascii_dec "." c2) as [<-|]; [|discriminate].
  destruct s as [|c3 s]; [discriminate|]. cbn [String.prefix] in H.
  destruct (ascii_dec "/" c3) as [<-|]; [|discriminate].
  split; [|reflexivity].
  cbn [Js.includes]. cbn [String.prefix].
  destruct (ascii_dec "/" "."); [discriminate|].
  destruct (ascii_dec "/" "/"); [|congruence].
  destruct s; reflexivity.
Qed.

(** C9, amended: a path whose spelling starts with [../], or holds a [/]
    together with a [.], and does not start with [./], passes the checks of
    the patched parser, and the printer writes its original spelling as it
    is; a spelling with a [/] that starts with [./] is still rejected. *)
Theorem permissive_paths_pass_through (options : Options) (path : AstPath)
    (p : PathData) :
  (Js.startsWith (original p) "../" = true
   \/ (Js.includes (original p) "/" = true
       /\ Js.includes (original p) "." = true
       /\ String.eqb (Js.take 2 (original p)) "./" = false) ->
   patchedPathParts (original p) (parts p)
     = inr (Some [Js.join "/" (parts p)])
   /\ print options path (PathExpression p)
      = Ok (DStr (original p), PathExpression p))
  /\ (Js.includes (original p) "/" = true ->
      String.eqb (Js.take 2 (original p)) "./" = true ->
      patchedPathParts (original p) (parts p) = inl DotSlashNotSupported).
Proof.
  split.
  - intros H. split; [|reflexivity].
    assert (G : Js.includes (original p) "/" = true
                /\ String.eqb (Js.take 2 (original p)) "./" = false).
    { destruct H as [H|(H1 & _ & H2)]; [|auto].
      apply startsWith_dot_dot_slash, H. }
    destruct G as [G1 G2]. unfold patchedPathParts. rewrite G1, G2.
    reflexivity.
  - intros H1 H2. unfold patchedPathParts. rewrite H1, H2. reflexivity.
Qed.

Lemma permissive_paths_pass_through_witness :
  (patchedPathParts "../a" ["a"] = inr (Some [Js.join "/" ["a"]])
   /\ print sensitive_options [] (PathExpression (mkPath "../a" ["a"] no_loc))
      = Ok (DStr "../a", PathExpression (mkPath "../a" ["a"] no_loc)))
  /\ (patchedPathParts "a/b.c" ["a"; "b"; "c"]
      = inr (Some [Js.join "/" ["a"; "b"; "c"]])
      /\ print sensitive_options []
           (PathExpression (mkPath "a/b.c" ["a"; "b"; "c"] no_loc))
         = Ok (DStr "a/b.c",
               PathExpression (mkPath "a/b.c" ["a"; "b"; "c"] no_loc)))
  /\ patchedPathParts "./a" ["a"] = inl DotSlashNotSupported.
Proof.
  split; [|split].
  - apply (proj1 (permissive_paths_pass_through sensitive_options []
                    (mkPath "../a" ["a"] no_loc))).
    left. reflexivity.
  - apply (proj1 (permissive_paths_pass_through sensitive_options []
                    (mkPath "a/b.c" ["a"; "b"; "c"] no_loc))).
    right. repeat split.
  - apply (proj2 (permissive_paths_pass_through sensitive_options []
                    (mkPath "./a" ["a"] no_loc))); reflexivity.
Defined.

(** ** Chains of else-if *)




(** The test for a chain is made once the inverse is printed, on the path
    that closing the inner block has left: a partial block of the name of
    the outer block is printed in full, and the [{{else}}] before it is
    then left out. *)
Lemma inverse_tested_after_it_is_printed :
  exists d n',
    print sensitive_options [] (Body (template_of [layout_else_partial]))
      = Ok (d, n')
    /\ render_flat d
       = ("{{#layout}}A{{#> layout}}B{{/layout}}{{/layout}}"
          ++ Js.str1 Js.LF)%string.
Proof.
  eexists. eexists. split; [vm_compute; reflexivity | reflexivity].
Qed.

(** ** The quotes of an attribute value *)

(** C8, as stated, fails: the value of [title] holds both quotes, the
    double quote is chosen, and the value is written between the quotes as
    it is, with its own double quote not escaped. *)
Lemma attribute_value_quotes_not_escaped :
  count_char double_quote both_quotes = 1
  /\ count_char single_quote both_quotes = 1
  /\ print sensitive_options [] title_attribute
     = Ok (DArr [ DStr "title"; DStr "="; DStr (Js.str1 double_quote);
                  DArr [DStr both_quotes]; DStr (Js.str1 double_quote) ],
           title_attribute).
Proof. repeat split. Qed.

Lemma getPreferredQuote_spec (text : string) (preferSingle : bool) :
  let preferred := if preferSingle then single_quote else double_quote in
  let alternate := if preferSingle then double_quote else single_quote in
  exists c,
    getPreferredQuote text preferSingle = Js.str1 c
    /\ (c = preferred \/ c = alternate)
    /\ count_char c text <= count_char preferred text
    /\ count_char c text <= count_char alternate text
    /\ (count_char preferred text = count_char alternate text ->
        c = preferred).
Proof.
  intros preferred alternate. unfold getPreferredQuote.
  fold preferred. fold alternate.
  destruct (Nat.ltb_spec (count_char alternate text)
              (count_char preferred text)) as [H|H].
  - exists alternate. repeat split; auto; lia.
  - exists preferred. repeat split; auto; lia.
Qed.

(** C8, amended: the quote around an attribute value is chosen from the
    text of the value (for a concatenation, from its text parts joined):
    it is the quote that occurs less often there, so a quote that does not
    occur is chosen when there is one, and the preferred quote on a tie.
    The printer escapes no quote in the value: the text of a value is
    written with its line ends kept and the openings of mustaches
    escaped, nothing else. *)
Theorem attribute_quote_choice (options : Options) (path : AstPath)
    (loc : Loc) (name : string) (value : node) (text : string) :
  quoted_text value = Some text ->
  valueless value = false ->
  let preferred :=
    if singleQuote options then single_quote else double_quote in
  let alternate :=
    if singleQuote options then double_quote else single_quote in
  exists c,
    (c = preferred \/ c = alternate)
    /\ count_char c text <= count_char preferred text
    /\ count_char c text <= count_char alternate text
    /\ (count_char preferred text = count_char alternate text ->
        c = preferred)
    /\ forall d n',
         print options path (AttrNode loc name value) = Ok (d, n') ->
         exists valueDoc,
           d = DArr [ DStr name; DStr "="; DStr (Js.str1 c);
                      if String.eqb name "class"
                      then group (indent valueDoc) else valueDoc;
                      DStr (Js.str1 c) ]
           /\ forall vloc chars a r,
                value = TextNode vloc chars ->
                Js.toLowerCase name = String a r ->
                String.eqb (Js.toLowerCase name) "class" = false ->
                valueDoc = replaceEndOfLine (escapedText chars).
Proof.
  intros Hq Hv preferred alternate.
  destruct (getPreferredQuote_spec text (singleQuote options))
    as (c & Hc & H1 & H2 & H3 & H4).
  exists c. repeat split; try assumption.
  intros d n' H. simpl in H. unfold printAttrNode in H.
  assert (E : (match value with
               | TextNode _ chars => String.eqb chars ""
               | _ => false
               end && (locStart value =? locEnd value)%nat) = false).
  { destruct value; try reflexivity. exact Hv. }
  rewrite E in H. clear E.
  assert (Q : match value with
              | TextNode _ chars =>
                  getPreferredQuote chars (singleQuote options)
              | ConcatStatement _ parts =>
                  getPreferredQuote
                    (Js.join ""
                       (map (fun part => match part with
                                         | TextNode _ chars => chars
                                         | _ => ""
                                         end) parts))
                    (singleQuote options)
              | _ => ""
              end = Js.str1 c).
  { destruct value; try discriminate Hq; simpl in Hq; inversion Hq; subst;
      exact Hc. }
  rewrite Q in H. clear Q. inv_bind.
  match goal with
  | Hp : print _ _ value = Ok (?vd, _) |- _ => exists vd
  end.
  split.
  - unfold Js.str1. cbn [String.eqb negb]. rewrite andb_true_r. reflexivity.
  - intros vloc chars a r -> Hn Hcl.
    match goal with
    | Hp : print _ _ _ = Ok _ |- _ => simpl in Hp; inversion Hp; subst
    end.
    unfold printTextNode. cbn [getCurrentAttributeName getParentNode
      path_call nth_error option_map fr_node].
    rewrite Hn. rewrite <- Hn, Hcl. reflexivity.
Qed.

Lemma attribute_quote_choice_witness :
  exists c,
    (c = double_quote \/ c = single_quote)
    /\ count_char c both_quotes <= count_char double_quote both_quotes
    /\ count_char c both_quotes <= count_char single_quote both_quotes
    /\ (count_char double_quote both_quotes
        = count_char single_quote both_quotes -> c = double_quote)
    /\ forall d n',
         print sensitive_options [] title_attribute = Ok (d, n') ->
         exists valueDoc,
           d = DArr [ DStr "title"; DStr "="; DStr (Js.str1 c); valueDoc;
                      DStr (Js.str1 c) ]
           /\ forall vloc chars a r,
                TextNode (mkLoc 11 18) both_quotes = TextNode vloc chars ->
                Js.toLowerCase "title" = String a r ->
                String.eqb (Js.toLowerCase "title") "class" = false ->
                valueDoc = replaceEndOfLine (escapedText chars).
Proof.
  apply (attribute_quote_choice sensitive_options [] (mkLoc 5 18) "title"
           (TextNode (mkLoc 11 18) both_quotes) both_quotes);
    reflexivity.
Defined.

(** ** The order of the entries of a starting tag *)

Lemma sort_insert_perm (x : TagEntry) (l : list TagEntry) :
  Permutation (sort_insert x l) (x :: l).
Proof.
  induction l as [|y r IH]; simpl; [reflexivity|].
  destruct (compare_entries x y <=? 0)%Z; [reflexivity|].
  rewrite IH. apply perm_swap.
Qed.

Lemma sort_perm (l : list TagEntry) : Permutation (sort l) l.
Proof.
  induction l as [|x r IH]; simpl; [reflexivity|].
  rewrite sort_insert_perm. constructor. exact IH.
Qed.

Lemma compare_entries_le (a b : TagEntry) :
  is_node_entry a -> is_node_entry b ->
  ((compare_entries a b <=? 0)%Z = true <-> entry_before a b).
Proof.
  intros (q & j & n & ->) (q' & j' & n' & ->).
  unfold entry_before, starts_before, compare_entries, sortByLoc. simpl.
  rewrite Z.leb_le. lia.
Qed.

Lemma sort_insert_sorted (x : TagEntry) (l : list TagEntry) :
  is_node_entry x -> Forall is_node_entry l ->
  StronglySorted entry_before l ->
  StronglySorted entry_before (sort_insert x l).
Proof.
  intros Hx Hl Hs. induction l as [|y r IH]; simpl.
  - constructor; constructor.
  - inversion Hl as [|? ? Hy Hr]; subst.
    inversion Hs as [|? ? Hsr Hyr]; subst.
    destruct (compare_entries x y <=? 0)%Z eqn:E.
    + apply compare_entries_le in E; [|assumption..].
      constructor; [assumption|]. constructor; [assumption|].
      eapply Forall_impl; [|exact Hyr]. intros z Hz.
      unfold entry_before, starts_before in *. lia.
    + constructor; [apply IH; assumption|].
      assert (Hyx : entry_before y x).
      { destruct (Z.leb_spec (compare_entries x y) 0) as [|G];
          [discriminate|].
        destruct Hx as (q & j & n & ->). destruct Hy as (q' & j' & n' & ->).
        unfold entry_before, starts_before, compare_entries, sortByLoc in *.
        simpl in *. lia. }
      eapply Permutation_Forall;
        [symmetry; apply sort_insert_perm|].
      constructor; assumption.
Qed.

Lemma sort_sorted (l : list TagEntry) :
  Forall is_node_entry l -> StronglySorted entry_before (sort l).
Proof.
  induction 1 as [|x r Hx Hr IH]; simpl; [constructor|].
  apply sort_insert_sorted; [assumption | | assumption].
  eapply Permutation_Forall; [symmetry; apply sort_perm | assumption].
Qed.

Lemma StronglySorted_map_node (l : list TagEntry) :
  StronglySorted entry_before l ->
  StronglySorted starts_before (map node_of_entry l).
Proof.
  induction 1 as [|x r Hs IH Hx]; simpl; constructor; [assumption|].
  apply Forall_map. exact Hx.
Qed.

(** The entries of one list *)

Lemma tag_from_nodes (prop : string) (i : nat) (l : list node) :
  map node_of_entry (tag_from prop i l) = l.
Proof.
  revert i. induction l as [|x r IH]; intros i; simpl; [reflexivity|].
  rewrite IH. reflexivity.
Qed.

Lemma In_tag_from (prop : string) (l : list node) :
  forall i e, In e (tag_from prop i l) ->
  exists k n, e = EntryNode prop (i + k) n /\ nth_error l k = Some n.
Proof.
  induction l as [|x r IH]; simpl; intros i e H; [contradiction|].
  destruct H as [<-|H].
  - exists 0, x. rewrite Nat.add_0_r. auto.
  - destruct (IH _ _ H) as (k & n & -> & Hk).
    exists (S k), n. split; [f_equal; lia | exact Hk].
Qed.

Lemma count_object_outside (prop q : string) (j : nat) (l : list node) :
  forall i,
  String.eqb q prop = false \/ j < i \/ i + List.length l <= j ->
  count_object prop j (tag_from q i l) = 0.
Proof.
  unfold count_object.
  induction l as [|x r IH]; intros i H; simpl; [reflexivity|].
  simpl in H.
  destruct (String.eqb q prop) eqn:Eq; simpl.
  - destruct (Nat.eqb_spec j i); simpl.
    + destruct H as [H|H]; [discriminate | lia].
    + apply IH. right. lia.
  - apply IH. left. reflexivity.
Qed.

Lemma count_object_inside (prop : string) (j : nat) (l : list node) :
  forall i,
  i <= j < i + List.length l ->
  count_object prop j (tag_from prop i l) = 1.
Proof.
  induction l as [|x r IH]; intros i H; simpl in *; [lia|].
  unfold count_object in *. simpl. rewrite String.eqb_refl. simpl.
  destruct (Nat.eqb_spec j i) as [->|Hne]; simpl.
  - f_equal. apply count_object_outside. right. left. lia.
  - apply IH. lia.
Qed.

Lemma count_object_app (prop : string) (j : nat) (a b : list TagEntry) :
  count_object prop j (a ++ b) = count_object prop j a + count_object prop j b.
Proof. unfold count_object. rewrite filter_app, length_app. reflexivity. Qed.

Lemma count_object_perm (prop : string) (j : nat) (a b : list TagEntry) :
  Permutation a b -> count_object prop j a = count_object prop j b.
Proof.
  unfold count_object.
  induction 1; simpl;
    repeat match goal with
           | |- context [is_object prop j ?e] => destruct (is_object prop j e)
           end; simpl; congruence.
Qed.

(** The loop that replaces the nodes by their documents *)

Lemma indexOf_found (prop : string) (i : nat) (l : list TagEntry) :
  1 <= count_object prop i l -> exists k, indexOf prop i l = Some k.
Proof.
  unfold count_object. induction l as [|e r IH]; simpl; [lia|].
  destruct (is_object prop i e); simpl; [eauto|].
  intros H. destruct (IH H) as [k ->]. simpl. eauto.
Qed.

Lemma replaced_entry_nil (prop : string) (i : nat) (e : TagEntry) :
  replaced_entry prop i [] e = e.
Proof.
  destruct e as [q j n|d]; simpl; [|reflexivity].
  destruct (String.eqb q prop); simpl; [|reflexivity].
  destruct (Nat.leb_spec i j), (Nat.ltb_spec j (i + 0)); simpl;
    try reflexivity; lia.
Qed.

Lemma replaced_entry_one (prop : string) (i : nat) (d : Doc) (e : TagEntry) :
  replaced_entry prop i [d] e
  = if is_object prop i e then EntryDoc (DArr [line; d]) else e.
Proof.
  destruct e as [q j n|x]; simpl; [|reflexivity].
  destruct (String.eqb q prop); simpl; [|reflexivity].
  destruct (Nat.eqb_spec i j) as [->|Hne].
  - rewrite Nat.leb_refl. simpl.
    destruct (Nat.ltb_spec j (j + 1)); [|lia].
    rewrite Nat.sub_diag. reflexivity.
  - destruct (Nat.leb_spec i j), (Nat.ltb_spec j (i + 1)); simpl;
      try reflexivity; lia.
Qed.

Lemma replaced_entry_cons (prop : string) (i : nat) (d : Doc)
    (docs : list Doc) (e : TagEntry) :
  replaced_entry prop (S i) docs (replaced_entry prop i [d] e)
  = replaced_entry prop i (d :: docs) e.
Proof.
  destruct e as [q j n|x]; [|reflexivity].
  cbn [replaced_entry List.length].
  destruct (String.eqb q prop) eqn:Eq; cbn [andb];
    [|simpl; rewrite Eq; reflexivity].
  destruct (Nat.leb_spec i j) as [Hij|Hij]; cbn [andb].
  - destruct (Nat.ltb_spec j (i + 1)) as [H1|H1].
    + assert (j = i) by lia. subst j.
      destruct (Nat.ltb_spec i (i + S (List.length docs))); [|lia].
      rewrite Nat.sub_diag. reflexivity.
    + cbn [replaced_entry]. rewrite Eq. cbn [andb].
      destruct (Nat.leb_spec (S i) j); [|lia]. cbn [andb].
      destruct (Nat.ltb_spec j (S i + List.length docs)),
        (Nat.ltb_spec j (i + S (List.length docs))); try lia;
        [|reflexivity].
      replace (j - i) with (S (j - S i)) by lia. reflexivity.
  - cbn [replaced_entry]. rewrite Eq. cbn [andb].
    destruct (Nat.leb_spec (S i) j); [lia|]. reflexivity.
Qed.

Lemma map_no_object (prop : string) (i : nat) (x : TagEntry)
    (l : list TagEntry) :
  count_object prop i l = 0 ->
  map (fun e => if is_object prop i e then x else e) l = l.
Proof.
  unfold count_object. induction l as [|e r IH]; simpl; [reflexivity|].
  destruct (is_object prop i e); simpl; [discriminate|].
  intros H. rewrite IH by assumption. reflexivity.
Qed.

Lemma splice1_unique (prop : string) (i : nat) (x : TagEntry)
    (l : list TagEntry) :
  count_object prop i l = 1 ->
  splice1 (indexOf prop i l) x l
  = map (fun e => if is_object prop i e then x else e) l.
Proof.
  induction l as [|e r IH]; [discriminate|].
  unfold count_object in *. simpl.
  destruct (is_object prop i e) eqn:E; simpl; intros H.
  - f_equal. symmetry. apply map_no_object. unfold count_object. lia.
  - destruct (indexOf_found prop i r) as [k Hk];
      [unfold count_object; lia|].
    specialize (IH H). rewrite Hk in *. simpl in *. f_equal. exact IH.
Qed.

Lemma count_object_replaced (prop q : string) (i j : nat) (docs : list Doc)
    (l : list TagEntry) :
  String.eqb q prop = false \/ j < i \/ i + List.length docs <= j ->
  count_object q j (map (replaced_entry prop i docs) l) = count_object q j l.
Proof.
  intros H. unfold count_object.
  induction l as [|e r IH]; simpl; [reflexivity|].
  assert (E : is_object q j (replaced_entry prop i docs e) = is_object q j e).
  { destruct e as [p k n|d]; [|reflexivity]. cbn [replaced_entry].
    destruct (String.eqb p prop) eqn:Ep; cbn [andb]; [|reflexivity].
    destruct (Nat.leb_spec i k); cbn [andb]; [|reflexivity].
    destruct (Nat.ltb_spec k (i + List.length docs)); [|reflexivity].
    simpl. apply String.eqb_eq in Ep. subst p.
    destruct (String.eqb prop q) eqn:Eq; simpl; [|reflexivity].
    apply String.eqb_eq in Eq. subst q. rewrite String.eqb_refl in H.
    destruct (Nat.eqb_spec j k); [|reflexivity].
    destruct H as [H|H]; [discriminate | lia]. }
  rewrite E. destruct (is_object q j e); simpl; rewrite IH; reflexivity.
Qed.

Lemma replace_printed_map (prop : string) (docs : list Doc) :
  forall i l,
  (forall j, i <= j < i + List.length docs -> count_object prop j l = 1) ->
  replace_printed prop i docs l = map (replaced_entry prop i docs) l.
Proof.
  induction docs as [|d r IH]; intros i l H; simpl.
  - symmetry. rewrite <- (map_id l) at 2. apply map_ext.
    intros e. apply replaced_entry_nil.
  - rewrite splice1_unique by (apply H; simpl; lia).
    rewrite (map_ext _ (replaced_entry prop i [d]))
      by (intros e; symmetry; apply replaced_entry_one).
    rewrite IH.
    + rewrite map_map. apply map_ext. intros e. apply replaced_entry_cons.
    + intros j Hj. rewrite count_object_replaced by (simpl; lia).
      apply H. simpl. lia.
Qed.

Lemma In_sortedTagEntries (attributes modifiers comments : list node)
    (e : TagEntry) :
  In e (sortedTagEntries attributes modifiers comments) ->
  exists k n,
    (e = EntryNode "attributes" k n /\ nth_error attributes k = Some n)
    \/ (e = EntryNode "modifiers" k n /\ nth_error modifiers k = Some n)
    \/ (e = EntryNode "comments" k n /\ nth_error comments k = Some n).
Proof.
  unfold sortedTagEntries. intros H.
  apply (Permutation_in _ (sort_perm _)) in H.
  apply in_app_or in H. destruct H as [H|H];
    [|apply in_app_or in H; destruct H as [H|H]];
    apply In_tag_from in H; destruct H as (k & n & -> & Hk);
    exists k, n; auto.
Qed.

Lemma count_object_sorted (attributes modifiers comments : list node)
    (prop : string) (j : nat) :
  (prop = "attributes" /\ j < List.length attributes)
  \/ (prop = "modifiers" /\ j < List.length modifiers)
  \/ (prop = "comments" /\ j < List.length comments) ->
  count_object prop j (sortedTagEntries attributes modifiers comments) = 1.
Proof.
  intros H. unfold sortedTagEntries.
  rewrite (count_object_perm _ _ _ _ (sort_perm _)).
  rewrite !count_object_app.
  destruct H as [[-> H]|[[-> H]|[-> H]]].
  - rewrite count_object_inside by lia.
    rewrite !count_object_outside by (left; reflexivity). reflexivity.
  - rewrite (count_object_inside "modifiers") by lia.
    rewrite !count_object_outside by (left; reflexivity). reflexivity.
  - rewrite (count_object_inside "comments") by lia.
    rewrite !count_object_outside by (left; reflexivity). reflexivity.
Qed.

Lemma nth_error_lt {A : Type} (l : list A) (k : nat) (x : A) :
  nth_error l k = Some x -> k < List.length l.
Proof. intros H. apply nth_error_Some. congruence. Qed.

Lemma Forall2_map_same {A B C : Type} (R : B -> C -> Prop) (f : A -> B)
    (g : A -> C) (l : list A) :
  (forall x, In x l -> R (f x) (g x)) -> Forall2 R (map f l) (map g l).
Proof.
  induction l as [|x r IH]; simpl; intros H; constructor; auto.
Qed.

Lemma nth_map_fst (r : list Printed) (k : nat) (y : Printed) :
  nth_error r k = Some y -> nth k (map fst r) (DStr "") = fst y.
Proof.
  revert k. induction r as [|z t IH]; intros [|k]; simpl; try discriminate.
  - intros H. inversion H. reflexivity.
  - apply IH.
Qed.

(** The array [attributes] at the end of [printStartingTag]: the sorted
    entries, each replaced by a line and the document of its node. *)
Lemma startingTagEntries_sorted (attributes modifiers comments : list node)
    (attributeDocs modifierDocs commentDocs : list Doc)
    (blockParams : list string) :
  List.length attributeDocs = List.length attributes ->
  List.length modifierDocs = List.length modifiers ->
  List.length commentDocs = List.length comments ->
  map entry_doc
    (startingTagEntries attributes modifiers comments
       attributeDocs modifierDocs commentDocs blockParams)
  = map (fun dx => DArr [line; dx])
      (map (doc_of_entry attributeDocs modifierDocs commentDocs)
         (sortedTagEntries attributes modifiers comments))
    ++ (if isNonEmptyArray blockParams
        then [line; printBlockParams blockParams] else []).
Proof.
  intros La Lm Lc. unfold startingTagEntries.
  set (sorted := sortedTagEntries attributes modifiers comments).
  assert (E : replace_printed "comments" 0 commentDocs
                (replace_printed "modifiers" 0 modifierDocs
                   (replace_printed "attributes" 0 attributeDocs sorted))
              = map (replaced_entry "comments" 0 commentDocs)
                  (map (replaced_entry "modifiers" 0 modifierDocs)
                     (map (replaced_entry "attributes" 0 attributeDocs)
                        sorted))).
  { rewrite (replace_printed_map "attributes").
    2:{ intros j Hj. apply count_object_sorted. left. split; [reflexivity|].
        lia. }
    rewrite (replace_printed_map "modifiers").
    2:{ intros j Hj. rewrite count_object_replaced by (left; reflexivity).
        apply count_object_sorted. right. left. split; [reflexivity|]. lia. }
    rewrite (replace_printed_map "comments").
    2:{ intros j Hj. rewrite !count_object_replaced by (left; reflexivity).
        apply count_object_sorted. right. right. split; [reflexivity|].
        lia. }
    reflexivity. }
  assert (G : map entry_doc
                (map (replaced_entry "comments" 0 commentDocs)
                   (map (replaced_entry "modifiers" 0 modifierDocs)
                      (map (replaced_entry "attributes" 0 attributeDocs)
                         sorted)))
              = map (fun dx => DArr [line; dx])
                  (map (doc_of_entry attributeDocs modifierDocs commentDocs)
                     sorted)).
  { rewrite !map_map. apply map_ext_in. intros e He.
    apply In_sortedTagEntries in He.
    destruct He as (k & n & [[-> Hk]|[[-> Hk]|[-> Hk]]]);
      apply nth_error_lt in Hk;
      cbn [replaced_entry doc_of_entry String.eqb Ascii.eqb Bool.eqb andb];
      rewrite Nat.sub_0_r.
    - destruct (Nat.ltb_spec k (0 + List.length attributeDocs));
        [reflexivity | simpl in *; lia].
    - destruct (Nat.ltb_spec k (0 + List.length modifierDocs));
        [reflexivity | simpl in *; lia].
    - destruct (Nat.ltb_spec k (0 + List.length commentDocs));
        [reflexivity | simpl in *; lia]. }
  rewrite E. destruct (isNonEmptyArray blockParams).
  - rewrite map_app, G. reflexivity.
  - rewrite G, app_nil_r. reflexivity.
Qed.

Lemma printStartingTag_in_source_order (options : Options) (owner : node)
    (path : AstPath) (tag : string)
    (attributes modifiers comments : list node) (blockParams : list string)
    (d : Doc) (attributes' modifiers' comments' : list node) :
  printStartingTag (print options) owner path tag attributes modifiers
    comments blockParams = Ok (d, attributes', modifiers', comments') ->
  exists (order : list node) (docs : list Doc),
    Permutation order (attributes ++ modifiers ++ comments)
    /\ StronglySorted starts_before order
    /\ Forall2 (fun x dx => exists p x', print options p x = Ok (dx, x'))
         order docs
    /\ d = DArr [ DStr "<"; DStr tag;
                  indent
                    (DArr (map (fun dx => DArr [line; dx]) docs
                           ++ if isNonEmptyArray blockParams
                              then [line; printBlockParams blockParams]
                              else []));
                  printStartingTagEndMarker ].
Proof.
  unfold printStartingTag. intros H. inv_bind.
  match goal with
  | Ha : printArray _ _ "attributes" _ _ = Ok ?ra,
    Hm : printArray _ _ "modifiers" _ _ = Ok ?rm,
    Hc : printArray _ _ "comments" _ _ = Ok ?rc |- _ =>
      rename Ha into HA; rename Hm into HM; rename Hc into HC;
      set (docsA := map fst ra); set (docsM := map fst rm);
      set (docsC := map fst rc)
  end.
  set (sorted := sortedTagEntries attributes modifiers comments).
  exists (map node_of_entry sorted),
    (map (doc_of_entry docsA docsM docsC) sorted).
  unfold printArray in HA, HM, HC.
  split; [|split; [|split]].
  - unfold sorted, sortedTagEntries.
    rewrite (Permutation_map node_of_entry (sort_perm _)).
    rewrite !map_app, !tag_from_nodes. reflexivity.
  - apply StronglySorted_map_node, sort_sorted.
    apply Forall_forall. intros e He.
    apply in_app_or in He. destruct He as [He|He];
      [|apply in_app_or in He; destruct He as [He|He]];
      apply In_tag_from in He; destruct He as (k & n & -> & _);
      unfold is_node_entry; eauto.
  - apply Forall2_map_same. intros e He.
    apply In_sortedTagEntries in He.
    destruct He as (k & n & [[-> Hk]|[[-> Hk]|[-> Hk]]]); simpl.
    + destruct (mapM_from_nth _ _ _ _ HA k n Hk) as ([dy y] & Hy & Hp).
      subst docsA. rewrite (nth_map_fst _ _ _ Hy). simpl. eauto.
    + destruct (mapM_from_nth _ _ _ _ HM k n Hk) as ([dy y] & Hy & Hp).
      subst docsM. rewrite (nth_map_fst _ _ _ Hy). simpl. eauto.
    + destruct (mapM_from_nth _ _ _ _ HC k n Hk) as ([dy y] & Hy & Hp).
      subst docsC. rewrite (nth_map_fst _ _ _ Hy). simpl. eauto.
  - rewrite startingTagEntries_sorted; [reflexivity|..];
      subst docsA docsM docsC; rewrite length_map;
      eapply mapM_from_length; eassumption.
Qed.

(** C6: the starting tag of an element holds, after the tag name, one
    entry per attribute, modifier and comment of the element, each a line
    followed by the document printed for it; the entries stand in the order
    of the start offsets of their nodes in the source, whichever of the
    three lists a node comes from. *)
Theorem starting_tag_in_source_order (options : Options) (path : AstPath)
    (loc : Loc) (tag : string)
    (attributes modifiers comments children : list node)
    (blockParams : list string) (void : bool) (d : Doc) (n' : node) :
  print options path
    (ElementNode loc tag attributes modifiers comments children
       blockParams void) = Ok (d, n') ->
  exists (order : list node) (docs rest : list Doc),
    Permutation order (attributes ++ modifiers ++ comments)
    /\ StronglySorted starts_before order
    /\ Forall2 (fun x dx => exists p x', print options p x = Ok (dx, x'))
         order docs
    /\ d = DArr
             (group
                (DArr [ DStr "<"; DStr tag;
                        indent
                          (DArr (map (fun dx => DArr [line; dx]) docs
                                 ++ if isNonEmptyArray blockParams
                                    then [line; printBlockParams blockParams]
                                    else []));
                        printStartingTagEndMarker ])
              :: rest).
Proof.
  intros H. simpl in H. unfold printElementNode in H. inv_bind.
  match goal with
  | Hs : printStartingTag _ _ _ _ _ _ _ _ = Ok _ |- _ =>
      destruct (printStartingTag_in_source_order _ _ _ _ _ _ _ _ _ _ _ _ Hs)
        as (order & docs & Hp & Hs' & Hf & ->)
  end.
  exists order, docs. cbn [isVoidElement] in H.
  destruct void; inv_bind;
    [eexists; repeat split; try eassumption; reflexivity|].
  destruct (List.length children =? 0)%nat; inv_bind;
    [eexists; repeat split; try eassumption; reflexivity|].
  destruct (ignoreMode options); inv_bind;
    eexists; repeat split; try eassumption; reflexivity.
Qed.

Lemma starting_tag_in_source_order_witness :
  exists (order : list node) (docs rest : list Doc),
    Permutation order
      ([ AttrNode (mkLoc 5 10) "id" (TextNode (mkLoc 8 10) "a");
         AttrNode (mkLoc 40 50) "title" (TextNode (mkLoc 46 50) "t") ]
       ++ [ ElementModifierStatement (mkLoc 25 35) (path_node "on") []
              None ]
       ++ [ MustacheCommentStatement (mkLoc 12 22) " note " ])
    /\ StronglySorted starts_before order
    /\ Forall2 (fun x dx => exists p x',
                  print sensitive_options p x = Ok (dx, x')) order docs
    /\ fst (match print sensitive_options [] interleaved_element with
            | Ok r => r
            | Err _ => (DStr "", interleaved_element)
            end)
       = DArr
           (group
              (DArr [ DStr "<"; DStr "div";
                      indent (DArr (map (fun dx => DArr [line; dx]) docs
                                    ++ []));
                      printStartingTagEndMarker ])
            :: rest).
Proof.
  destruct (print sensitive_options [] interleaved_element) as [[d n']|e]
    eqn:E; [|vm_compute in E; discriminate E].
  exact (starting_tag_in_source_order sensitive_options [] (mkLoc 0 60) "div"
           _ _ _ [] [] false d n' E).
Defined.

(** The entries of that element, as laid out: the attribute, the comment,
    the modifier and the attribute, in the order of the source. *)
Example interleaved_element_rendered :
  exists d n',
    print sensitive_options [] interleaved_element = Ok (d, n')
    /\ render_flat d
       = ("<div id=" ++ Js.str1 double_quote ++ "a" ++ Js.str1 double_quote
          ++ " {{! note }} {{on}} title=" ++ Js.str1 double_quote ++ "t"
          ++ Js.str1 double_quote ++ "></div>")%string.
Proof. eexists. eexists. split; [vm_compute; reflexivity | reflexivity]. Qed.

(** ** The text of a run as it is written back *)

(** The opening of a mustache that reaches a text run is written with its
    escape, and the marker of a block kept as text becomes the opening of
    a mustache again. *)
Example escapedText_examples :
  escapedText "{{my-component}}" = "\{{my-component}}"
  /\ escapedText "{_{#if a}}b{_{/if}}" = "{{#if a}}b{{/if}}"
  /\ escapedText "plain text" = "plain text".
Proof. repeat split. Qed.

(** ** Number literals *)

(** [String(value)] on sample numbers: ten to the power 21 and beyond take
    an exponent, as do the values below one millionth; a negative zero is
    written as zero. *)
Lemma string_of_number_samples (options : Options) (path : AstPath) :
  print options path (NumberLiteral no_loc (Js.Finite false "1" 22))
    = Ok (DStr "1e+21", NumberLiteral no_loc (Js.Finite false "1" 22))
  /\ string_of_number (Js.Finite false "1" 21) = "100000000000000000000"
  /\ string_of_number (Js.Finite true "5" 0) = "-0.5"
  /\ string_of_number (Js.Finite false "123456" 3) = "123.456"
  /\ string_of_number (Js.Finite false "42" 2) = "42"
  /\ string_of_number (Js.Finite false "15" (-6)) = "1.5e-7"
  /\ string_of_number (Js.Finite false "1" (-5)) = "0.000001"
  /\ string_of_number (Js.Finite true "" 0) = "0"
  /\ string_of_number Js.NaN = "NaN"
  /\ string_of_number (Js.Infinity true) = "-Infinity".
Proof. repeat split. Qed.

(** * Further properties of the printer and of the patched parser *)

(** ** Concatenation of strings *)

Lemma append_assoc (a b c : string) :
  ((a ++ b) ++ c)%string = (a ++ (b ++ c))%string.
Proof.
  induction a as [|x r IH]; simpl; [reflexivity | rewrite IH; reflexivity].
Qed.

Lemma append_empty_r (a : string) : (a ++ "")%string = a.
Proof.
  induction a as [|x r IH]; simpl; [reflexivity | rewrite IH; reflexivity].
Qed.

Lemma append_length (a b : string) :
  String.length (a ++ b) = String.length a + String.length b.
Proof.
  induction a as [|x r IH]; simpl; [reflexivity | rewrite IH; reflexivity].
Qed.

(** ** Replacing in strings *)

Lemma prefix_append (a t : string) : String.prefix a (a ++ t) = true.
Proof.
  induction a as [|c r IH]; simpl; [destruct t; reflexivity|].
  destruct (ascii_dec c c); [exact IH | congruence].
Qed.

Lemma replaceAll_from_skip (a t pat rep : string) :
  Js.replaceAll_from (String.length a) (a ++ t) pat rep
  = Js.replaceAll_from 0 t pat rep.
Proof.
  induction a as [|c r IH]; [reflexivity|]. exact IH.
Qed.

Lemma replaceAll_match (c : ascii) (pat t rep : string) :
  Js.replaceAll_from 0 (String c pat ++ t) (String c pat) rep
  = (rep ++ Js.replaceAll_from 0 t (String c pat) rep)%string.
Proof.
  change (String c pat ++ t)%string with (String c (pat ++ t)).
  cbn [Js.replaceAll_from].
  change (String c (pat ++ t)) with (String c pat ++ t)%string.
  rewrite prefix_append.
  change (String.length (String c pat) - 1) with (String.length pat - 0).
  rewrite Nat.sub_0_r, replaceAll_from_skip. reflexivity.
Qed.

Lemma replaceAll_no_match (c : ascii) (t pat rep : string) :
  String.prefix pat (String c t) = false ->
  Js.replaceAll_from 0 (String c t) pat rep
  = String c (Js.replaceAll_from 0 t pat rep).
Proof. intros H. cbn [Js.replaceAll_from]. rewrite H. reflexivity. Qed.

Lemma replaceAll_absent (pat rep s : string) :
  Js.includes s pat = false -> Js.replaceAll s pat rep = s.
Proof.
  unfold Js.replaceAll. induction s as [|c r IH]; [reflexivity|].
  intros H. cbn [Js.includes] in H.
  apply orb_false_iff in H. destruct H as [Hp Hr].
  rewrite replaceAll_no_match by exact Hp. rewrite (IH Hr). reflexivity.
Qed.

(** ** Counting line breaks *)

Lemma split_on_length (sep : ascii) (s : string) :
  List.length (Js.split_on sep s) = S (count_char sep s).
Proof.
  induction s as [|c r IH]; simpl; [reflexivity|].
  destruct (Ascii.eqb c sep); simpl; [rewrite IH; reflexivity|].
  destruct (Js.split_on sep r); simpl in *; [discriminate | exact IH].
Qed.

Lemma countNewLines_count (s : string) :
  countNewLines s = count_char Js.LF s.
Proof. unfold countNewLines. rewrite split_on_length. lia. Qed.

Lemma count_char_app (c : ascii) (a b : string) :
  count_char c (a ++ b) = count_char c a + count_char c b.
Proof. induction a as [|d r IH]; simpl; [reflexivity | rewrite IH; lia]. Qed.

Lemma leading_breaks_prefix (s pending : string) :
  exists rest,
    (pending ++ s)%string = (leading_breaks_from pending s ++ rest)%string.
Proof.
  revert pending. induction s as [|c r IH]; intros pending; simpl.
  - eauto.
  - destruct (Js.is_newline c).
    + destruct (IH EmptyString) as [rest E]. simpl in E.
      exists rest. rewrite append_assoc. simpl. rewrite <- E.
      reflexivity.
    + destruct (Js.is_inline_space c); [|simpl; eauto].
      destruct (IH (pending ++ Js.str1 c)%string) as [rest E].
      exists rest. rewrite <- E, append_assoc. reflexivity.
Qed.

Lemma trailing_breaks_suffix (s : string) :
  exists before, s = (before ++ trailing_breaks s)%string.
Proof.
  induction s as [|c r [before E]]; simpl.
  - exists EmptyString. reflexivity.
  - destruct (Js.is_newline c && Js.all_chars Js.is_space r).
    + exists EmptyString. reflexivity.
    + exists (String c before). simpl. rewrite <- E. reflexivity.
Qed.

(** X1: [countNewLines] counts the line feeds of the text, and line feeds
    only; it adds up over a concatenation; and the numbers of leading and
    of trailing line breaks of a text never exceed the number of its line
    breaks. *)
Theorem line_breaks_counted (s t : string) :
  countNewLines s = count_char Js.LF s
  /\ countNewLines (s ++ t) = countNewLines s + countNewLines t
  /\ countLeadingNewLines s <= countNewLines s
  /\ countTrailingNewLines s <= countNewLines s.
Proof.
  repeat split.
  - apply countNewLines_count.
  - rewrite !countNewLines_count. apply count_char_app.
  - unfold countLeadingNewLines.
    destruct (leading_breaks_prefix s EmptyString) as [rest E].
    simpl in E. rewrite E at 2. rewrite !countNewLines_count.
    rewrite count_char_app. lia.
  - unfold countTrailingNewLines.
    destruct (trailing_breaks_suffix s) as [before E].
    rewrite E at 2. rewrite !countNewLines_count.
    rewrite count_char_app. lia.
Qed.

(** ** The characters of a text run *)

Lemma doc_text_cons (x : Doc) (r : list Doc) :
  doc_text (DArr (x :: r)) = (doc_text x ++ doc_text (DArr r))%string.
Proof. reflexivity. Qed.

Lemma doc_text_app (a b : list Doc) :
  doc_text (DArr (a ++ b))
  = (doc_text (DArr a) ++ doc_text (DArr b))%string.
Proof.
  induction a as [|x r IH]; [reflexivity|].
  rewrite <- app_comm_cons, !doc_text_cons, IH, append_assoc. reflexivity.
Qed.

Lemma doc_text_blank (l : list Doc) :
  Forall (fun d => doc_text d = EmptyString) l ->
  doc_text (DArr l) = EmptyString.
Proof.
  induction 1 as [|x r Hx _ IH]; [reflexivity|].
  rewrite doc_text_cons, Hx, IH. reflexivity.
Qed.

Lemma generateHardlines_blank (k : nat) :
  Forall (fun d => doc_text d = EmptyString) (generateHardlines k).
Proof.
  unfold generateHardlines.
  induction (Nat.min k NEWLINES_TO_PRESERVE_MAX); simpl; constructor; auto.
Qed.

Lemma dedent_blank (l : list Doc) :
  Forall (fun d => doc_text d = EmptyString) l ->
  Forall (fun d => doc_text d = EmptyString) (map dedent l).
Proof. induction 1; simpl; constructor; auto. Qed.

Lemma concat_empty_cons (x : string) (l : list string) :
  String.concat "" (x :: l) = (x ++ String.concat "" l)%string.
Proof.
  destruct l; simpl; [rewrite append_empty_r; reflexivity | reflexivity].
Qed.

Lemma doc_text_join (sep : Doc) (l : list string) :
  doc_text sep = EmptyString ->
  doc_text (DArr (join sep (map DStr l))) = String.concat "" l.
Proof.
  intros Hs. induction l as [|x r IH]; [reflexivity|].
  rewrite concat_empty_cons.
  destruct r as [|y r]; [simpl; reflexivity|].
  change (join sep (map DStr (x :: y :: r)))
    with (DStr x :: sep :: join sep (map DStr (y :: r))).
  rewrite !doc_text_cons, Hs, IH. reflexivity.
Qed.

Section StripFacts.
Variables p q : ascii -> bool.
Hypothesis sub : forall c, q c = true -> p c = true.

Lemma strip_app (a b : string) :
  strip p (a ++ b) = (strip p a ++ strip p b)%string.
Proof.
  induction a as [|c r IH]; simpl; [reflexivity|].
  destruct (p c); simpl; rewrite IH; reflexivity.
Qed.

Lemma strip_all (s : string) :
  Js.all_chars q s = true -> strip p s = EmptyString.
Proof.
  induction s as [|c r IH]; simpl; [reflexivity|]. intros H.
  apply andb_true_iff in H. destruct H as [Hc Hr].
  rewrite (sub c Hc). auto.
Qed.

Lemma strip_strip (s : string) : strip p (strip q s) = strip p s.
Proof.
  induction s as [|c r IH]; simpl; [reflexivity|].
  destruct (q c) eqn:Hq.
  - rewrite (sub c Hq). exact IH.
  - simpl. rewrite IH. reflexivity.
Qed.

Lemma strip_skip_while (s : string) :
  strip p (Js.skip_while q s) = strip p s.
Proof.
  induction s as [|c r IH]; simpl; [reflexivity|].
  destruct (q c) eqn:Hq; [|reflexivity].
  rewrite (sub c Hq). exact IH.
Qed.

Lemma strip_cut_end (s : string) : strip p (cut_end q s) = strip p s.
Proof.
  induction s as [|c r IH]; [reflexivity|].
  destruct (Js.all_chars q r) eqn:Hr.
  - destruct (q c) eqn:Hc.
    + rewrite cut_end_all by (simpl; rewrite Hc, Hr; reflexivity).
      symmetry. apply strip_all. simpl. rewrite Hc, Hr. reflexivity.
    + rewrite cut_end_last by assumption. simpl.
      rewrite (strip_all r Hr). reflexivity.
  - rewrite cut_end_cons by assumption. simpl. rewrite IH. reflexivity.
Qed.

Lemma strip_split_runs (b : bool) (s : string) :
  String.concat "" (Js.split_runs_from q b s) = strip q s.
Proof.
  revert b. induction s as [|c r IH]; intros b; [reflexivity|].
  simpl. destruct (q c).
  - destruct b; [apply IH|]. rewrite concat_empty_cons. apply IH.
  - specialize (IH false).
    destruct (Js.split_runs_from q false r) as [|w ws].
    + simpl in IH. rewrite <- IH. reflexivity.
    + rewrite concat_empty_cons in *. simpl. rewrite IH. reflexivity.
Qed.

Lemma strip_concat (sep : string) (l : list string) :
  Js.all_chars q sep = true ->
  strip p (String.concat sep l) = strip p (String.concat "" l).
Proof.
  intros Hs. induction l as [|x r IH]; [reflexivity|].
  rewrite concat_empty_cons. destruct r as [|y r]; [simpl|].
  - rewrite strip_app. simpl. rewrite append_empty_r. reflexivity.
  - change (String.concat sep (x :: y :: r))
      with (x ++ sep ++ String.concat sep (y :: r))%string.
    rewrite !strip_app, IH, (strip_all sep Hs). reflexivity.
Qed.
End StripFacts.

Lemma strip_split_on (sep : ascii) (s : string) :
  String.concat "" (Js.split_on sep s)
  = strip (fun c => Ascii.eqb c sep) s.
Proof.
  induction s as [|c r IH]; [reflexivity|]. simpl.
  destruct (Ascii.eqb c sep).
  - rewrite concat_empty_cons. exact IH.
  - destruct (Js.split_on sep r) as [|w ws].
    + simpl in IH. rewrite <- IH. reflexivity.
    + rewrite concat_empty_cons in *. simpl. rewrite IH. reflexivity.
Qed.

Lemma is_ws_is_space (c : ascii) :
  htmlWhitespaceUtils.is_ws c = true -> Js.is_space c = true.
Proof.
  unfold htmlWhitespaceUtils.is_ws, Js.is_space.
  generalize (nat_of_ascii c) as n. intros n H.
  repeat match type of H with
         | _ || _ = true => apply orb_true_iff in H; destruct H as [H|H]
         end;
    apply Nat.eqb_eq in H; subst; reflexivity.
Qed.

Lemma LF_is_space (c : ascii) :
  Ascii.eqb c Js.LF = true -> Js.is_space c = true.
Proof. intros H. apply Ascii.eqb_eq in H. subst. reflexivity. Qed.

Lemma strip_words (s : string) :
  strip Js.is_space (doc_text (fill (getTextValueParts s)))
  = strip Js.is_space s.
Proof.
  unfold fill, getTextValueParts, htmlWhitespaceUtils.split, Js.split_runs.
  change (doc_text (DFill ?l)) with (doc_text (DArr l)).
  rewrite doc_text_join by reflexivity.
  rewrite strip_split_runs. apply strip_strip. exact is_ws_is_space.
Qed.

Lemma strip_text_run (before after : list Doc) (s : string) :
  Forall (fun d => doc_text d = EmptyString) before ->
  Forall (fun d => doc_text d = EmptyString) after ->
  strip Js.is_space
    (doc_text (DArr (before ++ [fill (getTextValueParts s)] ++ after)))
  = strip Js.is_space s.
Proof.
  intros Hb Ha.
  rewrite !doc_text_app, (doc_text_blank _ Hb), (doc_text_blank _ Ha).
  rewrite doc_text_cons. simpl append.
  change (doc_text (DArr [])) with EmptyString.
  rewrite !append_empty_r. apply strip_words.
Qed.

Lemma trailing_run_length (p : ascii -> bool) (s : string) :
  String.length (trailing_run p s) = Js.count_trailing p s.
Proof.
  induction s as [|c r IH]; [reflexivity|]. simpl.
  destruct (p c && Js.all_chars p r); [reflexivity | exact IH].
Qed.

Lemma breaks_blank (k : nat) :
  Forall (fun d => doc_text d = EmptyString)
    (if (k =? 0)%nat then [line] else generateHardlines k).
Proof.
  destruct (k =? 0)%nat; [repeat constructor | apply generateHardlines_blank].
Qed.

Lemma strip_trailing_cut (s : string) :
  strip Js.is_space
    (Js.take
       (String.length s
        - String.length
            (Js.drop
               (String.length s
                - Js.count_trailing htmlWhitespaceUtils.is_ws s) s)) s)
  = strip Js.is_space s.
Proof.
  rewrite drop_count_trailing, trailing_run_length.
  apply (strip_cut_end Js.is_space _ is_ws_is_space).
Qed.

Lemma sensitive_keeps_characters (path : AstPath) (text : string) :
  strip Js.is_space (doc_text (printTextSensitive path text))
  = strip Js.is_space text.
Proof.
  unfold printTextSensitive.
  destruct (htmlWhitespaceUtils.isWhitespaceOnly text) eqn:Hw.
  - rewrite (strip_all Js.is_space _ is_ws_is_space text Hw).
    destruct (_ || _); [reflexivity|].
    rewrite doc_text_blank; [reflexivity|].
    destruct (isLast path);
      [apply dedent_blank|]; apply breaks_blank.
  - unfold htmlWhitespaceUtils.getLeadingWhitespace,
      htmlWhitespaceUtils.getTrailingWhitespace.
    destruct (String.eqb (Js.take_while htmlWhitespaceUtils.is_ws text) "");
      cbv beta iota zeta;
      match goal with
      | |- context [if String.eqb ?x "" then _ else _] =>
          destruct (String.eqb x "")
      end;
      cbv beta iota zeta;
      rewrite strip_text_run;
      try rewrite strip_trailing_cut;
      try rewrite drop_take_while;
      try apply (strip_skip_while Js.is_space _ is_ws_is_space);
      try reflexivity;
      try apply Forall_nil;
      try apply breaks_blank;
      destruct (negb _); try apply Forall_nil;
      (destruct (isLast path); [apply dedent_blank|]; apply breaks_blank).
Qed.

Lemma strip_trimEnd (s : string) :
  strip Js.is_space (htmlWhitespaceUtils.trimEnd s) = strip Js.is_space s.
Proof. apply (strip_cut_end Js.is_space _ is_ws_is_space). Qed.

Lemma strip_trimStart (s : string) :
  strip Js.is_space (htmlWhitespaceUtils.trimStart s) = strip Js.is_space s.
Proof. apply (strip_skip_while Js.is_space _ is_ws_is_space). Qed.

Lemma ignore_keeps_characters (path : AstPath) (text : string) :
  strip Js.is_space (doc_text (printTextIgnore path text))
  = strip Js.is_space text.
Proof.
  unfold printTextIgnore.
  match goal with
  | |- context [if ?c then DStr "" else _] => destruct c eqn:C
  end.
  - apply andb_true_iff in C. destruct C as [C _].
    apply andb_true_iff in C. destruct C as [_ C].
    symmetry. apply (strip_all Js.is_space _ is_ws_is_space text C).
  - match goal with
    | |- context [match ?e with (_, _) => _ end] => destruct e as [l t]
    end.
    destruct (isFirst path); destruct (isLast path);
      rewrite strip_text_run by apply generateHardlines_blank;
      destruct (htmlWhitespaceUtils.hasLeadingWhitespace text);
      match goal with
      | |- context [if ?c then _ else _] => destruct c
      end;
      repeat match goal with
             | |- context [if ?c then _ else _] => destruct c
             end;
      repeat first
        [ rewrite strip_trimEnd | rewrite strip_trimStart
        | rewrite (strip_app Js.is_space) ];
      simpl; rewrite ?append_empty_r; reflexivity.
Qed.

Lemma class_keeps_characters (path : AstPath) (text : string) :
  strip Js.is_space (doc_text (printClassText path text))
  = strip Js.is_space text.
Proof.
  unfold printClassText, Js.join, Js.split_runs, Js.trim.
  fold (cut_end Js.is_space (Js.skip_while Js.is_space text)).
  destruct (_ && _); destruct (_ && _); simpl;
    rewrite ?append_empty_r;
    rewrite (strip_concat Js.is_space Js.is_space (fun c H => H))
      by reflexivity;
    rewrite strip_split_runs;
    rewrite (strip_strip Js.is_space Js.is_space (fun c H => H));
    rewrite (strip_cut_end Js.is_space Js.is_space (fun c H => H));
    apply (strip_skip_while Js.is_space Js.is_space (fun c H => H)).
Qed.

Lemma attribute_keeps_characters (text : string) :
  strip Js.is_space (doc_text (replaceEndOfLine text))
  = strip Js.is_space text.
Proof.
  unfold replaceEndOfLine. rewrite doc_text_join by reflexivity.
  rewrite strip_split_on.
  apply (strip_strip Js.is_space _ LF_is_space).
Qed.

(** X2: printing a text run changes white space only.  Whatever the
    options and the place of the run (in the text of the template, in a
    [class] attribute or in another attribute), the strings of its document,
    once their white space is taken out, spell the text of the run as it is
    written back ([chars] with its mustache openings escaped), white space
    taken out: no other character is added, dropped or moved. *)
Theorem text_run_changes_white_space_only (options : Options)
    (path : AstPath) (loc : Loc) (chars : string) :
  exists d,
    print options path (TextNode loc chars) = Ok (d, TextNode loc chars)
    /\ strip Js.is_space (doc_text d)
       = strip Js.is_space (escapedText chars).
Proof.
  eexists. split; [reflexivity|]. unfold printTextNode.
  destruct (getCurrentAttributeName path) as [[|c r]|].
  - destruct (negb (ignoreMode options));
      [apply sensitive_keeps_characters | apply ignore_keeps_characters].
  - destruct (String.eqb (String c r) "class");
      [apply class_keeps_characters | apply attribute_keeps_characters].
  - destruct (negb (ignoreMode options));
      [apply sensitive_keeps_characters | apply ignore_keeps_characters].
Qed.

(** ** The fill of a text run *)

Lemma split_runs_from_free (p : ascii -> bool) (s : string) :
  forall b,
    Js.split_runs_from p b s <> []
    /\ Forall (fun w => Js.all_chars (fun c => negb (p c)) w = true)
         (Js.split_runs_from p b s).
Proof.
  induction s as [|c r IH]; intros b; simpl.
  - split; [discriminate | repeat constructor].
  - destruct (p c) eqn:Hc.
    + destruct b; [apply IH|].
      split; [discriminate|]. constructor; [reflexivity | apply IH].
    + destruct (IH false) as [Hn Hf].
      destruct (Js.split_runs_from p false r) as [|w ws]; [congruence|].
      split; [discriminate|]. inversion Hf; subst.
      constructor; [simpl; rewrite Hc; assumption | assumption].
Qed.

Lemma fill_shape_join (l : list string) :
  l <> [] ->
  Forall (fun w =>
            Js.all_chars (fun c => negb (htmlWhitespaceUtils.is_ws c)) w
            = true) l ->
  fill_shape (join line (map DStr l)) = true
  /\ fills_ok (DArr (join line (map DStr l))) = true.
Proof.
  intros Hn H. induction H as [|w r Hw Hr IH]; [congruence|].
  destruct r as [|y r]; [simpl; rewrite Hw; split; reflexivity|].
  destruct (IH ltac:(discriminate)) as [I1 I2].
  change (join line (map DStr (w :: y :: r)))
    with (DStr w :: line :: join line (map DStr (y :: r))).
  split.
  - cbn [fill_shape line]. rewrite Hw, I1. reflexivity.
  - cbn [fills_ok] in *. cbn [line andb]. exact I2.
Qed.

Lemma fills_ok_text (s : string) :
  fills_ok (fill (getTextValueParts s)) = true.
Proof.
  unfold fill, getTextValueParts, htmlWhitespaceUtils.split, Js.split_runs.
  destruct (split_runs_from_free htmlWhitespaceUtils.is_ws s false)
    as [Hn Hf].
  destruct (fill_shape_join _ Hn Hf) as [H1 H2].
  cbn [fills_ok] in *. rewrite H1, H2. reflexivity.
Qed.

Lemma fills_ok_app (a b : list Doc) :
  fills_ok (DArr a) = true -> fills_ok (DArr b) = true ->
  fills_ok (DArr (a ++ b)) = true.
Proof.
  intros Ha Hb. induction a as [|x r IH]; [exact Hb|].
  cbn [fills_ok app] in *. apply andb_true_iff in Ha.
  destruct Ha as [Hx Hr]. rewrite Hx. exact (IH Hr).
Qed.

Lemma fills_ok_breaks (k : nat) (last : bool) :
  fills_ok
    (DArr (if last
           then map dedent
                  (if (k =? 0)%nat then [line] else generateHardlines k)
           else if (k =? 0)%nat then [line] else generateHardlines k))
  = true.
Proof.
  unfold generateHardlines.
  destruct last; destruct (k =? 0)%nat; try reflexivity;
    induction (Nat.min k NEWLINES_TO_PRESERVE_MAX) as [|m IH];
    try reflexivity; exact IH.
Qed.

Lemma fills_ok_hardlines (k : nat) :
  fills_ok (DArr (generateHardlines k)) = true.
Proof.
  unfold generateHardlines.
  induction (Nat.min k NEWLINES_TO_PRESERVE_MAX) as [|m IH];
    [reflexivity | exact IH].
Qed.

Lemma fills_ok_run (before after : list Doc) (s : string) :
  fills_ok (DArr before) = true -> fills_ok (DArr after) = true ->
  fills_ok (DArr (before ++ [fill (getTextValueParts s)] ++ after)) = true.
Proof.
  intros Hb Ha. apply fills_ok_app; [exact Hb|].
  apply (fills_ok_app [_]); [|exact Ha].
  pose proof (fills_ok_text s) as H. cbn [fills_ok] in *.
  rewrite H. reflexivity.
Qed.

Lemma fills_ok_sensitive (path : AstPath) (text : string) :
  fills_ok (printTextSensitive path text) = true.
Proof.
  unfold printTextSensitive.
  destruct (htmlWhitespaceUtils.isWhitespaceOnly text).
  - destruct (_ || _); [reflexivity|].
    apply (fills_ok_breaks (countNewLines text) (isLast path)).
  - destruct (String.eqb (htmlWhitespaceUtils.getLeadingWhitespace text) "");
      cbv beta iota zeta;
      match goal with
      | |- context [if String.eqb ?x "" then _ else _] =>
          destruct (String.eqb x "")
      end;
      cbv beta iota zeta;
      apply fills_ok_run; try reflexivity;
      try apply (fills_ok_breaks _ false);
      destruct (negb _); try reflexivity;
      apply (fills_ok_breaks _ (isLast path)).
Qed.

Lemma fills_ok_ignore (path : AstPath) (text : string) :
  fills_ok (printTextIgnore path text) = true.
Proof.
  unfold printTextIgnore.
  match goal with
  | |- context [if ?c then DStr "" else _] => destruct c
  end; [reflexivity|].
  match goal with
  | |- context [match ?e with (_, _) => _ end] => destruct e as [l t]
  end.
  destruct (isFirst path); destruct (isLast path);
    apply fills_ok_run; apply fills_ok_hardlines.
Qed.

(** X3: every fill in the document of a text run has the parts that the
    layout of a fill expects: an odd number of them, a word free of white
    space at each even place and a [line] at each odd one. *)
Theorem text_run_fill_alternates (options : Options) (path : AstPath)
    (loc : Loc) (chars : string) :
  exists d,
    print options path (TextNode loc chars) = Ok (d, TextNode loc chars)
    /\ fills_ok d = true.
Proof.
  eexists. split; [reflexivity|]. unfold printTextNode.
  assert (A : forall p t, fills_ok (printClassText p t) = true).
  { intros p t. unfold printClassText.
    destruct (_ && _); destruct (_ && _); reflexivity. }
  assert (B : forall t, fills_ok (replaceEndOfLine t) = true).
  { intros t. unfold replaceEndOfLine.
    induction (Js.split_on Js.LF t) as [|x r IH]; [reflexivity|].
    destruct r; [reflexivity | exact IH]. }
  destruct (getCurrentAttributeName path) as [[|c r]|];
    try (destruct (negb (ignoreMode options));
         [apply fills_ok_sensitive | apply fills_ok_ignore]).
  destruct (String.eqb (String c r) "class"); [apply A | apply B].
Qed.

(** ** The words of a [class] attribute *)

Section WordFacts.
Variable p : ascii -> bool.

Lemma first_is_skip_while (s : string) :
  Js.first_is p (Js.skip_while p s) = false.
Proof.
  induction s as [|c r IH]; simpl; [reflexivity|].
  destruct (p c) eqn:Hc; [exact IH | exact Hc].
Qed.

Lemma skip_while_first (s : string) :
  Js.first_is p s = false -> Js.skip_while p s = s.
Proof. destruct s as [|c r]; simpl; [reflexivity | intros ->; reflexivity]. Qed.

Lemma last_is_all (s : string) :
  s <> EmptyString -> Js.all_chars p s = true -> Js.last_is p s = true.
Proof.
  induction s as [|c r IH]; [congruence|]. intros _ H. simpl in H.
  apply andb_true_iff in H. destruct H as [Hc Hr].
  destruct r as [|d r']; [exact Hc|].
  rewrite last_is_cons by discriminate. apply IH; [discriminate | exact Hr].
Qed.

Lemma cut_end_last_is (s : string) :
  Js.last_is p s = false -> cut_end p s = s.
Proof.
  induction s as [|c r IH]; [reflexivity|]. intros H.
  destruct r as [|d r'].
  - simpl in H. unfold cut_end. simpl. rewrite H. reflexivity.
  - rewrite last_is_cons in H by discriminate.
    destruct (Js.all_chars p (String d r')) eqn:Hr.
    + rewrite last_is_all in H; [discriminate H | discriminate | exact Hr].
    + rewrite cut_end_cons by exact Hr. rewrite (IH H). reflexivity.
Qed.

(** The pieces of a string that ends with a character outside the class:
    each is free of the class, and none but the first is empty. *)
Lemma split_runs_from_pieces (s : string) :
  forall b, s <> EmptyString -> Js.last_is p s = false ->
  exists w ws,
    Js.split_runs_from p b s = w :: ws
    /\ Js.all_chars (fun c => negb (p c)) w = true
    /\ Forall (fun x => x <> EmptyString
                        /\ Js.all_chars (fun c => negb (p c)) x = true) ws
    /\ (w = EmptyString -> b = false /\ Js.first_is p s = true).
Proof.
  induction s as [|c r IH]; intros b Hs Hl; [congruence|].
  simpl Js.split_runs_from. destruct (p c) eqn:Hc.
  - destruct r as [|d r']; [simpl in Hl; congruence|].
    rewrite last_is_cons in Hl by discriminate.
    destruct (IH true) as (w & ws & E & Hw & Hws & Hne);
      [discriminate | exact Hl |].
    assert (w <> EmptyString) by (intros Hw0; destruct (Hne Hw0); discriminate).
    destruct b.
    + exists w, ws. repeat split; auto; contradiction.
    + exists EmptyString, (w :: ws). rewrite E. repeat split; auto.
  - destruct r as [|d r'].
    + exists (String c EmptyString), []. simpl. rewrite Hc.
      repeat split; auto; discriminate.
    + rewrite last_is_cons in Hl by discriminate.
      destruct (IH false) as (w & ws & E & Hw & Hws & _);
        [discriminate | exact Hl |].
      rewrite E. exists (String c w), ws. simpl. rewrite Hc, Hw.
      repeat split; auto; discriminate.
Qed.

Lemma split_runs_from_word (w rest : string) :
  Js.all_chars (fun c => negb (p c)) w = true ->
  forall x xs, Js.split_runs_from p false rest = x :: xs ->
  Js.split_runs_from p false (w ++ rest) = (w ++ x)%string :: xs.
Proof.
  intros Hw x xs E. induction w as [|c r IH]; [exact E|].
  simpl in Hw. apply andb_true_iff in Hw. destruct Hw as [Hc Hr].
  apply negb_true_iff in Hc.
  simpl. rewrite Hc, (IH Hr). reflexivity.
Qed.

Lemma split_runs_from_started (b : bool) (s : string) :
  Js.first_is p s = false -> s <> EmptyString ->
  Js.split_runs_from p b s = Js.split_runs_from p false s.
Proof.
  destruct s as [|c r]; [congruence|]. simpl. intros -> _. reflexivity.
Qed.

Hypothesis space : p " " = true.

Lemma first_is_word (w rest : string) :
  w <> EmptyString -> Js.all_chars (fun c => negb (p c)) w = true ->
  Js.first_is p (w ++ rest) = false /\ (w ++ rest)%string <> EmptyString.
Proof.
  destruct w as [|c r]; [congruence|]. simpl. intros _ H.
  apply andb_true_iff in H. destruct H as [Hc _].
  apply negb_true_iff in Hc. split; [exact Hc | discriminate].
Qed.

Lemma last_is_word (w : string) :
  Js.all_chars (fun c => negb (p c)) w = true -> Js.last_is p w = false.
Proof.
  induction w as [|c r IH]; [reflexivity|]. simpl. intros H.
  apply andb_true_iff in H. destruct H as [Hc Hr].
  apply negb_true_iff in Hc.
  destruct r; [exact Hc | exact (IH Hr)].
Qed.

Lemma concat_words_first (w : string) (ws : list string) :
  w <> EmptyString -> Js.all_chars (fun c => negb (p c)) w = true ->
  Js.first_is p (String.concat " " (w :: ws)) = false
  /\ String.concat " " (w :: ws) <> EmptyString.
Proof.
  intros Hn Hw. destruct ws as [|y r].
  - simpl. rewrite <- (append_empty_r w). apply first_is_word; assumption.
  - apply first_is_word; assumption.
Qed.

Lemma concat_words_last (w : string) (ws : list string) :
  Forall (fun x => x <> EmptyString
                   /\ Js.all_chars (fun c => negb (p c)) x = true)
    (w :: ws) ->
  Js.last_is p (String.concat " " (w :: ws)) = false.
Proof.
  revert w. induction ws as [|y r IH]; intros w H.
  - simpl. apply last_is_word. inversion H as [|? ? [_ Hw] _]. exact Hw.
  - change (String.concat " " (w :: y :: r))
      with (w ++ " " ++ String.concat " " (y :: r))%string.
    inversion H as [|? ? _ Hr]; subst.
    assert (Hy : String.concat " " (y :: r) <> EmptyString).
    { inversion Hr as [|? ? [Hy1 Hy2] _]; subst.
      apply concat_words_first; assumption. }
    rewrite last_is_app by discriminate.
    rewrite (last_is_app p " ") by exact Hy.
    apply IH. exact Hr.
Qed.

Lemma split_runs_concat (w : string) (ws : list string) :
  Forall (fun x => x <> EmptyString
                   /\ Js.all_chars (fun c => negb (p c)) x = true)
    (w :: ws) ->
  Js.split_runs_from p false (String.concat " " (w :: ws)) = w :: ws.
Proof.
  revert w. induction ws as [|y r IH]; intros w H;
    inversion H as [|? ? [Hn Hw] Hr]; subst.
  - simpl. rewrite <- (append_empty_r w) at 1.
    rewrite (split_runs_from_word w "" Hw "" []) by reflexivity.
    rewrite append_empty_r. reflexivity.
  - change (String.concat " " (w :: y :: r))
      with (w ++ " " ++ String.concat " " (y :: r))%string.
    inversion Hr as [|? ? [Hy1 Hy2] _]; subst.
    destruct (concat_words_first y r Hy1 Hy2) as [Hf He].
    rewrite (split_runs_from_word w _ Hw "" (y :: r)).
    + rewrite append_empty_r. reflexivity.
    + specialize (IH y Hr).
      set (R := String.concat " " (y :: r)) in *.
      change (" " ++ R)%string with (String " " R).
      cbn [Js.split_runs_from]. rewrite space.
      rewrite split_runs_from_started by assumption.
      rewrite IH. reflexivity.
Qed.
End WordFacts.

Lemma trim_shape (text : string) :
  Js.trim text = EmptyString
  \/ (Js.trim text <> EmptyString
      /\ Js.first_is Js.is_space (Js.trim text) = false
      /\ Js.last_is Js.is_space (Js.trim text) = false).
Proof.
  change (Js.trim text)
    with (cut_end Js.is_space (Js.skip_while Js.is_space text)).
  pose proof (first_is_skip_while Js.is_space text) as Hf.
  pose proof (last_is_cut_end Js.is_space
                (Js.skip_while Js.is_space text)) as Hl.
  destruct (Js.skip_while Js.is_space text) as [|c r]; [left; reflexivity|].
  simpl in Hf. destruct (first_is_cut_end Js.is_space c r Hf) as [t E].
  right. rewrite E in *. repeat split; [discriminate | exact Hf | exact Hl].
Qed.

Lemma trim_fixed (t : string) :
  Js.first_is Js.is_space t = false -> Js.last_is Js.is_space t = false ->
  Js.trim t = t.
Proof.
  intros Hf Hl.
  change (Js.trim t) with (cut_end Js.is_space (Js.skip_while Js.is_space t)).
  rewrite skip_while_first by exact Hf. apply cut_end_last_is. exact Hl.
Qed.

(** The words of the trimmed text: the empty word alone, or words none of
    which is empty. *)
Lemma class_words (text : string) :
  exists words,
    Js.split_runs Js.is_space (Js.trim text) = words
    /\ Forall (fun w => Js.all_chars (fun c => negb (Js.is_space c)) w = true)
         words
    /\ (words = [EmptyString]
        \/ exists w ws,
             words = w :: ws
             /\ Forall (fun x =>
                          x <> EmptyString
                          /\ Js.all_chars (fun c => negb (Js.is_space c)) x
                             = true) (w :: ws)).
Proof.
  destruct (trim_shape text) as [E|(Hn & Hf & Hl)].
  - rewrite E. exists [EmptyString].
    repeat split; [repeat constructor | left; reflexivity].
  - destruct (split_runs_from_pieces Js.is_space (Js.trim text) false Hn Hl)
      as (w & ws & E & Hw & Hws & Hne).
    exists (w :: ws). split; [exact E|].
    assert (Hw0 : w <> EmptyString).
    { intros H0. destruct (Hne H0) as [_ H1]. congruence. }
    split.
    + constructor; [exact Hw|].
      eapply Forall_impl; [|exact Hws]. intros x [_ Hx]. exact Hx.
    + right. exists w, ws. split; [reflexivity|]. constructor; auto.
Qed.

Lemma class_words_fixed (words : list string) :
  words = [EmptyString]
  \/ (exists w ws,
        words = w :: ws
        /\ Forall (fun x =>
                     x <> EmptyString
                     /\ Js.all_chars (fun c => negb (Js.is_space c)) x = true)
             (w :: ws)) ->
  let f := Js.join " " words in
  Js.first_is Js.is_space f = false
  /\ Js.last_is Js.is_space f = false
  /\ Js.join " " (Js.split_runs Js.is_space (Js.trim f)) = f
  /\ (f <> EmptyString -> Forall (fun w => w <> EmptyString) words).
Proof.
  intros [->|(w & ws & -> & H)]; cbv zeta.
  - repeat split; try reflexivity. intros H. exfalso. apply H. reflexivity.
  - unfold Js.join, Js.split_runs.
    inversion H as [|? ? [Hn Hw] _]; subst.
    destruct (concat_words_first Js.is_space w ws Hn Hw) as [Hf _].
    pose proof (concat_words_last Js.is_space w ws H) as Hl.
    repeat split; [exact Hf | exact Hl | |].
    + rewrite (trim_fixed _ Hf Hl).
      rewrite (split_runs_concat Js.is_space eq_refl w ws H). reflexivity.
    + intros _. eapply Forall_impl; [|exact H]. intros x [Hx _]. exact Hx.
Qed.

Section WordsOf.
Variable p : ascii -> bool.

Lemma all_chars_app (q : ascii -> bool) (a b : string) :
  Js.all_chars q (a ++ b) = Js.all_chars q a && Js.all_chars q b.
Proof.
  induction a as [|c r IH]; simpl; [reflexivity|].
  rewrite IH. apply andb_assoc.
Qed.

Lemma first_is_all (s : string) :
  Js.all_chars p s = true -> s = EmptyString \/ Js.first_is p s = true.
Proof.
  destruct s as [|c r]; simpl; [auto|]. intros H.
  apply andb_true_iff in H. right. apply H.
Qed.

Lemma first_is_app (a b : string) :
  Js.first_is p a = true -> Js.first_is p (a ++ b) = true.
Proof. destruct a; simpl; [discriminate | auto]. Qed.

(** White space before a text adds no word. *)
Lemma words_lead (lead t : string) (ws : list string) :
  Js.all_chars p lead = true -> words_of p t ws ->
  words_of p (lead ++ t) ws.
Proof.
  intros Hl H. destruct H as [s Hs|sp w rest ws Hsp Hn Hw Hr H].
  - apply words_none. rewrite all_chars_app, Hl, Hs. reflexivity.
  - rewrite <- append_assoc. apply words_cons; try assumption.
    rewrite all_chars_app, Hl, Hsp. reflexivity.
Qed.

(** White space after a text adds no word. *)
Lemma words_trail (t trail : string) (ws : list string) :
  Js.all_chars p trail = true -> words_of p t ws ->
  words_of p (t ++ trail) ws.
Proof.
  intros Ht H.
  induction H as [s Hs|sp w rest ws Hsp Hn Hw Hr H IH].
  - apply words_none. rewrite all_chars_app, Hs, Ht. reflexivity.
  - rewrite !append_assoc. apply words_cons; try assumption.
    destruct Hr as [->|Hr].
    + apply first_is_all. exact Ht.
    + right. apply first_is_app. exact Hr.
Qed.

Lemma split_runs_from_empty_first (s : string) (ws : list string) :
  Js.split_runs_from p false s = EmptyString :: ws ->
  s = EmptyString \/ Js.first_is p s = true.
Proof.
  destruct s as [|c r]; simpl; [auto|].
  destruct (p c); [auto|].
  destruct (Js.split_runs_from p false r); discriminate.
Qed.

Lemma split_runs_from_word_first (s w : string) (ws : list string) :
  Js.split_runs_from p false s = w :: ws -> w <> EmptyString ->
  Js.first_is p s = false.
Proof.
  destruct s as [|c r]; simpl; [reflexivity|].
  destruct (p c); [|reflexivity].
  intros H Hw. inversion H. congruence.
Qed.

(** The pieces of a split that are not empty are the words of the text. *)
Lemma split_runs_from_words (s : string) :
  forall b, words_of p s (nonempty_pieces (Js.split_runs_from p b s)).
Proof.
  induction s as [|c r IH]; intros b.
  - apply words_none. reflexivity.
  - simpl Js.split_runs_from. destruct (p c) eqn:Hc.
    + assert (G : words_of p (String c r)
                    (nonempty_pieces (Js.split_runs_from p true r))).
      { apply (words_lead (String c EmptyString)); [|apply IH].
        simpl. rewrite Hc. reflexivity. }
      destruct b; exact G.
    + specialize (IH false).
      pose proof (split_runs_from_free p r false) as [Hne Hfree].
      destruct (Js.split_runs_from p false r) as [|w ws] eqn:E;
        [congruence|].
      inversion Hfree as [|? ? Hw _]; subst.
      change (nonempty_pieces (String c w :: ws))
        with (String c w :: nonempty_pieces ws).
      destruct w as [|d w'].
      * change (String c r) with ("" ++ String c "" ++ r)%string.
        apply words_cons; try reflexivity; try discriminate.
        -- simpl. rewrite Hc. reflexivity.
        -- eapply split_runs_from_empty_first. exact E.
        -- exact IH.
      * change (nonempty_pieces (String d w' :: ws))
          with (String d w' :: nonempty_pieces ws) in IH.
        pose proof (split_runs_from_word_first r _ _ E) as Hf.
        specialize (Hf ltac:(discriminate)).
        inversion IH as [|sp w0 rest ws0 Hsp Hn Hw0 Hr H]; subst.
        destruct sp as [|e sp'].
        -- change (String c ("" ++ String d w' ++ rest))
             with ("" ++ String c (String d w') ++ rest)%string.
           apply words_cons; try assumption; try reflexivity;
             try discriminate.
           simpl. rewrite Hc. simpl in Hw0. exact Hw0.
        -- simpl in Hf, Hsp. rewrite Hf in Hsp. discriminate Hsp.
Qed.

Lemma skip_while_lead (s : string) :
  exists lead,
    s = (lead ++ Js.skip_while p s)%string /\ Js.all_chars p lead = true.
Proof.
  induction s as [|c r IH]; simpl.
  - exists EmptyString. auto.
  - destruct (p c) eqn:Hc.
    + destruct IH as (lead & E & Hl). exists (String c lead). simpl.
      rewrite <- E, Hc, Hl. auto.
    + exists EmptyString. auto.
Qed.

Lemma cut_end_trail (s : string) :
  exists trail,
    s = (cut_end p s ++ trail)%string /\ Js.all_chars p trail = true.
Proof.
  induction s as [|c r IH].
  - exists EmptyString. auto.
  - destruct (Js.all_chars p r) eqn:Hr.
    + destruct (p c) eqn:Hc.
      * exists (String c r). rewrite cut_end_all.
        -- simpl. rewrite Hc, Hr. auto.
        -- simpl. rewrite Hc, Hr. reflexivity.
      * exists r. rewrite cut_end_last by assumption. auto.
    + destruct IH as (trail & E & Ht). exists trail.
      rewrite cut_end_cons by assumption. simpl. rewrite <- E. auto.
Qed.
End WordsOf.

Lemma nonempty_pieces_all (l : list string) :
  Forall (fun w => w <> EmptyString) l -> nonempty_pieces l = l.
Proof.
  induction 1 as [|x r Hx _ IH]; simpl; [reflexivity|].
  destruct x; [congruence|]. simpl. fold (nonempty_pieces r).
  rewrite IH. reflexivity.
Qed.

Lemma words_of_shape (p : ascii -> bool) (s : string) (ws : list string) :
  words_of p s ws ->
  Forall (fun w => w <> EmptyString
                   /\ Js.all_chars (fun c => negb (p c)) w = true) ws.
Proof. induction 1; constructor; auto. Qed.

(** The words of the trimmed text are the words of the text. *)
Lemma trim_words (text : string) :
  words_of Js.is_space text
    (nonempty_pieces (Js.split_runs Js.is_space (Js.trim text))).
Proof.
  destruct (skip_while_lead Js.is_space text) as (lead & E1 & Hl).
  destruct (cut_end_trail Js.is_space (Js.skip_while Js.is_space text))
    as (trail & E2 & Ht).
  change (cut_end Js.is_space (Js.skip_while Js.is_space text))
    with (Js.trim text) in E2.
  rewrite E1, E2 at 1.
  apply words_lead; [exact Hl|]. apply words_trail; [exact Ht|].
  apply split_runs_from_words.
Qed.

Lemma join_nonempty_pieces (text : string) :
  Js.join " " (Js.split_runs Js.is_space (Js.trim text))
  = Js.join " "
      (nonempty_pieces (Js.split_runs Js.is_space (Js.trim text))).
Proof.
  destruct (class_words text) as (words & E & _ & [->|(w & ws & -> & H)]);
    rewrite E; [reflexivity|].
  rewrite nonempty_pieces_all; [reflexivity|].
  eapply Forall_impl; [|exact H]. intros x [Hx _]. exact Hx.
Qed.

(** X4: the value of a [class] attribute is printed as its words joined by
    one space each, where the words are the maximal runs of characters of
    the value that are not white space, in their order: no word holds white
    space, none is empty, and no white space is left at either end.
    Printing the text so printed gives the same text again, with no line
    before or after it, wherever it stands. *)
Theorem class_text_single_spaced (path : AstPath) (text : string) :
  exists lead formatted trail words,
    printClassText path text = DArr [lead; DStr formatted; trail]
    /\ words_of Js.is_space text words
    /\ formatted = Js.join " " words
    /\ Forall (fun w => Js.all_chars (fun c => negb (Js.is_space c)) w = true)
         words
    /\ Forall (fun w => w <> EmptyString) words
    /\ forall path',
         printClassText path' formatted
         = DArr [DStr ""; DStr formatted; DStr ""].
Proof.
  pose proof (trim_words text) as W.
  pose proof (join_nonempty_pieces text) as J.
  destruct (class_words text) as (words & E & Hfree & Hshape).
  destruct (class_words_fixed words Hshape) as (Hf & Hl & Hfix & Hne).
  set (ws := nonempty_pieces (Js.split_runs Js.is_space (Js.trim text)))
    in *.
  rewrite E in J.
  unfold printClassText. rewrite E, J in *.
  eexists. exists (Js.join " " ws). eexists. exists ws.
  split; [reflexivity|]. split; [exact W|]. split; [reflexivity|].
  pose proof (words_of_shape _ _ _ W) as S.
  split; [eapply Forall_impl; [|exact S]; intros x [_ Hx]; exact Hx|].
  split; [eapply Forall_impl; [|exact S]; intros x [Hx _]; exact Hx|].
  intros path'. rewrite Hfix, Hf, Hl.
  rewrite !andb_false_r. reflexivity.
Qed.

(** ** String literals *)

Lemma replaceAll_char (q c : ascii) (r rep : string) :
  Js.replaceAll_from 0 (String c r) (Js.str1 q) rep
  = if Ascii.eqb c q
    then (rep ++ Js.replaceAll_from 0 r (Js.str1 q) rep)%string
    else String c (Js.replaceAll_from 0 r (Js.str1 q) rep).
Proof.
  destruct (Ascii.eqb_spec c q) as [->|Hn].
  - apply (replaceAll_match q "" r rep).
  - apply replaceAll_no_match. simpl.
    destruct (ascii_dec q c); [congruence | reflexivity].
Qed.

Lemma quotes_escaped_weaken (q : ascii) (s : string) :
  quotes_escaped q false s = true -> quotes_escaped q true s = true.
Proof.
  destruct s as [|c r]; simpl; [reflexivity|]. intros H.
  apply andb_true_iff in H. destruct H as [_ H]. rewrite H.
  rewrite orb_true_r. reflexivity.
Qed.

Lemma escaped_quotes (q : ascii) (value : string) :
  q <> "\"%char ->
  quotes_escaped q false
    (Js.replaceAll value (Js.str1 q) ("\" ++ Js.str1 q)) = true.
Proof.
  intros Hq. unfold Js.replaceAll.
  induction value as [|c r IH]; [reflexivity|].
  rewrite replaceAll_char. destruct (Ascii.eqb_spec c q) as [->|Hn].
  - match goal with
    | |- quotes_escaped _ _ (_ ++ ?e) = _ =>
        change (quotes_escaped q false (String "\" (String q e)) = true)
    end.
    cbn [quotes_escaped].
    destruct (Ascii.eqb_spec "\" q) as [E|_]; [congruence|].
    rewrite !Ascii.eqb_refl.
    destruct (Ascii.eqb_spec q "\") as [E|_]; [congruence|].
    rewrite orb_true_r. exact IH.
  - cbn [quotes_escaped].
    destruct (Ascii.eqb_spec c q) as [E|_]; [congruence|]. cbn [negb orb andb].
    destruct (Ascii.eqb c "\"); [apply quotes_escaped_weaken|]; exact IH.
Qed.

Lemma escaped_first (q : ascii) (value : string) :
  q <> "\"%char ->
  String.prefix (Js.str1 q)
    (Js.replaceAll_from 0 value (Js.str1 q) ("\" ++ Js.str1 q)) = false.
Proof.
  intros Hq. destruct value as [|c r]; [reflexivity|].
  rewrite replaceAll_char. destruct (Ascii.eqb_spec c q) as [->|Hn]; simpl.
  - destruct (ascii_dec q "\"); [congruence | reflexivity].
  - destruct (ascii_dec q c); [congruence | reflexivity].
Qed.

Lemma unescaped_quotes (q : ascii) (value : string) :
  q <> "\"%char ->
  Js.replaceAll (Js.replaceAll value (Js.str1 q) ("\" ++ Js.str1 q))
    ("\" ++ Js.str1 q) (Js.str1 q)
  = value.
Proof.
  intros Hq. unfold Js.replaceAll.
  pose proof (escaped_first q) as Hp.
  change ("\" ++ Js.str1 q)%string with (String "\" (Js.str1 q)) in *.
  induction value as [|c r IH]; [reflexivity|].
  rewrite replaceAll_char. destruct (Ascii.eqb_spec c q) as [->|Hn].
  - rewrite (replaceAll_match "\" (Js.str1 q)), IH. reflexivity.
  - rewrite replaceAll_no_match, IH; [reflexivity|].
    cbn [String.prefix]. destruct (ascii_dec "\" c); [|reflexivity].
    apply Hp. exact Hq.
Qed.

Lemma preferred_quote (text : string) (preferSingleQuote : bool) :
  exists q, getPreferredQuote text preferSingleQuote = Js.str1 q
            /\ (q = single_quote \/ q = double_quote).
Proof.
  unfold getPreferredQuote.
  destruct preferSingleQuote; destruct (_ <? _)%nat; eauto.
Qed.

(** X5: a string literal is printed between two quotes of one kind, and in
    the text between them every quote of that kind comes right after a
    backslash: none can end the literal early.  A value without that quote is
    printed as it is, and in every case the value is found back by taking
    out the backslash before each quote. *)
Theorem string_literal_quotes_escaped (options : Options) (path : AstPath)
    (loc : Loc) (value : string) :
  exists q text,
    print options path (StringLiteral loc value)
    = Ok (DArr [DStr (Js.str1 q); DStr text; DStr (Js.str1 q)],
          StringLiteral loc value)
    /\ (q = single_quote \/ q = double_quote)
    /\ quotes_escaped q false text = true
    /\ (Js.includes value (Js.str1 q) = false -> text = value)
    /\ Js.replaceAll text ("\" ++ Js.str1 q) (Js.str1 q) = value.
Proof.
  simpl. unfold printStringLiteral.
  destruct (preferred_quote value true) as (q & -> & Hq).
  assert (Hb : q <> "\"%char) by (destruct Hq; subst; discriminate).
  exists q. eexists. split; [reflexivity|]. split; [exact Hq|].
  split; [apply escaped_quotes; exact Hb|].
  split; [apply replaceAll_absent | apply unescaped_quotes; exact Hb].
Qed.

(** ** A block kept as the text of an attribute value *)

Lemma prefix_split (a s : string) :
  String.prefix a s = true -> exists t, s = (a ++ t)%string.
Proof.
  revert s. induction a as [|c r IH]; intros s H; [exists s; reflexivity|].
  destruct s as [|d s']; simpl in H; [discriminate|].
  destruct (ascii_dec c d) as [->|_]; [|discriminate].
  destruct (IH s' H) as [t ->]. exists t. reflexivity.
Qed.

(** Induction on the matches that [replaceAll] finds *)
Lemma replaceAll_ind (a : ascii) (pat rep : string)
    (P : string -> string -> Prop) :
  P EmptyString EmptyString ->
  (forall t u, P t u -> P (String a pat ++ t)%string (rep ++ u)%string) ->
  (forall c t u, String.prefix (String a pat) (String c t) = false ->
                 P t u -> P (String c t) (String c u)) ->
  forall t, P t (Js.replaceAll t (String a pat) rep).
Proof.
  intros H0 Hm Hn t. unfold Js.replaceAll.
  assert (G : forall n t, String.length t <= n ->
                          P t (Js.replaceAll_from 0 t (String a pat) rep)).
  { clear t. induction n as [|n IH]; intros t Hl.
    - destruct t; [exact H0 | simpl in Hl; lia].
    - destruct t as [|c t']; [exact H0|].
      destruct (String.prefix (String a pat) (String c t')) eqn:Hp.
      + destruct (prefix_split _ _ Hp) as [r E]. rewrite E.
        rewrite replaceAll_match. apply Hm. apply IH.
        assert (L : String.length (String c t')
                    = String.length (String a pat ++ r))
          by (rewrite E; reflexivity).
        rewrite append_length in L. simpl in L, Hl. lia.
      + rewrite replaceAll_no_match by exact Hp. apply Hn; [exact Hp|].
        apply IH. simpl in Hl. lia. }
  apply (G (String.length t)). lia.
Qed.

Lemma includes_cons (c : ascii) (s pat : string) :
  Js.includes (String c s) pat
  = String.prefix pat (String c s) || Js.includes s pat.
Proof. reflexivity. Qed.

Lemma includes_tail (c : ascii) (s pat : string) :
  Js.includes (String c s) pat = false -> Js.includes s pat = false.
Proof.
  rewrite includes_cons. intros H. apply orb_false_iff in H. apply H.
Qed.


Lemma prefix_cons_eq (a : ascii) (p t : string) :
  String.prefix (String a p) (String a t) = String.prefix p t.
Proof. simpl. destruct (ascii_dec a a); [reflexivity | congruence]. Qed.

Lemma prefix_cons_neq (a c : ascii) (p t : string) :
  a <> c -> String.prefix (String a p) (String c t) = false.
Proof.
  intros H. simpl. destruct (ascii_dec a c); [congruence | reflexivity].
Qed.

Lemma prefix_empty (t : string) : String.prefix "" t = true.
Proof. destruct t; reflexivity. Qed.

Lemma prefix_one (a : ascii) (t : string) :
  String.prefix (String a "") t = Js.first_is (Ascii.eqb a) t.
Proof.
  destruct t as [|c t]; [reflexivity|]. simpl.
  destruct (ascii_dec a c) as [->|H].
  - rewrite Ascii.eqb_refl. apply prefix_empty.
  - destruct (Ascii.eqb_spec a c); [congruence | reflexivity].
Qed.

Lemma prefix_shorter (a : ascii) (p t : string) :
  String.prefix (String a "") t = false ->
  String.prefix (String a p) t = false.
Proof.
  destruct t as [|c t]; [reflexivity|].
  destruct (ascii_dec a c) as [->|H].
  - rewrite !prefix_cons_eq, prefix_empty. discriminate.
  - intros _. apply prefix_cons_neq. exact H.
Qed.

Ltac prefix_simp :=
  repeat first
    [ rewrite prefix_cons_eq
    | rewrite prefix_cons_neq by discriminate
    | rewrite prefix_empty ].

(** The text with its mustache openings marked starts as the text does, and
    holds an opening exactly when the text holds three braces in a row. *)
Lemma marked_openings (s : string) :
  (forall f, Js.first_is f (Js.replaceAll s "{{" "{_{") = Js.first_is f s)
  /\ Js.includes (Js.replaceAll s "{{" "{_{") "{{" = Js.includes s "{{{".
Proof.
  apply (replaceAll_ind "{" "{" "{_{"
           (fun t u => (forall f, Js.first_is f u = Js.first_is f t)
                       /\ Js.includes u "{{" = Js.includes t "{{{")).
  - split; reflexivity.
  - intros t u [Hh Hi]. split; [reflexivity|].
    cbn [append]. rewrite !includes_cons. prefix_simp.
    rewrite Hi, !prefix_one, Hh. cbn [orb].
    destruct (Js.first_is (Ascii.eqb "{") t) eqn:E; [reflexivity|].
    rewrite <- prefix_one in E. rewrite (prefix_shorter _ _ _ E).
    reflexivity.
  - intros c t u Hp [Hh Hi]. split; [reflexivity|].
    rewrite !includes_cons, Hi. f_equal.
    destruct (ascii_dec "{" c) as [<-|Hc].
    + rewrite prefix_cons_eq in Hp. rewrite !prefix_cons_eq.
      rewrite prefix_one in *.
      rewrite Hh, Hp. rewrite <- prefix_one in Hp.
      rewrite (prefix_shorter _ _ _ Hp). reflexivity.
    + rewrite !prefix_cons_neq by exact Hc. reflexivity.
Qed.

(** Turning the marks back gives the text, when the text holds no mark of
    its own. *)
Lemma marks_turned_back (s : string) :
  Js.includes s "{_{" = false ->
  Js.replaceAll (Js.replaceAll s "{{" "{_{") "{_{" "{{" = s.
Proof.
  apply (replaceAll_ind "{" "{" "{_{"
           (fun t u => ((forall f, Js.first_is f u = Js.first_is f t)
                        /\ String.prefix "_{" u = String.prefix "_{" t)
                       /\ (Js.includes t "{_{" = false ->
                           Js.replaceAll u "{_{" "{{" = t))).
  - repeat split; reflexivity.
  - intros t u [_ IH]. split; [split; reflexivity|].
    intros H. cbn [append] in H.
    apply includes_tail in H. apply includes_tail in H.
    unfold Js.replaceAll in *.
    rewrite (replaceAll_match "{" "_{" u "{{"), (IH H). reflexivity.
  - intros c t u Hp [[Hh H2] IH]. split; [split; [reflexivity|]|].
    + destruct (ascii_dec "_" c) as [<-|Hc].
      * rewrite !prefix_cons_eq, !prefix_one. apply Hh.
      * rewrite !prefix_cons_neq by exact Hc. reflexivity.
    + intros H. rewrite includes_cons in H.
      apply orb_false_iff in H. destruct H as [Hq Hi].
      unfold Js.replaceAll in *.
      rewrite replaceAll_no_match, (IH Hi); [reflexivity|].
      destruct (ascii_dec "{" c) as [<-|Hc].
      * rewrite prefix_cons_eq in *. rewrite H2. exact Hq.
      * apply prefix_cons_neq. exact Hc.
Qed.

(** How often a character occurs after [replaceAll], when the pattern does
    not hold it *)
Lemma count_char_replaceAll (x a : ascii) (pat rep s : string) :
  count_char x (String a pat) = 0 ->
  let u := Js.replaceAll s (String a pat) rep in
  count_char x s <= count_char x u
  /\ (count_char x rep = 0 -> count_char x u = count_char x s)
  /\ (0 < count_char x rep -> Js.includes s (String a pat) = true ->
      count_char x s < count_char x u).
Proof.
  intros Hpat. cbv zeta.
  apply (replaceAll_ind a pat rep
           (fun t u =>
              count_char x t <= count_char x u
              /\ (count_char x rep = 0 -> count_char x u = count_char x t)
              /\ (0 < count_char x rep ->
                  Js.includes t (String a pat) = true ->
                  count_char x t < count_char x u))).
  - repeat split; auto. intros _ H. discriminate H.
  - intros t u (H1 & H2 & H3). rewrite !count_char_app, Hpat.
    repeat split; intros; try rewrite H2 by assumption; lia.
  - intros c t u Hp (H1 & H2 & H3).
    rewrite includes_cons, Hp. simpl.
    repeat split; intros; try rewrite H2 by assumption;
      try specialize (H3 ltac:(assumption) ltac:(assumption)); lia.
Qed.

(** Marking and turning back: the text of the block is found again exactly
    when it holds no three braces in a row. *)
Lemma marked_text_restored (s : string) :
  Js.includes s "{_{" = false ->
  escapedText (Js.replaceAll s "{{" "{_{") = s
  <-> Js.includes s "{{{" = false.
Proof.
  intros Hu. unfold escapedText.
  destruct (marked_openings s) as [_ Hd].
  set (e := Js.replaceAll s "{{" "{_{") in *.
  split.
  - intros E. destruct (Js.includes s "{{{") eqn:H3; [|reflexivity].
    exfalso.
    destruct (count_char_replaceAll "\" "{" "{" "{_{" s eq_refl)
      as (_ & A & _). fold e in A. specialize (A eq_refl).
    destruct (count_char_replaceAll "\" "{" "{" "\{{" e eq_refl)
      as (_ & _ & B). specialize (B ltac:(simpl; lia) Hd).
    destruct (count_char_replaceAll "\" "{" "_{" "{{"
                (Js.replaceAll e "{{" "\{{") eq_refl)
      as (_ & C & _). specialize (C eq_refl).
    rewrite E in C. lia.
  - intros H3. rewrite H3 in Hd.
    rewrite (replaceAll_absent "{{" "\{{" e Hd).
    apply marks_turned_back. exact Hu.
Qed.

(** ** Escaped openings *)

Lemma openings_escaped (s : string) :
  Js.replaceAll (Js.replaceAll s "{{" "\{{") "\{{" "{{" = s
  /\ (Js.includes s "{_{" = false ->
      Js.includes (Js.replaceAll s "{{" "\{{") "{_{" = false).
Proof.
  enough (G : (String.prefix "{{" (Js.replaceAll s "{{" "\{{") = false
               /\ (Js.first_is (Ascii.eqb "{") (Js.replaceAll s "{{" "\{{")
                   = true -> Js.first_is (Ascii.eqb "{") s = true)
               /\ (String.prefix "_{" (Js.replaceAll s "{{" "\{{") = true ->
                   String.prefix "_{" s = true))
              /\ Js.replaceAll (Js.replaceAll s "{{" "\{{") "\{{" "{{" = s
              /\ (Js.includes s "{_{" = false ->
                  Js.includes (Js.replaceAll s "{{" "\{{") "{_{" = false))
    by apply G.
  apply (replaceAll_ind "{" "{" "\{{"
           (fun t u =>
              (String.prefix "{{" u = false
               /\ (Js.first_is (Ascii.eqb "{") u = true ->
                   Js.first_is (Ascii.eqb "{") t = true)
               /\ (String.prefix "_{" u = true ->
                   String.prefix "_{" t = true))
              /\ Js.replaceAll u "\{{" "{{" = t
              /\ (Js.includes t "{_{" = false ->
                  Js.includes u "{_{" = false))).
  - repeat split; auto.
  - intros t u ((I1 & I2 & I3) & R & M). cbn [append].
    split; [split; [|split]|split].
    + apply prefix_cons_neq. discriminate.
    + intros H. discriminate H.
    + rewrite prefix_cons_neq by discriminate. intros H. discriminate H.
    + unfold Js.replaceAll in *.
      change (Js.replaceAll_from 0 ("\{{" ++ u) "\{{" "{{"
              = ("{{" ++ t)%string).
      rewrite (replaceAll_match "\" "{{" u "{{"), R. reflexivity.
    + intros H. rewrite !includes_cons in *.
      apply orb_false_iff in H. destruct H as [_ H].
      apply orb_false_iff in H. destruct H as [H1 H2].
      rewrite (M H2). prefix_simp. rewrite prefix_cons_eq in H1.
      destruct (String.prefix "_{" u) eqn:E; [|reflexivity].
      rewrite (I3 eq_refl) in H1. discriminate H1.
  - intros c t u Hp ((I1 & I2 & I3) & R & M).
    split; [split; [|split]|split].
    + destruct (ascii_dec "{" c) as [<-|Hc];
        [|apply prefix_cons_neq; exact Hc].
      rewrite prefix_cons_eq in *. rewrite prefix_one in *.
      destruct (Js.first_is (Ascii.eqb "{") u) eqn:E; [|reflexivity].
      rewrite (I2 eq_refl) in Hp. discriminate Hp.
    + intros H. exact H.
    + destruct (ascii_dec "_" c) as [<-|Hc].
      * rewrite !prefix_cons_eq, !prefix_one. exact I2.
      * rewrite prefix_cons_neq by exact Hc. intros H. discriminate H.
    + unfold Js.replaceAll in *.
      rewrite replaceAll_no_match, R; [reflexivity|].
      destruct (ascii_dec "\" c) as [<-|Hc].
      * rewrite prefix_cons_eq. exact I1.
      * apply prefix_cons_neq. exact Hc.
    + intros H. rewrite includes_cons in *.
      apply orb_false_iff in H. destruct H as [H1 H2].
      rewrite (M H2), orb_false_r.
      destruct (ascii_dec "{" c) as [<-|Hc];
        [|apply prefix_cons_neq; exact Hc].
      rewrite prefix_cons_eq in *.
      destruct (String.prefix "_{" u) eqn:E; [|reflexivity].
      rewrite (I3 eq_refl) in H1. discriminate H1.
Qed.

(** X6: the text that is written back for a text run tells the texts
    apart.  For texts that hold no mark ["{_{"], the text of the run is found
    back from the text written by taking out the backslash before each
    escaped opening, so two different texts are never written back as the
    same text. *)
Theorem escaped_text_tells_texts_apart (a b : string) :
  Js.includes a "{_{" = false ->
  Js.includes b "{_{" = false ->
  Js.replaceAll (escapedText a) "\{{" "{{" = a
  /\ (escapedText a = escapedText b -> a = b).
Proof.
  assert (R : forall s, Js.includes s "{_{" = false ->
                        Js.replaceAll (escapedText s) "\{{" "{{" = s).
  { intros s H. unfold escapedText.
    destruct (openings_escaped s) as [E M].
    rewrite (replaceAll_absent _ _ _ (M H)). exact E. }
  intros Ha Hb. split; [exact (R a Ha)|].
  intros E. rewrite <- (R a Ha), <- (R b Hb), E. reflexivity.
Qed.

Lemma escaped_text_tells_texts_apart_witness :
  Js.replaceAll (escapedText "a {{b}} c") "\{{" "{{" = "a {{b}} c"
  /\ (escapedText "a {{b}} c" = escapedText "a \{{b}} c" ->
      "a {{b}} c" = "a \{{b}} c").
Proof.
  apply (escaped_text_tells_texts_apart "a {{b}} c" "a \{{b}} c");
    reflexivity.
Defined.

(** X7: a block met inside a double-quoted attribute value is kept as a
    text node whose mustache openings are marked.  When the source of the
    block holds no mark ["{_{"] of its own, the text that the printer writes
    back for that node is the source of the block exactly when the source
    holds no three braces in a row; and then, in an attribute other than
    [class], the node is printed as the lines of the source. *)
Theorem block_in_attribute_value_restored (sourceStr : string) (loc : Loc) :
  Js.includes sourceStr "{_{" = false ->
  exists chars,
    visitBlockStatement "attributeValueDoubleQuoted" sourceStr loc
    = AppendDynamicAttributeValuePart (TextNode loc chars)
    /\ (escapedText chars = sourceStr
        <-> Js.includes sourceStr "{{{" = false)
    /\ (Js.includes sourceStr "{{{" = false ->
        forall options path attrName,
          getCurrentAttributeName path = Some attrName ->
          attrName <> EmptyString -> attrName <> "class" ->
          print options path (TextNode loc chars)
          = Ok (replaceEndOfLine sourceStr, TextNode loc chars)).
Proof.
  intros Hu. eexists. split; [reflexivity|].
  split; [apply marked_text_restored; exact Hu|].
  intros H3 options path attrName Ha Hn Hc. simpl.
  unfold printTextNode. rewrite Ha.
  destruct attrName as [|c r]; [congruence|].
  apply String.eqb_neq in Hc. rewrite Hc.
  rewrite (proj2 (marked_text_restored sourceStr Hu) H3). reflexivity.
Qed.

Lemma block_in_attribute_value_restored_witness :
  exists chars,
    visitBlockStatement "attributeValueDoubleQuoted" "{{#if a}}b{{/if}}"
      no_loc
    = AppendDynamicAttributeValuePart (TextNode no_loc chars)
    /\ (escapedText chars = "{{#if a}}b{{/if}}"
        <-> Js.includes "{{#if a}}b{{/if}}" "{{{" = false)
    /\ (Js.includes "{{#if a}}b{{/if}}" "{{{" = false ->
        forall options path attrName,
          getCurrentAttributeName path = Some attrName ->
          attrName <> EmptyString -> attrName <> "class" ->
          print options path (TextNode no_loc chars)
          = Ok (replaceEndOfLine "{{#if a}}b{{/if}}", TextNode no_loc chars)).
Proof.
  apply (block_in_attribute_value_restored "{{#if a}}b{{/if}}" no_loc).
  reflexivity.
Defined.

(** ** A source kept between markers *)

Lemma drop_append (a b : string) : Js.drop (String.length a) (a ++ b) = b.
Proof. induction a as [|c r IH]; [reflexivity | exact IH]. Qed.

Lemma endsWith_append (a b : string) : Js.endsWith (a ++ b) b = true.
Proof.
  unfold Js.endsWith. rewrite append_length.
  replace (String.length a + String.length b - String.length b)
    with (String.length a) by lia.
  rewrite drop_append, String.eqb_refl, andb_true_r.
  apply Nat.leb_le. lia.
Qed.

Lemma replaceAll_before_marker (a : ascii) (pat rep s : string) :
  marker_inside (String a pat) s = false ->
  Js.replaceAll_from 0 (s ++ String a pat) (String a pat) rep
  = (s ++ rep)%string.
Proof.
  induction s as [|c r IH]; intros H.
  - simpl append. rewrite <- (append_empty_r (String a pat)) at 1.
    rewrite replaceAll_match. simpl. apply append_empty_r.
  - cbn [marker_inside] in H. apply orb_false_iff in H.
    destruct H as [Hp Hr].
    change (String c r ++ String a pat)%string
      with (String c (r ++ String a pat)) in *.
    rewrite replaceAll_no_match by exact Hp. rewrite (IH Hr). reflexivity.
Qed.

Lemma source_between_markers (options : Options) (loc : Loc)
    (source : string) :
  marker_inside "__uncomment__" source = false ->
  printMustacheComment options loc
    ("__uncomment__" ++ source ++ "__uncomment__")
  = DArr [DStr source].
Proof.
  intros H. unfold printMustacheComment, Js.startsWith.
  rewrite prefix_append.
  rewrite <- append_assoc, endsWith_append. cbn [andb].
  rewrite append_assoc. unfold Js.replaceAll.
  rewrite (replaceAll_match "_" "_uncomment__").
  rewrite (replaceAll_before_marker "_" "_uncomment__" "" source H).
  rewrite append_empty_r. reflexivity.
Qed.

(** A source that does not hold the start of the marker holds the marker
    nowhere, not even across its end. *)
Lemma marker_start_absent (source : string) :
  Js.includes source "__uncomment" = false ->
  marker_inside "__uncomment__" source = false.
Proof.
  induction source as [|c r IH]; [reflexivity|]. intros H.
  rewrite includes_cons in H. apply orb_false_iff in H.
  destruct H as [Hp Hi]. cbn [marker_inside]. rewrite (IH Hi), orb_false_r.
  destruct (String.prefix "__uncomment__" (String c r ++ "__uncomment__"))
    eqn:E; [|reflexivity].
  exfalso. clear IH Hi. cbn [append] in E.
  destruct (ascii_dec "_" c) as [<-|N];
    [ rewrite prefix_cons_eq in E, Hp
    | rewrite prefix_cons_neq in E by exact N; discriminate E ].
  do 10 (destruct r as [|? r];
         [ vm_compute in E; discriminate E
         | cbn [append] in E;
           match type of E with
           | String.prefix (String ?a _) (String ?x _) = true =>
               destruct (ascii_dec a x) as [<-|N];
               [ rewrite prefix_cons_eq in E, Hp
               | rewrite prefix_cons_neq in E by exact N; discriminate E ]
           end ]).
  rewrite prefix_empty in Hp. discriminate Hp.
Qed.

(** X8: a partial, and a block met where a tag takes its attributes, is
    kept as a mustache comment whose value is the source between two
    markers; [print] writes such a comment back as the source alone, with
    nothing around it, whenever the marker starts nowhere in the source
    followed by the marker but at its end. *)
Theorem source_between_markers_printed_verbatim (source : string)
    (loc : Loc) :
  marker_inside "__uncomment__" source = false ->
  exists comment,
    visitPartialStatement source loc = AppendChild comment
    /\ visitBlockStatement "beforeAttributeName" source loc
       = PushStartTagComment comment
    /\ visitBlockStatement "afterAttributeName" source loc
       = PushStartTagComment comment
    /\ forall options path,
         print options path comment = Ok (DArr [DStr source], comment).
Proof.
  intros H. eexists. split; [reflexivity|].
  split; [reflexivity|]. split; [reflexivity|].
  intros options path. unfold b_mustacheComment. cbn [print].
  rewrite (source_between_markers options loc source H). reflexivity.
Qed.

Lemma source_between_markers_printed_verbatim_witness :
  exists comment,
    visitPartialStatement "{{> my_partial a=1}}" no_loc = AppendChild comment
    /\ visitBlockStatement "beforeAttributeName" "{{> my_partial a=1}}"
         no_loc
       = PushStartTagComment comment
    /\ visitBlockStatement "afterAttributeName" "{{> my_partial a=1}}"
         no_loc
       = PushStartTagComment comment
    /\ forall options path,
         print options path comment
         = Ok (DArr [DStr "{{> my_partial a=1}}"], comment).
Proof.
  apply (source_between_markers_printed_verbatim "{{> my_partial a=1}}"
           no_loc).
  apply marker_start_absent. reflexivity.
Defined.

(** ** The name of a partial block *)

Lemma includes_prefix (s pat : string) :
  Js.includes s pat = false -> String.prefix pat s = false.
Proof.
  destruct s as [|c r]; simpl; intros H; apply orb_false_iff in H; apply H.
Qed.

Lemma concat_cons_append (sep a x : string) (l : list string) :
  String.concat sep ((a ++ x)%string :: l)
  = (a ++ String.concat sep (x :: l))%string.
Proof. destruct l; simpl; [reflexivity | apply append_assoc]. Qed.

(** X9: the path that the parser gives a partial block is its name with
    the marker ["> "] before it.  For a name that has a first part and
    holds no marker of its own, the opening of the block is printed with
    the marker and the name, and the closing of the block is printed, and
    the path left in the tree, as for the block of that name without the
    marker; closing that block leaves its path as it is. *)
Theorem partial_block_closed_by_its_name (options : Options)
    (state sourceStr : string) (loc : Loc) (name : PathData)
    (first : string) (others : list string) (program : BodyData node)
    (closeStrip : StripFlags) :
  parts name = first :: others ->
  Js.includes (Js.join "/" (parts name)) "> " = false ->
  let p := fst (visitPartialBlockStatement state sourceStr loc name) in
  let plain := Js.join "/" (parts name) in
  let plainPath := mkPath plain [plain] (path_loc name) in
  printPathExpression p = DStr ("> " ++ plain)
  /\ printCloseBlock options p program closeStrip
     = printCloseBlock options plainPath program closeStrip
  /\ snd (printCloseBlock options plainPath program closeStrip) = plainPath.
Proof.
  intros Hp Hi. cbv zeta. unfold visitPartialBlockStatement.
  rewrite Hp in *. cbn [fst]. unfold Js.join in *.
  rewrite concat_cons_append.
  set (plain := String.concat "/" (first :: others)) in *.
  unfold printCloseBlock, printPathExpression. cbn [original path_loc].
  unfold Js.startsWith. rewrite prefix_append.
  rewrite (includes_prefix _ _ Hi).
  unfold Js.replaceAll. rewrite (replaceAll_match ">" " " plain "").
  fold (Js.replaceAll plain "> " ""). rewrite (replaceAll_absent _ _ _ Hi).
  repeat split.
Qed.

Lemma partial_block_closed_by_its_name_witness :
  let name := mkPath "layouts/main" ["layouts"; "main"] no_loc in
  let p := fst (visitPartialBlockStatement "data" "" no_loc name) in
  let plainPath := mkPath "layouts/main" ["layouts/main"] no_loc in
  printPathExpression p = DStr "> layouts/main"
  /\ printCloseBlock sensitive_options p (block_of []) no_strip
     = printCloseBlock sensitive_options plainPath (block_of []) no_strip
  /\ snd (printCloseBlock sensitive_options plainPath (block_of []) no_strip)
     = plainPath.
Proof.
  apply (partial_block_closed_by_its_name sensitive_options "data" ""
           no_loc (mkPath "layouts/main" ["layouts"; "main"] no_loc)
           "layouts" ["main"] (block_of []) no_strip);
    reflexivity.
Defined.

(** ** Text next to an element or a block, in the mode ["ignore"] *)

Lemma type_is_next_not_last (path : AstPath) (t u : string) :
  type_is (next path) t || type_is (next path) u = true ->
  isLast path = false.
Proof.
  intros H. apply orb_true_iff in H.
  destruct H as [H|H]; destruct (type_is_Some _ _ H) as (n & E & _);
    exact (next_not_last path n E).
Qed.

Lemma type_is_previous_not_first (path : AstPath) (t u : string) :
  type_is (previous path) t || type_is (previous path) u = true ->
  isFirst path = false.
Proof.
  intros H. apply orb_true_iff in H.
  destruct H as [H|H]; destruct (type_is_Some _ _ H) as (n & E & _);
    exact (previous_not_first path n E).
Qed.

(** X10: in the mode ["ignore"], a text run that is not white space only
    and stands outside an attribute is set apart from an element or a block
    next to it by a forced line break, whether the source has one there or
    not: one or two hardlines end its document when such a node follows,
    and one or two start it when such a node precedes. *)
Theorem ignore_mode_breaks_next_to_elements (options : Options)
    (path : AstPath) (loc : Loc) (chars : string) :
  ignoreMode options = true ->
  getCurrentAttributeName path = None ->
  htmlWhitespaceUtils.isWhitespaceOnly (escapedText chars) = false ->
  exists d,
    print options path (TextNode loc chars) = Ok (d, TextNode loc chars)
    /\ (type_is (next path) "BlockStatement"
        || type_is (next path) "ElementNode" = true ->
        1 <= trailing_hardlines d <= 2)
    /\ (type_is (previous path) "BlockStatement"
        || type_is (previous path) "ElementNode" = true ->
        1 <= leading_hardlines d <= 2).
Proof.
  intros Hi Ha Hw. eexists. split; [reflexivity|].
  unfold printTextNode. rewrite Ha, Hi. cbn [negb].
  unfold printTextIgnore. rewrite Hw. rewrite !andb_false_r.
  cbn [andb].
  split; intros H.
  - rewrite (type_is_next_not_last _ _ _ H), H.
    destruct (type_is (previous path) "BlockStatement"
              || type_is (previous path) "ElementNode");
      destruct (isFirst path); cbv beta iota zeta;
      rewrite trailing_hardlines_fill; count_breaks; lia.
  - rewrite (type_is_previous_not_first _ _ _ H), H.
    destruct (type_is (next path) "BlockStatement"
              || type_is (next path) "ElementNode");
      destruct (isLast path); cbv beta iota zeta;
      rewrite leading_hardlines_fill; count_breaks; lia.
Qed.

Lemma ignore_mode_breaks_next_to_elements_witness :
  let siblings := [TextNode no_loc "a"; interleaved_element] in
  let path := path_at (Body (block_of siblings)) "body" siblings 0 [] in
  exists d,
    print ignore_options path (TextNode no_loc "a")
    = Ok (d, TextNode no_loc "a")
    /\ 1 <= trailing_hardlines d <= 2.
Proof.
  cbv zeta.
  destruct (ignore_mode_breaks_next_to_elements ignore_options
              (path_at
                 (Body (block_of [TextNode no_loc "a"; interleaved_element]))
                 "body" [TextNode no_loc "a"; interleaved_element] 0 [])
              no_loc "a" eq_refl eq_refl eq_refl)
    as (d & Hd & Hn & _).
  exists d. split; [exact Hd | apply Hn; reflexivity].
Defined.

(** ** The error of [print] *)

(** X11: when [print] fails, the error is that of an unexpected node, for
    the language Handlebars, and the kind that it names is outside the
    kinds of the dispatch and is the kind of a node of the tree: no other
    error is raised, none about a kind that the printer lists, and none
    about a node that the tree does not hold. *)
Theorem print_error_names_node_of_tree (options : Options) (path : AstPath)
    (n : node) (e : PrintError) :
  print options path n = Err e ->
  exists t,
    e = UnexpectedNodeError t "Handlebars"
    /\ in_dispatch t = false /\ mentions t n = true.
Proof.
  intros H. pose proof (print_fails_only options n path) as F.
  rewrite H in F. exact F.
Qed.

Lemma print_error_names_node_of_tree_witness :
  exists t,
    UnexpectedNodeError "Decorator" "Handlebars"
    = UnexpectedNodeError t "Handlebars"
    /\ in_dispatch t = false
    /\ mentions t
         (Body (template_of
                  [TextNode no_loc "a";
                   Other "Decorator" eq_refl no_loc])) = true.
Proof.
  apply (print_error_names_node_of_tree sensitive_options []
           (Body (template_of
                    [TextNode no_loc "a";
                     Other "Decorator" eq_refl no_loc]))
           (UnexpectedNodeError "Decorator" "Handlebars")).
  reflexivity.
Defined.

(** ** The options that [print] reads *)

Lemma bind_ext {A B : Type} (r r' : Result A) (f f' : A -> Result B) :
  r = r' -> (forall a, f a = f' a) -> bind r f = bind r' f'.
Proof. intros -> H. destruct r'; simpl; [apply H | reflexivity]. Qed.

Lemma mapM_from_ext {A B : Type} (f g : nat -> A -> Result B) (l : list A) :
  Forall (fun x => forall i, f i x = g i x) l ->
  forall i, mapM_from f i l = mapM_from g i l.
Proof.
  induction 1 as [|x r Hx _ IH]; intros i; simpl; [reflexivity|].
  apply bind_ext; [apply Hx|]. intros y.
  apply bind_ext; [apply IH|]. reflexivity.
Qed.

Ltac ext_step :=
  match goal with
  | |- ?x = ?x => reflexivity
  | H : forall path, ?cb1 path ?c = ?cb2 path ?c
    |- ?cb1 _ ?c = ?cb2 _ ?c => apply H
  | |- bind _ _ = bind _ _ => apply bind_ext; [|intros ?]
  | |- mapM_from _ _ _ = mapM_from _ _ _ =>
      apply mapM_from_ext;
      (eapply Forall_impl; [|eassumption]); cbv beta; intros ? ? ?
  | |- match ?x with (_, _) => _ end = match ?x with (_, _) => _ end =>
      destruct x
  | |- (if ?b then _ else _) = (if ?b then _ else _) => destruct b
  end.

(** [print] reads its options through [ignoreMode], [singleQuote] and
    [originalText] only. *)
Lemma print_options_ext (o1 o2 : Options) :
  ignoreMode o1 = ignoreMode o2 ->
  singleQuote o1 = singleQuote o2 ->
  originalText o1 = originalText o2 ->
  forall n path, print o1 path n = print o2 path n.
Proof.
  intros Hi Hs Ho n.
  induction n as [n IH] using node_children_ind. intros path.
  destruct n as
    [ [k bl bd bp] | l t at_ mo co ch bp v
    | l p pa [[hl ps]|] [k bl bd bp] [[ik il ib ibp]|] s1 s2 s3
    | l p pa [[hl ps]|] | l p pa [[hl ps]|] e st | l p pa [[hl ps]|]
    | l nm v | l pts | [hl ps] | [pl k v] | | | | | | | | | | ];
    cbn [children_of hash_values inverse_body body pairs value] in IH;
    split_Forall;
    repeat match goal with
           | H : Forall _ (map value _) |- _ =>
               apply (proj1 (Forall_map _ _ _)) in H
           end;
    cbn [print];
    unfold printElementNode, printBlockStatement, printAttrNode,
      printStartingTag, printChildren, printOpenBlock, printElseIfLikeBlock,
      printProgram, printInverse, printPathAndParams,
      printSubExpressionPathAndParams, printParams, printPath, printBody,
      printHash, printHashPair, printArray, printCloseBlock, printElseBlock,
      printTextNode, printMustacheComment;
    cbn [body pairs value kind];
    rewrite ?Hi, ?Hs, ?Ho;
    repeat ext_step.
Qed.

(** X12: of the values of [htmlWhitespaceSensitivity] the printer tells
    ["ignore"] from the rest and nothing else: with any two values other
    than ["ignore"], such as ["css"] and ["strict"], and the other options
    the same, [print] gives the same result on every tree and path. *)
Theorem print_tells_ignore_only (mode1 mode2 : string) (quote : bool)
    (text : string) (path : AstPath) (n : node) :
  String.eqb mode1 "ignore" = false ->
  String.eqb mode2 "ignore" = false ->
  print (mkOptions mode1 quote text) path n
  = print (mkOptions mode2 quote text) path n.
Proof.
  intros H1 H2. apply print_options_ext; try reflexivity.
  unfold ignoreMode. simpl. rewrite H1, H2. reflexivity.
Qed.

Lemma print_tells_ignore_only_witness :
  print (mkOptions "css" false "") [] (Body (template_of [outer_if]))
  = print (mkOptions "strict" false "") [] (Body (template_of [outer_if])).
Proof.
  apply (print_tells_ignore_only "css" "strict" false "" []
           (Body (template_of [outer_if]))); reflexivity.
Defined.

(** ** White space at the ends of a text run, in the sensitive modes *)

Lemma breaks_shape (k : nat) :
  let breaks := if (k =? 0)%nat then [line] else generateHardlines k in
  breaks <> []
  /\ Forall (fun d => is_line_break d = true) breaks
  /\ Forall (fun d => is_line_break d = true) (map dedent breaks).
Proof.
  cbv zeta. destruct (Nat.eqb_spec k 0) as [->|Hk].
  - repeat split; [discriminate | repeat constructor..].
  - unfold generateHardlines, NEWLINES_TO_PRESERVE_MAX.
    destruct (Nat.min k 2) as [|m] eqn:E; [lia|].
    split; [discriminate|]. clear E.
    split; induction (S m); simpl; constructor; auto.
Qed.

Lemma take_while_first (p : ascii -> bool) (s : string) :
  Js.take_while p s = EmptyString <-> Js.first_is p s = false.
Proof.
  destruct s as [|c r]; simpl; [tauto|].
  destruct (p c); split; congruence.
Qed.

Lemma trailing_run_last (p : ascii -> bool) (s : string) :
  trailing_run p s = EmptyString <-> Js.last_is p s = false.
Proof.
  split.
  - intros H. destruct (Js.last_is p s) eqn:E; [|reflexivity].
    destruct (last_is_trailing_run p s E H).
  - induction s as [|c r IH]; [reflexivity|]. intros H.
    destruct r as [|d t].
    + simpl in *. rewrite H. reflexivity.
    + rewrite last_is_cons in H by discriminate.
      cbn [trailing_run].
      destruct (Js.all_chars p (String d t)) eqn:Ha.
      * rewrite last_is_all in H; [discriminate H | discriminate | exact Ha].
      * rewrite andb_false_r. exact (IH H).
Qed.

(** X13: in a mode other than ["ignore"], a text run outside an attribute
    keeps the white space at its ends as white space and gets none where it
    has none.  When the run is not white space only, breaks ([line]s or
    hardlines) stand before the fill of its words exactly when the text
    starts with white space, and after it exactly when the text ends with
    white space, the last child of the template apart; when it is white
    space only and not at either end of the template, it is printed as one
    or more breaks. *)
Theorem sensitive_mode_keeps_boundary_white_space (options : Options)
    (path : AstPath) (loc : Loc) (chars : string) :
  ignoreMode options = false ->
  getCurrentAttributeName path = None ->
  let text := escapedText chars in
  exists d,
    print options path (TextNode loc chars) = Ok (d, TextNode loc chars)
    /\ (htmlWhitespaceUtils.isWhitespaceOnly text = false ->
        exists before parts after,
          d = DArr (before ++ [fill parts] ++ after)
          /\ Forall (fun b => is_line_break b = true) before
          /\ Forall (fun b => is_line_break b = true) after
          /\ (before = []
              <-> htmlWhitespaceUtils.hasLeadingWhitespace text = false)
          /\ (after = []
              <-> htmlWhitespaceUtils.hasTrailingWhitespace text = false
                  \/ trims_trailing path = true))
    /\ (htmlWhitespaceUtils.isWhitespaceOnly text = true ->
        trims_leading path || trims_trailing path = false ->
        exists breaks,
          d = DArr breaks /\ breaks <> []
          /\ Forall (fun b => is_line_break b = true) breaks).
Proof.
  intros Hi Ha. cbv zeta. eexists. split; [reflexivity|].
  unfold printTextNode. rewrite Ha, Hi. cbn [negb].
  set (text := escapedText chars). split.
  - intros Hw. destruct (printTextSensitive_text path text Hw) as [t2 ->].
    unfold htmlWhitespaceUtils.getLeadingWhitespace,
      htmlWhitespaceUtils.getTrailingWhitespace,
      htmlWhitespaceUtils.hasLeadingWhitespace,
      htmlWhitespaceUtils.hasTrailingWhitespace.
    rewrite !drop_count_trailing.
    pose proof (take_while_first htmlWhitespaceUtils.is_ws text) as Hl.
    pose proof (trailing_run_last htmlWhitespaceUtils.is_ws text) as Ht.
    destruct (breaks_shape
                (countNewLines (Js.take_while htmlWhitespaceUtils.is_ws text)))
      as (L1 & L2 & _).
    destruct (breaks_shape
                (countNewLines (trailing_run htmlWhitespaceUtils.is_ws text)))
      as (T1 & T2 & T3).
    eexists. eexists. eexists. split; [reflexivity|].
    destruct (String.eqb_spec
                (Js.take_while htmlWhitespaceUtils.is_ws text) "") as [El|El];
      destruct (String.eqb_spec
                  (trailing_run htmlWhitespaceUtils.is_ws text) "")
        as [Et|Et];
      destruct (trims_trailing path); cbn [negb];
      destruct (isLast path);
      repeat split; auto; try tauto; try congruence;
      try (intros [H|H]; [tauto | discriminate H]).
    all: intros H; apply map_eq_nil in H; congruence.
  - intros Hw Hn. unfold printTextSensitive. rewrite Hw.
    fold (trims_leading path). fold (trims_trailing path). rewrite Hn.
    destruct (breaks_shape (countNewLines text)) as (B1 & B2 & B3).
    eexists. split; [reflexivity|].
    destruct (isLast path); split; auto.
    destruct (if (countNewLines text =? 0)%nat then [line]
              else generateHardlines (countNewLines text));
      [congruence | discriminate].
Qed.

Lemma sensitive_mode_keeps_boundary_white_space_witness :
  let text := escapedText " a b" in
  exists d,
    print sensitive_options [] (TextNode no_loc " a b")
    = Ok (d, TextNode no_loc " a b")
    /\ (htmlWhitespaceUtils.isWhitespaceOnly text = false ->
        exists before parts after,
          d = DArr (before ++ [fill parts] ++ after)
          /\ Forall (fun b => is_line_break b = true) before
          /\ Forall (fun b => is_line_break b = true) after
          /\ (before = []
              <-> htmlWhitespaceUtils.hasLeadingWhitespace text = false)
          /\ (after = []
              <-> htmlWhitespaceUtils.hasTrailingWhitespace text = false
                  \/ trims_trailing [] = true))
    /\ (htmlWhitespaceUtils.isWhitespaceOnly text = true ->
        trims_leading [] || trims_trailing [] = false ->
        exists breaks,
          d = DArr breaks /\ breaks <> []
          /\ Forall (fun b => is_line_break b = true) breaks).
Proof.
  apply (sensitive_mode_keeps_boundary_white_space sensitive_options []
           no_loc " a b"); reflexivity.
Defined.

(** ** A mustache comment and the text it was read from *)

Lemma get_append_skip (a b : string) (i : nat) :
  String.get (String.length a + i) (a ++ b) = String.get i b.
Proof. induction a as [|c r IH]; [reflexivity | exact IH]. Qed.

Lemma get_append_left (a b : string) (i : nat) :
  i < String.length a -> String.get i (a ++ b) = String.get i a.
Proof.
  revert i. induction a as [|c r IH]; intros i H; simpl in H; [lia|].
  destruct i as [|i]; [reflexivity|]. simpl. apply IH. lia.
Qed.

Lemma get_last (p : ascii -> bool) (s : string) :
  s <> EmptyString ->
  match String.get (String.length s - 1) s with
  | Some c => p c
  | None => false
  end = Js.last_is p s.
Proof.
  induction s as [|c r IH]; [congruence|]. intros _.
  destruct r as [|d t]; [reflexivity|].
  rewrite last_is_cons by discriminate.
  rewrite <- IH by discriminate.
  replace (String.length (String c (String d t)) - 1)
    with (S (String.length (String d t) - 1)) by (simpl; lia).
  reflexivity.
Qed.

Lemma charAt_is_at (a b : string) (i : nat) (c : ascii) :
  Js.charAt_is (a ++ b) (String.length a + i) c = Js.charAt_is b i c.
Proof. unfold Js.charAt_is. rewrite get_append_skip. reflexivity. Qed.

(** X14: a mustache comment is written back as it stands in the original
    text.  When the original text holds, at the span of the comment, the
    comment written with the dashes that its value needs (two on each side
    when the value holds a closing ["}}"], none otherwise) and with a tilde
    on either side or not, [print] reads the tildes at the right places of
    the original text and the strings of its document spell that very
    source. *)
Theorem mustache_comment_written_back (options : Options) (path : AstPath)
    (before after value : string) (left right : bool) :
  let dashes := if Js.includes value "}}" then "--" else "" in
  let tilde (b : bool) := if b then "~" else "" in
  let inside := ("!" ++ dashes ++ value ++ dashes)%string in
  let source :=
    ("{{" ++ tilde left ++ inside ++ tilde right ++ "}}")%string in
  let loc :=
    mkLoc (String.length before)
      (String.length before + String.length source) in
  originalText options = (before ++ source ++ after)%string ->
  (right = false -> Js.last_is (Ascii.eqb "~") inside = false) ->
  Js.startsWith value "__uncomment__" && Js.endsWith value "__uncomment__"
  = false ->
  exists d,
    print options path (MustacheCommentStatement loc value)
    = Ok (d, MustacheCommentStatement loc value)
    /\ doc_text d = source.
Proof.
  cbv zeta beta. intros Ho Hr Hu. eexists. split; [reflexivity|].
  unfold printMustacheComment. rewrite Hu, Ho. cbn [loc_start loc_end].
  set (dashes := if Js.includes value "}}" then "--" else "") in *.
  set (inside := ("!" ++ dashes ++ value ++ dashes)%string) in *.
  set (A := ("{{" ++ (if left then "~" else "") ++ inside)%string).
  assert (EA : ("{{" ++ (if left then "~" else "") ++ inside
                ++ (if right then "~" else "") ++ "}}")%string
               = (A ++ (if right then "~" else "") ++ "}}")%string).
  { unfold A. rewrite !append_assoc. reflexivity. }
  rewrite EA.
  assert (HA : 3 <= String.length A).
  { unfold A, inside. rewrite !append_length. simpl. lia. }
  assert (NA : A <> EmptyString).
  { intros E. rewrite E in HA. simpl in HA. lia. }
  rewrite charAt_is_at.
  assert (L : Js.charAt_is
                ((A ++ (if right then "~" else "") ++ "}}") ++ after)
                2 "~" = left).
  { unfold A. destruct left; reflexivity. }
  assert (R : (3 <=? String.length before
                     + String.length
                         (A ++ (if right then "~" else "") ++ "}}"))%nat
              && Js.charAt_is
                   (before ++ (A ++ (if right then "~" else "") ++ "}}")
                    ++ after)
                   (String.length before
                    + String.length
                        (A ++ (if right then "~" else "") ++ "}}") - 3)
                   "~" = right).
  { rewrite !append_length.
    replace (3 <=? String.length before
                   + (String.length A
                      + (String.length (if right then "~" else "")
                         + String.length "}}")))%nat
      with true by (symmetry; apply Nat.leb_le; simpl; lia).
    cbn [andb]. unfold Js.charAt_is. destruct right.
    - replace (String.length before
               + (String.length A + (String.length "~" + String.length "}}"))
               - 3)
        with (String.length before + (String.length A + 0))
        by (simpl; lia).
      rewrite get_append_skip, append_assoc, get_append_skip. reflexivity.
    - replace (String.length before
               + (String.length A + (String.length "" + String.length "}}"))
               - 3)
        with (String.length before + (String.length A - 1))
        by (simpl; lia).
      rewrite get_append_skip. cbn [append].
      rewrite append_assoc, get_append_left by lia.
      pose proof (get_last (Ascii.eqb "~") A NA) as G.
      assert (LA : Js.last_is (Ascii.eqb "~") A = false).
      { unfold A. rewrite <- append_assoc.
        rewrite last_is_app by (unfold inside; discriminate).
        apply Hr. reflexivity. }
      rewrite LA in G.
      destruct (String.get (String.length A - 1) A) as [c|];
        [|reflexivity].
      rewrite Ascii.eqb_sym. exact G. }
  rewrite L, R. unfold A, inside, tilde_if.
  cbn [doc_text]. rewrite !append_assoc, append_empty_r.
  destruct left; destruct right; reflexivity.
Qed.

Lemma mustache_comment_written_back_witness :
  let options := mkOptions "css" false "a {{~! note }} b" in
  exists d,
    print options [] (MustacheCommentStatement (mkLoc 2 14) " note ")
    = Ok (d, MustacheCommentStatement (mkLoc 2 14) " note ")
    /\ doc_text d = "{{~! note }}".
Proof.
  apply (mustache_comment_written_back
           (mkOptions "css" false "a {{~! note }} b") [] "a " " b" " note "
           true false);
    [reflexivity | intros _; reflexivity | reflexivity].
Defined.

(** ** The children of an element, in the sensitive modes *)

(** X15: in a mode other than ["ignore"], an element that is not void and
    has children is printed as its starting tag, the documents of its
    children and its ending tag, with nothing between them: every child is
    printed once, at its own path, and the documents stand in the order of
    the children; no line is put after the starting tag, between two
    children or before the ending tag. *)
Theorem element_children_printed_in_order (options : Options)
    (path : AstPath) (loc : Loc) (tag : string)
    (attributes modifiers comments children : list node)
    (blockParams : list string) (d : Doc) (n' : node) :
  ignoreMode options = false ->
  isNonEmptyArray children = true ->
  let element :=
    ElementNode loc tag attributes modifiers comments children blockParams
      false in
  print options path element = Ok (d, n') ->
  exists start childDocs,
    d = DArr [ start; indent (group (DArr childDocs));
               indent (DArr [DStr "</"; DStr tag; DStr ">"]); DStr "" ]
    /\ List.length childDocs = List.length children
    /\ forall k child,
         nth_error children k = Some child ->
         exists doc child',
           nth_error childDocs k = Some doc
           /\ print options (path_at element "children" children k path)
                child
              = Ok (doc, child').
Proof.
  intros Hi Hc. cbv zeta. intros H.
  simpl in H. unfold printElementNode in H. inv_bind.
  cbn [isVoidElement] in H. rewrite Hi in H. cbn [andb] in H.
  unfold isNonEmptyArray in Hc. apply negb_true_iff in Hc.
  rewrite Hc in H. inv_bind.
  match goal with
  | Hp : printChildren _ _ _ _ _ = Ok _ |- _ =>
      unfold printChildren in Hp; rewrite Hi in Hp; cbn [andb] in Hp
  end.
  inv_bind.
  match goal with
  | Hm : mapM_from _ 0 children = Ok ?printed |- _ =>
      exists (group d0), (map fst printed);
      split; [reflexivity|];
      split; [rewrite length_map; eapply mapM_from_length; exact Hm|];
      intros k child Hk;
      destruct (mapM_from_nth _ _ _ _ Hm k child Hk) as ([doc child'] & Hy & Hf)
  end.
  simpl in Hf. rewrite andb_false_r in Hf. inv_bind.
  eexists. eexists. split; [|eassumption].
  apply (map_nth_error fst _ _ Hy).
Qed.

Lemma element_children_printed_in_order_witness :
  let element :=
    ElementNode no_loc "b" [] [] [] [TextNode no_loc "x"] [] false in
  exists start childDocs,
    DArr [ group (DArr [ DStr "<"; DStr "b"; indent (DArr []);
                         printStartingTagEndMarker ]);
           indent (group (DArr [DArr [fill [DStr "x"]]]));
           indent (DArr [DStr "</"; DStr "b"; DStr ">"]); DStr "" ]
    = DArr [ start; indent (group (DArr childDocs));
             indent (DArr [DStr "</"; DStr "b"; DStr ">"]); DStr "" ]
    /\ List.length childDocs = 1
    /\ forall k child,
         nth_error [TextNode no_loc "x"] k = Some child ->
         exists doc child',
           nth_error childDocs k = Some doc
           /\ print sensitive_options
                (path_at element "children" [TextNode no_loc "x"] k []) child
              = Ok (doc, child').
Proof.
  apply (element_children_printed_in_order sensitive_options [] no_loc "b"
           [] [] [] [TextNode no_loc "x"] []
           (DArr [ group (DArr [ DStr "<"; DStr "b"; indent (DArr []);
                                 printStartingTagEndMarker ]);
                   indent (group (DArr [DArr [fill [DStr "x"]]]));
                   indent (DArr [DStr "</"; DStr "b"; DStr ">"]); DStr "" ])
           (ElementNode no_loc "b" [] [] [] [TextNode no_loc "x"] [] false));
    reflexivity.
Defined.
